(** * Audio analysis and beat inference of the Visualizer, embedded in Rocq

    The development follows the two TypeScript classes that make up the
    analysis core:

    - [AdvancedBeatDetector] (utils/beatDetector.ts): energy based onset
      detection with a timing gate and a bass confirmation, tempo from
      inter-beat intervals, beat phase, rhythm patterns;
    - [AdvancedAudioAnalyzer] (utils/advancedAudioAnalysis.ts): the spectral
      feature extractor and the music characteristics derived from it,
      together with the band averages of [AudioAnalyzer]
      (utils/audioAnalyzer.ts) that feed both.

    Two consumers of the music characteristics follow them: the theme
    selection of [StoryThemeEngine] (utils/storyThemeEngine.ts) and the
    progress and easing of a scene transition of [NarrativeTransitionEngine]
    (utils/narrativeTransitions.ts).

    Modelling conventions.

    - A JavaScript [number] is a real number ([R]).  Rounding error, NaN and
      the infinities of IEEE doubles are outside the model; integer valued
      quantities that the code keeps in numbers (the millisecond clock of
      [Date.now()], array lengths, indices) are kept in [Z] and [nat].
    - Where the result of the code turns on a comparison or a rounding at
      a tie, the reals are not enough: the onset decision and the tempo
      estimate of the beat detector are stated over a second embedding of
      the class in binary64 floats ([Double], [Float64]), and so is the
      index [Math.floor(length * 0.7)] of the percussive ratio.
    - A [Uint8Array] is a [list byte].
    - Mutable fields of a class instance are a record; a method takes the
      record and returns the updated one with its result.  [Date.now()] is an
      explicit argument [now].
    - [arr.push(x)] is [arr ++ [x]], [arr.shift()] is [tl arr],
      [arr.slice(-n)] keeps the last [n] elements. *)

From Stdlib Require Import Floats.
From Stdlib Require Import Strings.String Strings.Byte.
From Stdlib Require Import Reals Lra Lia ZArith Bool List Sorted Permutation.
Import ListNotations.
Open Scope R_scope.

(** ** JavaScript numbers and arrays *)

Module JS.

Definition ltb (x y : R) : bool := if Rlt_dec x y then true else false.
Definition leb (x y : R) : bool := if Rle_dec x y then true else false.
Definition gtb (x y : R) : bool := ltb y x.
Definition geb (x y : R) : bool := leb y x.
Definition eqb (x y : R) : bool := if Req_dec_T x y then true else false.

(** [Math.floor], [Math.round] (ties go up) and [Math.trunc], as integers. *)
Definition floorZ (x : R) : Z := Zfloor x.
Definition roundZ (x : R) : Z := Zfloor (x + 0.5).
Definition truncZ (x : R) : Z :=
  if Rlt_dec x 0 then (- Zfloor (- x))%Z else Zfloor x.

Definition floor (x : R) : R := IZR (floorZ x).
Definition round (x : R) : R := IZR (roundZ x).

(** [a % b] on numbers: the remainder takes the sign of the dividend. *)
Definition rem (a b : R) : R := a - b * IZR (truncZ (a / b)).

(** [x || d] on numbers: [0] is falsy. *)
Definition orElse (x d : R) : R := if Req_dec_T x 0 then d else x.

Definition log2 (x : R) : R := ln x / ln 2.
Definition log10 (x : R) : R := ln x / ln 10.
(** [Math.pow(b, e)] for a positive base. *)
Definition pow (b e : R) : R := Rpower b e.

Definition Uint8Array := list byte.
Definition byteval (b : byte) : R := IZR (Z.of_N (Byte.to_N b)).

Section Arrays.
Context {A : Type}.

Definition push (arr : list A) (x : A) : list A := arr ++ [x].
Definition shift (arr : list A) : list A := tl arr.
(** [arr.slice(-n)] *)
Definition sliceLast (n : nat) (arr : list A) : list A :=
  skipn (length arr - n) arr.
(** [arr.slice(0, n)] *)
Definition sliceFirst (n : nat) (arr : list A) : list A := firstn n arr.
(** [arr.push(x); if (arr.length > cap) arr.shift()] *)
Definition pushCapped (cap : nat) (arr : list A) (x : A) : list A :=
  let arr' := push arr x in
  if (cap <? length arr')%nat then shift arr' else arr'.
(** [arr[arr.length - 1]] on a non-empty array *)
Definition lastOf (d : A) (arr : list A) : A := nth (length arr - 1) arr d.
End Arrays.

(** [arr.reduce((sum, val) => sum + val, 0)] *)
Definition sum (arr : list R) : R := fold_left (fun sum val => sum + val) arr 0.

(** [[...arr].sort((a, b) => a - b)] on integers: ascending order. *)
Fixpoint insertAsc (x : Z) (l : list Z) : list Z :=
  match l with
  | [] => [x]
  | y :: l' => if (x <? y)%Z then x :: l else y :: insertAsc x l'
  end.
Definition sortAsc (l : list Z) : list Z := fold_left (fun acc x => insertAsc x acc) l [].

End JS.

(** ** The beat detector *)

Module RhythmPattern.
Record t := mk { pattern : list bool; confidence : R; period : nat }.
End RhythmPattern.

Module BeatData.
Record t := mk {
  isBeat : bool;
  confidence : R;
  tempo : R;
  timeSignature : nat;
  beatPhase : R;
  intensity : R
}.
End BeatData.

Module AdvancedBeatDetector.

Record t := mk {
  sampleRate : R;
  bufferSize : R;
  energyHistory : list R;
  beatHistory : list Z;
  tempoHistory : list R;
  lastBeatTime : Z;
  beatInterval : R;
  beatPhase : R;
  bassHistory : list R;
  midHistory : list R;
  trebleHistory : list R;
  rhythmPatterns : list RhythmPattern.t;
  patternBuffer : list bool
}.

(** The detection parameters are fields that no method assigns. *)
Definition energyThreshold : R := 1.3.
Definition minBeatInterval : Z := 300.
Definition maxBeatInterval : Z := 2000.
Definition historySize : nat := 43.
Definition tempoSmoothingFactor : R := 0.9.

(** [constructor(sampleRate = 44100, bufferSize = 1024)] with the field
    initialisers of the class. *)
Definition new (sampleRate bufferSize : R) : t :=
  mk sampleRate bufferSize [] [] [] 0 0 0 [] [] [] [] [].
Definition newDefault : t := new 44100 1024.

Definition reset (d : t) : t :=
  mk (sampleRate d) (bufferSize d) [] [] [] 0 (beatInterval d) 0 [] [] [] [] [].

Definition calculateEnergy (frequencyData : JS.Uint8Array) : R :=
  let sum :=
    fold_left (fun sum b => sum + JS.byteval b * JS.byteval b) frequencyData 0 in
  sqrt (sum / INR (length frequencyData)) / 255.

Definition updateFrequencyHistories (d : t) (bass mid treble : R) : t :=
  let maxHistory := 20%nat in
  mk (sampleRate d) (bufferSize d) (energyHistory d) (beatHistory d)
     (tempoHistory d) (lastBeatTime d) (beatInterval d) (beatPhase d)
     (JS.pushCapped maxHistory (bassHistory d) bass)
     (JS.pushCapped maxHistory (midHistory d) mid)
     (JS.pushCapped maxHistory (trebleHistory d) treble)
     (rhythmPatterns d) (patternBuffer d).

Definition pushEnergy (d : t) (energy : R) : t :=
  mk (sampleRate d) (bufferSize d)
     (JS.pushCapped historySize (energyHistory d) energy)
     (beatHistory d) (tempoHistory d) (lastBeatTime d) (beatInterval d)
     (beatPhase d) (bassHistory d) (midHistory d) (trebleHistory d)
     (rhythmPatterns d) (patternBuffer d).

(** The three criteria of [detectBeat], on the state as it is when the method
    runs (histories already pushed). *)
Definition localAverage (d : t) : R :=
  let recentEnergy := JS.sliceLast 10 (energyHistory d) in
  JS.sum recentEnergy / INR (length recentEnergy).

Definition variance (d : t) : R :=
  let recentEnergy := JS.sliceLast 10 (energyHistory d) in
  fold_left (fun sum val => sum + (val - localAverage d) ^ 2) recentEnergy 0
  / INR (length recentEnergy).

Definition adaptiveThreshold (d : t) : R := energyThreshold + sqrt (variance d).
Definition energyRatio (d : t) (energy : R) : R := energy / (localAverage d + 0.001).
Definition isEnergyBeat (d : t) (energy : R) : bool :=
  JS.gtb (energyRatio d energy) (adaptiveThreshold d).
Definition isTimingValid (d : t) (currentTime : Z) : bool :=
  (minBeatInterval <=? currentTime - lastBeatTime d)%Z.
Definition bassAvg (d : t) : R := JS.sum (bassHistory d) / INR (length (bassHistory d)).
Definition isBassHit (d : t) : bool :=
  JS.gtb (JS.lastOf 0 (bassHistory d)) (bassAvg d * 1.2).

Definition detectBeat (d : t) (energy : R) (currentTime : Z) : t * (bool * R) :=
  if (length (energyHistory d) <? 10)%nat then (d, (false, 0))
  else
    let isBeat := isEnergyBeat d energy && isTimingValid d currentTime && isBassHit d in
    if isBeat then
      let confidence := Rmin 1 ((energyRatio d energy - 1) * 0.5) in
      (mk (sampleRate d) (bufferSize d) (energyHistory d)
          (JS.pushCapped 8 (beatHistory d) currentTime)
          (tempoHistory d) currentTime (beatInterval d) (beatPhase d)
          (bassHistory d) (midHistory d) (trebleHistory d)
          (rhythmPatterns d) (patternBuffer d),
       (true, confidence))
    else (d, (false, 0)).

Definition median (arr : list Z) : R :=
  let sorted := JS.sortAsc arr in
  let mid := (length sorted / 2)%nat in
  if (length sorted mod 2 =? 0)%nat
  then (IZR (nth (mid - 1) sorted 0%Z) + IZR (nth mid sorted 0%Z)) / 2
  else IZR (nth mid sorted 0%Z).

(** [for (let i = 1; i < beatHistory.length; i++)
       intervals.push(beatHistory[i] - beatHistory[i - 1])] *)
Definition intervalsOf (beatHistory : list Z) : list Z :=
  map (fun i => (nth i beatHistory 0 - nth (i - 1) beatHistory 0)%Z)
      (seq 1 (length beatHistory - 1)).

Definition validIntervalsOf (intervals : list Z) : list Z :=
  let medianInterval := median intervals in
  filter (fun interval =>
            JS.ltb (Rabs (IZR interval - medianInterval)) (medianInterval * 0.3))
         intervals.

Definition lastTempoOr (d : t) (dflt : R) : R :=
  if (0 <? length (tempoHistory d))%nat then JS.lastOf 0 (tempoHistory d) else dflt.

Definition calculateTempo (d : t) (currentTime : Z) (isBeat : bool) : t * R :=
  if negb isBeat || (length (beatHistory d) <? 2)%nat then (d, lastTempoOr d 120)
  else
    let intervals := intervalsOf (beatHistory d) in
    let validIntervals := validIntervalsOf intervals in
    if (length validIntervals =? 0)%nat then (d, 120)
    else
      let avgInterval := JS.sum (map IZR validIntervals) / INR (length validIntervals) in
      let newTempo := JS.round (60000 / avgInterval) in
      let lastTempo := lastTempoOr d newTempo in
      let smoothedTempo :=
        JS.round (lastTempo * tempoSmoothingFactor
                  + newTempo * (1 - tempoSmoothingFactor)) in
      let finalTempo := Rmax 60 (Rmin 200 smoothedTempo) in
      (mk (sampleRate d) (bufferSize d) (energyHistory d) (beatHistory d)
          (JS.pushCapped 10 (tempoHistory d) finalTempo)
          (lastBeatTime d) (beatInterval d) (beatPhase d)
          (bassHistory d) (midHistory d) (trebleHistory d)
          (rhythmPatterns d) (patternBuffer d),
       finalTempo).

Definition setBeatPhase (d : t) (phase : R) : t :=
  mk (sampleRate d) (bufferSize d) (energyHistory d) (beatHistory d)
     (tempoHistory d) (lastBeatTime d) (beatInterval d) phase
     (bassHistory d) (midHistory d) (trebleHistory d)
     (rhythmPatterns d) (patternBuffer d).

Definition updateBeatPhase (d : t) (currentTime : Z) (tempo : R) : t :=
  if (lastBeatTime d =? 0)%Z then setBeatPhase d 0
  else
    let beatDuration := 60000 / tempo in
    let timeSinceLastBeat := IZR (currentTime - lastBeatTime d) in
    setBeatPhase d (JS.rem timeSinceLastBeat beatDuration / beatDuration).

(** [calculatePatternConfidence]: the outer loop visits
    [i = length, 2 * length, ...] while [i < patternBuffer.length - length]. *)
Definition patternOffsets (bufLen length : nat) : list nat :=
  filter (fun i => (i <? bufLen - length)%nat)
         (map (fun k => (k * length)%nat) (seq 1 bufLen)).

Definition calculatePatternConfidence (d : t) (pattern : list bool) (length : nat) : R :=
  let buf := patternBuffer d in
  if (List.length buf <? length * 3)%nat then 0
  else
    let '(matches, total) :=
      fold_left
        (fun acc i =>
           fold_left
             (fun '(matches, total) j =>
                ((if Bool.eqb (nth (i + j) buf false) (nth j pattern false)
                  then S matches else matches),
                 S total))
             (seq 0 length) acc)
        (patternOffsets (List.length buf) length) (0%nat, 0%nat) in
    if (0 <? total)%nat then INR matches / INR total else 0.

Definition patternsMatch (pattern1 pattern2 : list bool) : bool :=
  if negb (length pattern1 =? length pattern2)%nat then false
  else
    let matches :=
      fold_left
        (fun matches i =>
           if Bool.eqb (nth i pattern1 false) (nth i pattern2 false)
           then S matches else matches)
        (seq 0 (length pattern1)) 0%nat in
    JS.gtb (INR matches / INR (length pattern1)) 0.8.

(** [rhythmPatterns.find(p => ...)] followed by the assignment to the found
    pattern's confidence: the first match is updated in place; [None] when
    nothing matches. *)
Fixpoint bumpFirstMatch (length : nat) (pattern : list bool)
    (ps : list RhythmPattern.t) : option (list RhythmPattern.t) :=
  match ps with
  | [] => None
  | p :: ps' =>
      if (RhythmPattern.period p =? length)%nat
         && patternsMatch (RhythmPattern.pattern p) pattern
      then Some (RhythmPattern.mk (RhythmPattern.pattern p)
                                  (Rmin 1 (RhythmPattern.confidence p + 0.1))
                                  (RhythmPattern.period p) :: ps')
      else option_map (cons p) (bumpFirstMatch length pattern ps')
  end.

(** [sort((a, b) => b.confidence - a.confidence)]: descending and stable, an
    element stays in front of the later ones of equal confidence. *)
Fixpoint insertDesc (p : RhythmPattern.t) (l : list RhythmPattern.t) : list RhythmPattern.t :=
  match l with
  | [] => [p]
  | q :: l' =>
      if JS.leb (RhythmPattern.confidence q) (RhythmPattern.confidence p)
      then p :: l else q :: insertDesc p l'
  end.
Definition sortDesc (l : list RhythmPattern.t) : list RhythmPattern.t :=
  fold_right insertDesc [] l.

Definition setRhythmPatterns (d : t) (ps : list RhythmPattern.t) : t :=
  mk (sampleRate d) (bufferSize d) (energyHistory d) (beatHistory d)
     (tempoHistory d) (lastBeatTime d) (beatInterval d) (beatPhase d)
     (bassHistory d) (midHistory d) (trebleHistory d) ps (patternBuffer d).

Definition analyzeRhythmPatterns (d : t) : t :=
  let patternLengths := [4; 8; 16]%nat in
  let d1 :=
    fold_left
      (fun d length =>
         if (List.length (patternBuffer d) <? length * 2)%nat then d
         else
           let pattern := JS.sliceLast length (patternBuffer d) in
           let confidence := calculatePatternConfidence d pattern length in
           if JS.gtb confidence 0.6 then
             match bumpFirstMatch length pattern (rhythmPatterns d) with
             | Some ps => setRhythmPatterns d ps
             | None =>
                 setRhythmPatterns d
                   (JS.push (rhythmPatterns d)
                            (RhythmPattern.mk pattern confidence length))
             end
           else d)
      patternLengths d in
  let kept := filter (fun p => JS.gtb (RhythmPattern.confidence p) 0.3) (rhythmPatterns d1) in
  if (5 <? length kept)%nat
  then setRhythmPatterns d1 (JS.sliceFirst 5 (sortDesc kept))
  else setRhythmPatterns d1 kept.

Definition updateRhythmPatterns (d : t) (isBeat : bool) : t :=
  let d1 :=
    mk (sampleRate d) (bufferSize d) (energyHistory d) (beatHistory d)
       (tempoHistory d) (lastBeatTime d) (beatInterval d) (beatPhase d)
       (bassHistory d) (midHistory d) (trebleHistory d) (rhythmPatterns d)
       (JS.pushCapped 32 (patternBuffer d) isBeat) in
  if (16 <=? length (patternBuffer d1))%nat
     && (length (patternBuffer d1) mod 16 =? 0)%nat
  then analyzeRhythmPatterns d1 else d1.

Definition estimateTimeSignature (d : t) : nat :=
  let strongPatterns :=
    filter (fun p => JS.gtb (RhythmPattern.confidence p) 0.7) (rhythmPatterns d) in
  if (length strongPatterns =? 0)%nat then 4%nat
  else
    let periods := map RhythmPattern.period strongPatterns in
    let includes n := existsb (Nat.eqb n) periods in
    if includes 4%nat || includes 8%nat then 4%nat
    else if includes 3%nat || includes 6%nat then 3%nat
    else if includes 2%nat then 2%nat
    else 4%nat.

Definition calculateIntensity (bass mid treble energy : R) : R :=
  Rmin 1 ((bass * 0.4 + mid * 0.3 + treble * 0.2 + energy * 0.1) * 2).

(** [analyze]; [now] is the value [Date.now()] returns on this call. *)
Definition analyze (d : t) (now : Z) (frequencyData timeData : JS.Uint8Array)
    (bass mid treble : R) : t * BeatData.t :=
  let currentTime := now in
  let energy := calculateEnergy frequencyData in
  let d1 := updateFrequencyHistories d bass mid treble in
  let d2 := pushEnergy d1 energy in
  let '(d3, (isBeat, confidence)) := detectBeat d2 energy currentTime in
  let '(d4, tempo) := calculateTempo d3 currentTime isBeat in
  let d5 := updateBeatPhase d4 currentTime tempo in
  let d6 := updateRhythmPatterns d5 isBeat in
  let timeSignature := estimateTimeSignature d6 in
  (d6,
   BeatData.mk isBeat confidence tempo timeSignature (beatPhase d6)
               (calculateIntensity bass mid treble energy)).

(** One tick of input: the clock reading and the frame handed to [analyze]. *)
Record Tick := mkTick {
  now : Z;
  frequencyData : JS.Uint8Array;
  timeData : JS.Uint8Array;
  bass : R;
  mid : R;
  treble : R
}.

Definition step (d : t) (k : Tick) : t * BeatData.t :=
  analyze d (now k) (frequencyData k) (timeData k) (bass k) (mid k) (treble k).

(** A detector is used through its constructor, [analyze] and [reset]. *)
Inductive reachable : t -> Prop :=
| reach_new sampleRate bufferSize : reachable (new sampleRate bufferSize)
| reach_analyze d k : reachable d -> reachable (fst (step d k))
| reach_reset d : reachable d -> reachable (reset d).

(** [analyze] called once per tick; the outputs are returned oldest first,
    each with the clock reading of its tick. *)
Fixpoint run (d : t) (ticks : list Tick) : t * list (Z * BeatData.t) :=
  match ticks with
  | [] => (d, [])
  | k :: ticks' =>
      let '(d1, out) := step d k in
      let '(d2, outs) := run d1 ticks' in
      (d2, (now k, out) :: outs)
  end.

Fixpoint nondecreasing (clock : list Z) : Prop :=
  match clock with
  | [] => True
  | t0 :: rest =>
      (match rest with [] => True | t1 :: _ => (t0 <= t1)%Z end) /\ nondecreasing rest
  end.

End AdvancedBeatDetector.


(** ** JavaScript numbers as binary64 floats

    The operations of the code on IEEE 754 doubles, for the places where the
    exact reals of [JS] and the doubles part: a comparison or a rounding at a
    tie.  Rocq's primitive floats are binary64 and round to nearest even, as
    the arithmetic of a JavaScript engine does. *)

Set Warnings "-inexact-float".

Module Double.


Local Open Scope float_scope.

(** An integer as a number; exact below 2^53. *)
Definition ofZ (z : Z) : float :=
  if (z <? 0)%Z then - PrimFloat.of_uint63 (Uint63.of_Z (- z))
  else PrimFloat.of_uint63 (Uint63.of_Z z).
Definition ofNat (n : nat) : float := ofZ (Z.of_nat n).
Definition ofByte (b : byte) : float := ofZ (Z.of_N (Byte.to_N b)).

(** [x > y] and [x < y]; both are false when an operand is NaN. *)
Definition gtb (x y : float) : bool := PrimFloat.ltb y x.
Definition ltb (x y : float) : bool := PrimFloat.ltb x y.

(** [Math.min] and [Math.max]: NaN if an operand is NaN, and -0 below +0. *)
Definition Math_min (a b : float) : float :=
  match PrimFloat.compare a b with
  | FLt => a
  | FGt => b
  | FEq => if get_sign a then a else b
  | FNotComparable => nan
  end.
Definition Math_max (a b : float) : float :=
  match PrimFloat.compare a b with
  | FLt => b
  | FGt => a
  | FEq => if get_sign a then b else a
  | FNotComparable => nan
  end.

(** [Math.round]: the integer nearest to [x], a tie going up; computed on
    the exact value [M * 2^e] of the float as [floor (x + 1/2)].  A float
    with [e >= 0] is an integer already; a zero result keeps the sign of
    [x]. *)
Definition Math_round (x : float) : float :=
  match Prim2SF x with
  | S754_finite s m e =>
      if (0 <=? e)%Z then x
      else
        let M := if s then Z.neg m else Z.pos m in
        let n := ((2 * M + 2 ^ (- e)) / 2 ^ (1 - e))%Z in
        if (n =? 0)%Z then (if s then neg_zero else zero) else ofZ n
  | _ => x
  end.

(** [Math.pow(x, 2)]: the engines' [pow] (fdlibm) returns [x * x] for the
    exponent 2. *)
Definition Math_pow2 (x : float) : float := x * x.

(** [a % b]: the exact remainder of the truncated division, with the sign
    of the dividend. *)
Definition rem (a b : float) : float :=
  match Prim2SF a, Prim2SF b with
  | S754_nan, _ | _, S754_nan => nan
  | S754_infinity _, _ => nan
  | _, S754_zero _ => nan
  | S754_zero _, _ => a
  | S754_finite _ _ _, S754_infinity _ => a
  | S754_finite sa ma ea, S754_finite _ mb eb =>
      let e := Z.min ea eb in
      let A := (Z.pos ma * 2 ^ (ea - e))%Z in
      let B := (Z.pos mb * 2 ^ (eb - e))%Z in
      let r := (A mod B)%Z in
      if (r =? 0)%Z then (if sa then neg_zero else zero)
      else
        let v := SF2Prim (binary_normalize prec emax r e false) in
        if sa then - v else v
  end.

(** [arr.reduce((sum, val) => sum + val, 0)] *)
Definition sum (arr : list float) : float := fold_left (fun sum val => sum + val) arr 0.

(** [arr[i]] of an array of integers, [undefined] read as a number. *)
Definition at_ (arr : list Z) (i : nat) : float :=
  match nth_error arr i with
  | Some z => ofZ z
  | None => nan
  end.

(** [Math.floor] as an integer, on the exact value of the float; 0 for NaN
    and the infinities, which no index is computed from. *)
Definition Math_floorZ (x : float) : Z :=
  match Prim2SF x with
  | S754_finite s m e =>
      let M := if s then Z.neg m else Z.pos m in
      if (0 <=? e)%Z then (M * 2 ^ e)%Z else (M / 2 ^ (- e))%Z
  | _ => 0%Z
  end.

End Double.

(** ** The spectral frontend ([AudioAnalyzer.getAnalysisData]) *)

Module AudioAnalysisData.
Record t := mk {
  frequencyData : JS.Uint8Array;
  timeData : JS.Uint8Array;
  volume : R;
  bass : R;
  mid : R;
  treble : R;
  beat : bool;
  tempo : R
}.
End AudioAnalysisData.

Module AudioAnalyzer.

(** The fields the analysis reads and writes; [sampleRate] is the one of the
    audio context. *)
Record t := mk {
  sampleRate : R;
  beatHistory : list R;
  lastBeatTime : Z;
  tempoHistory : list R
}.

Definition beatThreshold : R := 0.3.

Definition new (sampleRate : R) : t := mk sampleRate [] 0 [].

Definition getFrequencyBandAverage (a : t) (frequencyData : JS.Uint8Array)
    (startFreq endFreq : R) : R :=
  let nyquist := sampleRate a / 2 in
  let startBin := Z.to_nat (JS.floorZ (startFreq / nyquist * INR (length frequencyData))) in
  let endBin := Z.to_nat (JS.floorZ (endFreq / nyquist * INR (length frequencyData))) in
  let '(sum, count) :=
    fold_left (fun '(sum, count) i =>
                 (sum + JS.byteval (nth i frequencyData x00), S count))
              (seq startBin (Nat.min endBin (length frequencyData) - startBin))
              (0, 0%nat) in
  if (0 <? count)%nat then sum / INR count / 255 else 0.

Definition detectBeat (a : t) (now : Z) (bassLevel volume : R) : t * bool :=
  let currentTime := now in
  let timeSinceLastBeat := (currentTime - lastBeatTime a)%Z in
  if (timeSinceLastBeat <? 100)%Z then (a, false)
  else
    let beatHistory' := JS.pushCapped 10 (beatHistory a) bassLevel in
    let avgBass := JS.sum beatHistory' / INR (length beatHistory') in
    let beatDetected :=
      JS.gtb bassLevel (avgBass + beatThreshold) && JS.gtb volume 0.1 in
    if beatDetected then
      let tempoHistory' :=
        if (0 <? length (tempoHistory a))%nat
        then JS.pushCapped 8 (tempoHistory a) (IZR timeSinceLastBeat)
        else JS.push (tempoHistory a) (IZR timeSinceLastBeat) in
      (mk (sampleRate a) beatHistory' currentTime tempoHistory', true)
    else (mk (sampleRate a) beatHistory' (lastBeatTime a) (tempoHistory a), false).

Definition calculateTempo (a : t) : R :=
  if (length (tempoHistory a) <? 2)%nat then 0
  else
    let avgInterval := JS.sum (tempoHistory a) / INR (length (tempoHistory a)) in
    JS.round (60000 / avgInterval).

(** [getAnalysisData]; the two arrays are what the analyser node wrote into
    [frequencyData] and [timeData]. *)
Definition getAnalysisData (a : t) (now : Z)
    (frequencyData timeData : JS.Uint8Array) : t * AudioAnalysisData.t :=
  let sum :=
    fold_left (fun sum b =>
                 let sample := (JS.byteval b - 128) / 128 in sum + sample * sample)
              timeData 0 in
  let volume := sqrt (sum / INR (length timeData)) in
  let bass := getFrequencyBandAverage a frequencyData 0 60 in
  let mid := getFrequencyBandAverage a frequencyData 60 250 in
  let treble := getFrequencyBandAverage a frequencyData 250 500 in
  let '(a1, beat) := detectBeat a now bass volume in
  let tempo := calculateTempo a1 in
  (a1, AudioAnalysisData.mk frequencyData timeData volume bass mid treble beat tempo).

End AudioAnalyzer.

(** ** The advanced feature extractor and the music characteristics *)

Module AdvancedAudioFeatures.
Record t := mk {
  spectralCentroid : R;
  spectralRolloff : R;
  spectralFlux : R;
  zeroCrossingRate : R;
  mfcc : list R;
  chroma : list R;
  tonnetz : list R;
  harmonicRatio : R;
  percussiveRatio : R
}.
End AdvancedAudioFeatures.

Inductive Mood :=
| energetic | calm | dark | uplifting | mysterious | romantic | aggressive.

Module MusicCharacteristics.
Record t := mk {
  tempo : R;
  energy : R;
  valence : R;
  danceability : R;
  acousticness : R;
  instrumentalness : R;
  genre : string;
  mood : Mood;
  timeSignature : nat;
  key : string
}.
End MusicCharacteristics.

Module GenreClassification.
Record Characteristics := mkCharacteristics {
  electronic : R;
  acoustic : R;
  vocal : R;
  instrumental : R;
  rhythmic : R;
  melodic : R
}.
Record t := mk {
  primary : string;
  confidence : R;
  secondary : list string;
  characteristics : Characteristics
}.
End GenreClassification.

(** [a.reduce((sum, val, i) => sum + val * b[i], 0)].  An entry of [b] past
    its end is read as 0; the code yields NaN there, which takes an [a]
    longer than [b], and the chroma vectors and their templates have twelve
    entries each. *)
Definition dotProduct (a b : list R) : R :=
  fold_left (fun sum '(val, i) => sum + val * nth i b 0)
            (combine a (seq 0 (length a))) 0.

Module GenreClassifier.

Import AdvancedAudioFeatures.

Definition calculateElectronicScore (features : AdvancedAudioFeatures.t)
    (audioData : AudioAnalysisData.t) : R :=
  let highFreqEnergy := AudioAnalysisData.treble audioData in
  let spectralFlux := spectralFlux features in
  let lowHarmonicRatio := 1 - harmonicRatio features in
  highFreqEnergy * 0.4 + spectralFlux * 0.3 + lowHarmonicRatio * 0.3.

Definition calculateAcousticScore (features : AdvancedAudioFeatures.t) : R :=
  harmonicRatio features * 0.6 + (1 - spectralFlux features) * 0.4.

Definition calculateMFCCVariance (mfcc : list R) : R :=
  let mean := JS.sum mfcc / INR (length mfcc) in
  let variance :=
    fold_left (fun sum val => sum + (val - mean) ^ 2) mfcc 0 / INR (length mfcc) in
  Rmin 1 (sqrt variance).

Definition calculateVocalScore (features : AdvancedAudioFeatures.t) : R :=
  let midRangeZCR :=
    if JS.gtb (zeroCrossingRate features) 0.1 && JS.ltb (zeroCrossingRate features) 0.3
    then 1 else 0 in
  let mfccVariance := calculateMFCCVariance (mfcc features) in
  midRangeZCR * 0.6 + mfccVariance * 0.4.

Definition calculateInstrumentalScore (features : AdvancedAudioFeatures.t) : R :=
  1 - calculateVocalScore features.

Definition calculateRhythmicScore (beatData : BeatData.t)
    (features : AdvancedAudioFeatures.t) : R :=
  let beatStrength := JS.orElse (BeatData.confidence beatData) 0 in
  let percussiveness := percussiveRatio features in
  beatStrength * 0.7 + percussiveness * 0.3.

(** [Math.max(...chroma)] of a non-empty array. *)
Definition maxOf (l : list R) : R :=
  match l with
  | [] => 0
  | x :: rest => fold_left Rmax rest x
  end.

Definition calculateTonalStability (chroma : list R) : R :=
  let maxChroma := maxOf chroma in
  let chromaSum := JS.sum chroma in
  if JS.gtb chromaSum 0 then maxChroma / chromaSum else 0.

Definition calculateMelodicScore (features : AdvancedAudioFeatures.t) : R :=
  let harmonicity := harmonicRatio features in
  let tonalStability := calculateTonalStability (chroma features) in
  harmonicity * 0.6 + tonalStability * 0.4.

Definition getSecondaryGenres (c : GenreClassification.Characteristics) : list string :=
  let threshold := 0.5 in
  let genres :=
    (if JS.gtb (GenreClassification.electronic c) threshold then ["electronic"%string] else [])
    ++ (if JS.gtb (GenreClassification.acoustic c) threshold then ["acoustic"%string] else [])
    ++ (if JS.gtb (GenreClassification.rhythmic c) threshold then ["rhythmic"%string] else [])
    ++ (if JS.gtb (GenreClassification.melodic c) threshold then ["melodic"%string] else []) in
  JS.sliceFirst 3 genres.

Definition classify (features : AdvancedAudioFeatures.t)
    (audioData : AudioAnalysisData.t) (beatData : BeatData.t) : GenreClassification.t :=
  let c :=
    GenreClassification.mkCharacteristics
      (calculateElectronicScore features audioData)
      (calculateAcousticScore features)
      (calculateVocalScore features)
      (calculateInstrumentalScore features)
      (calculateRhythmicScore beatData features)
      (calculateMelodicScore features) in
  let '(primary, confidence) :=
    if JS.gtb (GenreClassification.electronic c) 0.7
       && JS.gtb (GenreClassification.rhythmic c) 0.6
    then ("electronic"%string,
          (GenreClassification.electronic c + GenreClassification.rhythmic c) / 2)
    else if JS.gtb (GenreClassification.acoustic c) 0.6
            && JS.gtb (GenreClassification.melodic c) 0.5
    then ("folk"%string,
          (GenreClassification.acoustic c + GenreClassification.melodic c) / 2)
    else if JS.gtb (GenreClassification.rhythmic c) 0.8
            && JS.gtb (BeatData.tempo beatData) 120
    then ("dance"%string, GenreClassification.rhythmic c)
    else if JS.gtb (GenreClassification.instrumental c) 0.7
            && JS.gtb (GenreClassification.melodic c) 0.6
    then ("ambient"%string,
          (GenreClassification.instrumental c + GenreClassification.melodic c) / 2)
    else ("unknown"%string, 0) in
  GenreClassification.mk primary confidence (getSecondaryGenres c) c.

End GenreClassifier.

Module AdvancedAudioAnalyzer.

Import AdvancedAudioFeatures.

(** The only field the methods assign is [analysisHistory]. *)
Record t := mk { analysisHistory : list AdvancedAudioFeatures.t }.

Definition sampleRate : R := 44100.
Definition frameSize : R := 2048.
Definition hopSize : R := 512.

Definition new : t := mk [].

(** [frequencyData[i]] *)
Definition bin (frequencyData : JS.Uint8Array) (i : nat) : R :=
  JS.byteval (nth i frequencyData x00).

(** [(i * this.sampleRate) / (2 * frequencyData.length)] *)
Definition binFrequency (frequencyData : JS.Uint8Array) (i : nat) : R :=
  (INR i * sampleRate) / (2 * INR (length frequencyData)).

Definition calculateSpectralCentroid (frequencyData : JS.Uint8Array) : R :=
  let '(weightedSum, magnitudeSum) :=
    fold_left
      (fun '(weightedSum, magnitudeSum) i =>
         let magnitude := bin frequencyData i / 255 in
         let frequency := binFrequency frequencyData i in
         (weightedSum + frequency * magnitude, magnitudeSum + magnitude))
      (seq 0 (length frequencyData)) (0, 0) in
  if JS.gtb magnitudeSum 0 then weightedSum / magnitudeSum else 0.

(** The loop of [calculateSpectralRolloff] with its early return. *)
Fixpoint rolloffFrom (frequencyData : JS.Uint8Array) (targetEnergy : R)
    (indices : list nat) (cumulativeEnergy : R) : R :=
  match indices with
  | [] => sampleRate / 2
  | i :: rest =>
      let cumulativeEnergy := cumulativeEnergy + (bin frequencyData i / 255) ^ 2 in
      if JS.leb targetEnergy cumulativeEnergy
      then binFrequency frequencyData i
      else rolloffFrom frequencyData targetEnergy rest cumulativeEnergy
  end.

Definition calculateSpectralRolloff (frequencyData : JS.Uint8Array) (threshold : R) : R :=
  let totalEnergy :=
    fold_left (fun sum val => sum + (JS.byteval val / 255) ^ 2) frequencyData 0 in
  let targetEnergy := totalEnergy * threshold in
  rolloffFrom frequencyData targetEnergy (seq 0 (length frequencyData)) 0.

Definition calculateSpectralFlux (a : t) (frequencyData : JS.Uint8Array) : R :=
  if (length (analysisHistory a) =? 0)%nat then 0
  else
    match nth_error (analysisHistory a) (length (analysisHistory a) - 1) with
    | None => 0
    | Some previousSpectrum =>
        let minLength := Nat.min (length frequencyData) 128 in
        let flux :=
          fold_left
            (fun flux i =>
               let current := bin frequencyData i / 255 in
               let previous :=
                 if (i <? length (mfcc previousSpectrum))%nat
                 then nth i (mfcc previousSpectrum) 0 else 0 in
               flux + Rmax 0 (current - previous))
            (seq 0 minLength) 0 in
        flux / INR minLength
    end.

Definition calculateZeroCrossingRate (timeData : JS.Uint8Array) : R :=
  let centerValue := 128%Z in
  let sample i := Z.of_N (Byte.to_N (nth i timeData x00)) in
  let crossings :=
    fold_left
      (fun crossings i =>
         let prev := (sample (i - 1)%nat - centerValue)%Z in
         let curr := (sample i - centerValue)%Z in
         if ((0 <=? prev)%Z && (curr <? 0)%Z) || ((prev <? 0)%Z && (0 <=? curr)%Z)
         then S crossings else crossings)
      (seq 1 (length timeData - 1)) 0%nat in
  INR crossings / INR (length timeData).

Definition hzToMel (hz : R) : R := 2595 * JS.log10 (1 + hz / 700).
Definition melToHz (mel : R) : R := 700 * (JS.pow 10 (mel / 2595) - 1).

(** One row of [createMelFilterBank]: the array [filter] after its loop. *)
Definition melFilter (spectrumLength numFilters i : nat) : list R :=
  let melMax := hzToMel (sampleRate / 2) in
  let melMin := hzToMel 0 in
  let centerMel := melMin + (INR i + 1) * (melMax - melMin) / (INR numFilters + 1) in
  let centerHz := melToHz centerMel in
  let centerBin := JS.floorZ ((centerHz * INR spectrumLength * 2) / sampleRate) in
  let width := Z.of_nat (spectrumLength / numFilters) in
  let lo := Z.max 0 (centerBin - width) in
  let hi := Z.min (Z.of_nat spectrumLength) (centerBin + width) in
  map (fun j =>
         if ((lo <=? Z.of_nat j) && (Z.of_nat j <? hi))%Z
         then 1 - Rabs (IZR (Z.of_nat j - centerBin)) / IZR width
         else 0)
      (seq 0 spectrumLength).

Definition createMelFilterBank (spectrumLength numFilters : nat) : list (list R) :=
  map (melFilter spectrumLength numFilters) (seq 0 numFilters).

Definition calculateMFCC (frequencyData : JS.Uint8Array) : list R :=
  let numCoefficients := 13%nat in
  let melFilters := createMelFilterBank (length frequencyData) numCoefficients in
  map (fun i =>
         let coefficient :=
           fold_left
             (fun coefficient j =>
                coefficient + (bin frequencyData j / 255) * nth j (nth i melFilters []) 0)
             (seq 0 (length frequencyData)) 0 in
         ln (coefficient + 1e-10))
      (seq 0 numCoefficients).

(** [chroma[idx] += magnitude] *)
Fixpoint addAt (idx : nat) (magnitude : R) (chroma : list R) : list R :=
  match chroma, idx with
  | [], _ => []
  | v :: rest, O => (v + magnitude) :: rest
  | v :: rest, S idx' => v :: addAt idx' magnitude rest
  end.

(** [Math.round(12 * Math.log2(frequency / A4_FREQ)) % 12], then made
    non-negative. *)
Definition pitchClassOf (frequency : R) : nat :=
  let A4_FREQ := 440 in
  let pitchClass := Z.rem (JS.roundZ (12 * JS.log2 (frequency / A4_FREQ))) 12 in
  let normalizedPitchClass := if (pitchClass <? 0)%Z then (pitchClass + 12)%Z else pitchClass in
  Z.to_nat normalizedPitchClass.

Definition calculateChroma (frequencyData : JS.Uint8Array) : list R :=
  let chroma :=
    fold_left
      (fun chroma i =>
         let frequency := binFrequency frequencyData i in
         let magnitude := bin frequencyData i / 255 in
         if JS.gtb frequency 80 && JS.ltb frequency 5000
         then addAt (pitchClassOf frequency) magnitude chroma
         else chroma)
      (seq 1 (length frequencyData - 1)) (repeat 0 12) in
  let sum := JS.sum chroma in
  if JS.gtb sum 0 then map (fun val => val / sum) chroma else chroma.

Definition calculateTonnetz (frequencyData : JS.Uint8Array) : list R :=
  let chroma := calculateChroma frequencyData in
  let majorThird := [1; 0; 0; 0; 1; 0; 0; 1; 0; 0; 0; 0] in
  let minorThird := [1; 0; 0; 1; 0; 0; 0; 1; 0; 0; 0; 0] in
  let perfectFifth := [1; 0; 0; 0; 0; 0; 0; 1; 0; 0; 0; 0] in
  [dotProduct chroma majorThird; dotProduct chroma minorThird;
   dotProduct chroma perfectFifth].

Definition isLikelyHarmonic (frequency : R) : bool :=
  let fundamentalFreqs := [82; 110; 147; 196; 247; 330; 440; 587; 784] in
  existsb
    (fun fundamental =>
       existsb
         (fun harmonic =>
            let harmonicFreq := fundamental * INR harmonic in
            JS.ltb (Rabs (frequency - harmonicFreq)) 10)
         (seq 1 8))
    fundamentalFreqs.

Definition calculateHarmonicRatio (frequencyData : JS.Uint8Array) : R :=
  let '(harmonicEnergy, totalEnergy) :=
    fold_left
      (fun '(harmonicEnergy, totalEnergy) i =>
         let magnitude := (bin frequencyData i / 255) ^ 2 in
         let frequency := binFrequency frequencyData i in
         ((if isLikelyHarmonic frequency then harmonicEnergy + magnitude
           else harmonicEnergy),
          totalEnergy + magnitude))
      (seq 0 (length frequencyData)) (0, 0) in
  if JS.gtb totalEnergy 0 then harmonicEnergy / totalEnergy else 0.

Definition calculatePercussiveRatio (a : t) (frequencyData : JS.Uint8Array)
    (beatData : BeatData.t) : R :=
  let spectralFlux := calculateSpectralFlux a frequencyData in
  let beatConfidence := JS.orElse (BeatData.confidence beatData) 0 in
  let startIdx :=
    Z.to_nat (Double.Math_floorZ (Double.ofNat (length frequencyData) * 0.7)%float) in
  let highFreqEnergy :=
    fold_left (fun highFreqEnergy i => highFreqEnergy + (bin frequencyData i / 255) ^ 2)
              (seq startIdx (length frequencyData - startIdx)) 0 in
  let normalizedHighFreq := highFreqEnergy / INR (length frequencyData - startIdx) in
  spectralFlux * 0.4 + beatConfidence * 0.4 + normalizedHighFreq * 0.2.

Definition analyzeAdvancedFeatures (a : t) (audioData : AudioAnalysisData.t)
    (beatData : BeatData.t) (timeData frequencyData : JS.Uint8Array)
    : t * AdvancedAudioFeatures.t :=
  let features :=
    AdvancedAudioFeatures.mk
      (calculateSpectralCentroid frequencyData)
      (calculateSpectralRolloff frequencyData 0.85)
      (calculateSpectralFlux a frequencyData)
      (calculateZeroCrossingRate timeData)
      (calculateMFCC frequencyData)
      (calculateChroma frequencyData)
      (calculateTonnetz frequencyData)
      (calculateHarmonicRatio frequencyData)
      (calculatePercussiveRatio a frequencyData beatData) in
  (mk (JS.pushCapped 1000 (analysisHistory a) features), features).

Definition getMajorKeyStrength (chroma : list R) : R :=
  let majorProfile := [1; 0; 1; 0; 1; 1; 0; 1; 0; 1; 0; 1] in
  dotProduct chroma majorProfile / JS.sum majorProfile.

Definition calculateValence (features : AdvancedAudioFeatures.t)
    (audioData : AudioAnalysisData.t) : R :=
  let majorKeyStrength := getMajorKeyStrength (chroma features) in
  let brightness := spectralCentroid features / 5000 in
  let harmonicity := harmonicRatio features in
  Rmin 1 (majorKeyStrength * 0.4 + brightness * 0.3 + harmonicity * 0.3).

Definition calculateDanceability (beatData : BeatData.t)
    (features : AdvancedAudioFeatures.t) : R :=
  let rhythmStrength := JS.orElse (BeatData.confidence beatData) 0.5 in
  let percussiveness := percussiveRatio features in
  let regularity := 1 - spectralFlux features in
  Rmin 1 (rhythmStrength * 0.5 + percussiveness * 0.3 + regularity * 0.2).

Definition calculateAcousticness (features : AdvancedAudioFeatures.t) : R :=
  let lowFreqBias := 1 - spectralCentroid features / 5000 in
  let harmonicity := harmonicRatio features in
  let naturalness := 1 - spectralFlux features in
  Rmin 1 (lowFreqBias * 0.4 + harmonicity * 0.4 + naturalness * 0.2).

(** Named [calculateVariance] in the code; it returns the square root. *)
Definition calculateVariance (array : list R) : R :=
  let mean := JS.sum array / INR (length array) in
  let variance :=
    fold_left (fun sum val => sum + (val - mean) ^ 2) array 0 / INR (length array) in
  sqrt variance.

Definition calculateInstrumentalness (features : AdvancedAudioFeatures.t) : R :=
  let lowZCR := 1 - zeroCrossingRate features in
  let mfccVariance := calculateVariance (mfcc features) in
  let consistency := 1 - mfccVariance in
  Rmin 1 (lowZCR * 0.6 + consistency * 0.4).

Definition detectMood (features : AdvancedAudioFeatures.t)
    (audioData : AudioAnalysisData.t) : Mood :=
  let energy :=
    (AudioAnalysisData.bass audioData + AudioAnalysisData.mid audioData
     + AudioAnalysisData.treble audioData) / 3 in
  let valence := calculateValence features audioData in
  let spectralCentroid := spectralCentroid features in
  if JS.gtb energy 0.7 && JS.gtb valence 0.6 then energetic
  else if JS.ltb energy 0.4 && JS.gtb valence 0.5 then calm
  else if JS.ltb valence 0.3 || JS.ltb spectralCentroid 1000 then dark
  else if JS.gtb valence 0.7 && JS.gtb spectralCentroid 2000 then uplifting
  else if JS.ltb energy 0.5 && JS.ltb valence 0.5 then mysterious
  else if JS.gtb valence 0.6 && JS.ltb energy 0.6 then romantic
  else if JS.gtb energy 0.8 && JS.gtb (percussiveRatio features) 0.7 then aggressive
  else calm.

Definition keys : list string :=
  ["C"; "C#"; "D"; "D#"; "E"; "F"; "F#"; "G"; "G#"; "A"; "A#"; "B"]%string.

Definition majorProfile : list R := [1; 0; 1; 0; 1; 1; 0; 1; 0; 1; 0; 1].

(** [[...majorProfile.slice(i), ...majorProfile.slice(0, i)]] *)
Definition rotatedProfile (i : nat) : list R :=
  skipn i majorProfile ++ firstn i majorProfile.

Definition detectKey (chroma : list R) : string :=
  let '(maxCorrelation, detectedKey) :=
    fold_left
      (fun '(maxCorrelation, detectedKey) i =>
         let correlation := dotProduct chroma (rotatedProfile i) in
         if JS.gtb correlation maxCorrelation
         then (correlation, nth i keys ""%string)
         else (maxCorrelation, detectedKey))
      (seq 0 12) (-1, "C"%string) in
  detectedKey.

Definition generateMusicCharacteristics (audioData : AudioAnalysisData.t)
    (beatData : BeatData.t) (advancedFeatures : AdvancedAudioFeatures.t)
    : MusicCharacteristics.t :=
  let genre := GenreClassifier.classify advancedFeatures audioData beatData in
  MusicCharacteristics.mk
    (JS.orElse (BeatData.tempo beatData) 120)
    ((AudioAnalysisData.bass audioData + AudioAnalysisData.mid audioData
      + AudioAnalysisData.treble audioData) / 3)
    (calculateValence advancedFeatures audioData)
    (calculateDanceability beatData advancedFeatures)
    (calculateAcousticness advancedFeatures)
    (calculateInstrumentalness advancedFeatures)
    (GenreClassification.primary genre)
    (detectMood advancedFeatures audioData)
    (if (BeatData.timeSignature beatData =? 0)%nat then 4%nat
     else BeatData.timeSignature beatData)
    (detectKey (chroma advancedFeatures)).

End AdvancedAudioAnalyzer.

(** ** One animation frame of the story mode

    [getAnalysisData], [analyze], [analyzeAdvancedFeatures] and
    [generateMusicCharacteristics] in the order the animation loop calls
    them.  The frontend and the detector each read the clock. *)

Module Pipeline.

Record t := mk {
  analyzer : AudioAnalyzer.t;
  beatDetector : AdvancedBeatDetector.t;
  advancedAnalyzer : AdvancedAudioAnalyzer.t
}.

Record Frame := mkFrame {
  clockFrontend : Z;
  clockDetector : Z;
  frequencyData : JS.Uint8Array;
  timeData : JS.Uint8Array
}.

Record Output := mkOutput {
  audioData : AudioAnalysisData.t;
  beatData : BeatData.t;
  advancedFeatures : AdvancedAudioFeatures.t;
  musicChars : MusicCharacteristics.t
}.

Definition new (contextSampleRate : R) : t :=
  mk (AudioAnalyzer.new contextSampleRate) AdvancedBeatDetector.newDefault
     AdvancedAudioAnalyzer.new.

Definition animate (p : t) (f : Frame) : t * Output :=
  let '(a1, analysisData) :=
    AudioAnalyzer.getAnalysisData (analyzer p) (clockFrontend f)
                                  (frequencyData f) (timeData f) in
  let '(d1, beatAnalysis) :=
    AdvancedBeatDetector.analyze (beatDetector p) (clockDetector f)
      (AudioAnalysisData.frequencyData analysisData)
      (AudioAnalysisData.timeData analysisData)
      (AudioAnalysisData.bass analysisData)
      (AudioAnalysisData.mid analysisData)
      (AudioAnalysisData.treble analysisData) in
  let '(x1, features) :=
    AdvancedAudioAnalyzer.analyzeAdvancedFeatures (advancedAnalyzer p)
      analysisData beatAnalysis
      (AudioAnalysisData.timeData analysisData)
      (AudioAnalysisData.frequencyData analysisData) in
  let chars :=
    AdvancedAudioAnalyzer.generateMusicCharacteristics analysisData beatAnalysis features in
  (mk a1 d1 x1, mkOutput analysisData beatAnalysis features chars).

Fixpoint run (p : t) (frames : list Frame) : t * list Output :=
  match frames with
  | [] => (p, [])
  | f :: frames' =>
      let '(p1, out) := animate p f in
      let '(p2, outs) := run p1 frames' in
      (p2, out :: outs)
  end.

End Pipeline.

(** ** Theme selection ([StoryThemeEngine], utils/storyThemeEngine.ts)

    The animation loop hands the music characteristics of each frame to
    [selectTheme].  A theme is kept with the fields the selection reads: its
    id, its moods and its tempo and energy ranges; the names, colours and
    narrative elements play no part in it.  The theme table is a [Map] filled
    by the constructor and iterated in insertion order: a list. *)

Definition Mood_eqb (a b : Mood) : bool :=
  match a, b with
  | energetic, energetic | calm, calm | dark, dark | uplifting, uplifting
  | mysterious, mysterious | romantic, romantic | aggressive, aggressive => true
  | _, _ => false
  end.

Module StoryTheme.
Record t := mk {
  id : string;
  mood : list Mood;
  tempoRange : R * R;
  energyRange : R * R
}.
End StoryTheme.

Module StoryThemeEngine.

Record t := mk {
  themes : list StoryTheme.t;
  currentTheme : option StoryTheme.t
}.

Definition spaceOdyssey : StoryTheme.t :=
  StoryTheme.mk "space-odyssey" [mysterious; uplifting; energetic] (80, 140) (0.4, 1.0).

Definition underwaterAdventure : StoryTheme.t :=
  StoryTheme.mk "underwater-adventure" [calm; mysterious; romantic] (60, 120) (0.2, 0.8).

(** The constructor: [initializeThemes] adds the two themes. *)
Definition new : t := mk [spaceOdyssey; underwaterAdventure] None.

Definition calculateThemeScore (theme : StoryTheme.t) (music : MusicCharacteristics.t) : R :=
  let score := 0 in
  let '(minTempo, maxTempo) := StoryTheme.tempoRange theme in
  let score :=
    if JS.geb (MusicCharacteristics.tempo music) minTempo
       && JS.leb (MusicCharacteristics.tempo music) maxTempo
    then score + 30
    else
      let tempoDistance :=
        Rmin (Rabs (MusicCharacteristics.tempo music - minTempo))
             (Rabs (MusicCharacteristics.tempo music - maxTempo)) in
      score + Rmax 0 (30 - tempoDistance / 10) in
  let '(minEnergy, maxEnergy) := StoryTheme.energyRange theme in
  let score :=
    if JS.geb (MusicCharacteristics.energy music) minEnergy
       && JS.leb (MusicCharacteristics.energy music) maxEnergy
    then score + 25
    else
      let energyDistance :=
        Rmin (Rabs (MusicCharacteristics.energy music - minEnergy))
             (Rabs (MusicCharacteristics.energy music - maxEnergy)) in
      score + Rmax 0 (25 - energyDistance * 50) in
  let score :=
    if existsb (Mood_eqb (MusicCharacteristics.mood music)) (StoryTheme.mood theme)
    then score + 35 else score in
  let score :=
    if String.eqb (MusicCharacteristics.genre music) "electronic"
       && String.eqb (StoryTheme.id theme) "space-odyssey"
    then score + 10 else score in
  let score :=
    if String.eqb (MusicCharacteristics.genre music) "ambient"
       && String.eqb (StoryTheme.id theme) "underwater-adventure"
    then score + 10 else score in
  let score :=
    if String.eqb (MusicCharacteristics.genre music) "folk"
       && String.eqb (StoryTheme.id theme) "forest-journey"
    then score + 10 else score in
  score.

(** The loop of [selectTheme]: the best theme so far and its score. *)
Definition bestOf (themes : list StoryTheme.t) (music : MusicCharacteristics.t)
    : option StoryTheme.t * R :=
  fold_left
    (fun '(bestTheme, bestScore) theme =>
       let score := calculateThemeScore theme music in
       if JS.gtb score bestScore then (Some theme, score) else (bestTheme, bestScore))
    themes (None, -1).

(** [selectTheme]; the result is [None] where the code returns [undefined]
    (no current theme and an empty table). *)
Definition selectTheme (e : t) (musicCharacteristics : MusicCharacteristics.t)
    : t * option StoryTheme.t :=
  let '(bestTheme, bestScore) := bestOf (themes e) musicCharacteristics in
  let currentTheme' :=
    match bestTheme with
    | Some theme => Some theme
    | None => currentTheme e
    end in
  (mk (themes e) currentTheme',
   match currentTheme' with
   | Some theme => Some theme
   | None => hd_error (themes e)
   end).

End StoryThemeEngine.

(** ** Progress of a scene transition ([NarrativeTransitionEngine])

    The active transition with the fields [updateActiveTransition] and
    [getEasedProgress] read and write. *)

Module NarrativeTransitionEngine.

Inductive Easing :=
| linear | easeIn | easeOut | easeInOut | bounce | elastic.

Record ActiveTransition := mkActiveTransition {
  easing : Easing;
  duration : R;
  progress : R;
  isActive : bool
}.

(** [startTransition] sets these four fields of the new transition. *)
Definition startTransition (easing : Easing) (effectDuration : R) : ActiveTransition :=
  mkActiveTransition easing effectDuration 0 true.

Definition updateActiveTransition (activeTransition : option ActiveTransition)
    (deltaTime : R) : option ActiveTransition :=
  match activeTransition with
  | None => None
  | Some a =>
      let progress' := progress a + deltaTime / duration a in
      if JS.geb progress' 1.0
      then Some (mkActiveTransition (easing a) (duration a) 1.0 false)
      else Some (mkActiveTransition (easing a) (duration a) progress' (isActive a))
  end.

Definition getTransitionProgress (activeTransition : option ActiveTransition) : R :=
  match activeTransition with
  | Some a => progress a
  | None => 0
  end.

(** In [7.5625 * (t -= c) * t + k] the assignment comes first: both factors
    are [t - c]. *)
Definition bounceEase (t : R) : R :=
  if JS.ltb t (1 / 2.75) then 7.5625 * t * t
  else if JS.ltb t (2 / 2.75) then
    let t := t - 1.5 / 2.75 in 7.5625 * t * t + 0.75
  else if JS.ltb t (2.5 / 2.75) then
    let t := t - 2.25 / 2.75 in 7.5625 * t * t + 0.9375
  else
    let t := t - 2.625 / 2.75 in 7.5625 * t * t + 0.984375.

Definition elasticEase (t : R) : R :=
  let c4 := (2 * PI) / 3 in
  if JS.eqb t 0 then 0
  else if JS.eqb t 1 then 1
  else JS.pow 2 (-10 * t) * sin ((t * 10 - 0.75) * c4) + 1.

Definition getEasedProgress (activeTransition : option ActiveTransition) : R :=
  match activeTransition with
  | None => 0
  | Some a =>
      let progress := progress a in
      match easing a with
      | easeIn => progress * progress
      | easeOut => 1 - (1 - progress) ^ 2
      | easeInOut =>
          if JS.ltb progress 0.5 then 2 * progress * progress
          else 1 - (-2 * progress + 2) ^ 2 / 2
      | bounce => bounceEase progress
      | elastic => elasticEase progress
      | linear => progress
      end
  end.

End NarrativeTransitionEngine.
(** ** The statistics the specification speaks of

    Written from the specification's words (mean, variance, "the last ten
    samples", consecutive intervals), to be compared with the reductions and
    index loops of the code. *)

Module Spec.

Definition total (l : list R) : R := fold_right Rplus 0 l.
Definition mean (l : list R) : R := total l / INR (length l).
Definition variance (l : list R) : R := mean (map (fun v => (v - mean l) ^ 2) l).
Definition lastn {A} (n : nat) (l : list A) : list A := rev (firstn n (rev l)).

(** Differences of neighbouring entries. *)
Fixpoint consecutive (ts : list Z) : list Z :=
  match ts with
  | a :: (b :: _) as rest => (b - a)%Z :: consecutive rest
  | _ => []
  end.

Definition clamp (lo hi x : R) : R := Rmax lo (Rmin hi x).

(** The tempo estimate over the reals: the intervals within 30 percent of
    the median averaged, the beats per minute and the smoothed value rounded
    to integers, the first estimate smoothed against itself.  [None] when no
    interval survives.  It serves the sessions over the reals; the estimate
    itself is stated in doubles, in [Float64.Spec]. *)
Definition tempoAmended (beatTimestamps : list Z) (tempoHistory : list R) : option R :=
  let intervals := consecutive beatTimestamps in
  let medianInterval := AdvancedBeatDetector.median intervals in
  let survivors :=
    filter (fun i => JS.ltb (Rabs (IZR i - medianInterval)) (0.3 * medianInterval))
           intervals in
  match survivors with
  | [] => None
  | _ =>
      let newTempo := JS.round (60000 / mean (map IZR survivors)) in
      let previousTempo := last tempoHistory newTempo in
      Some (clamp 60 200 (JS.round (0.9 * previousTempo + 0.1 * newTempo)))
  end.

(** The spectral flux in the specification's words: the sum, over the bins
    among the first 128, of [max(0, current[i] - previous.mfcc[i])], the
    baseline being 0 past the end of the MFCC vector.  [current] holds the
    magnitudes normalised to [0, 1]. *)
Definition normalized (frequencyData : JS.Uint8Array) : list R :=
  map (fun b => JS.byteval b / 255) frequencyData.

Definition fluxSum (current previousMfcc : list R) : R :=
  total (map (fun i => Rmax 0 (nth i current 0 - nth i previousMfcc 0))
             (seq 0 (Nat.min 128 (length current)))).

End Spec.


(** ** The beat detector in double precision

    Where [analyze] compares or rounds, the exact reals above and the IEEE
    754 doubles of the code can part at a tie: a bass level that equals 1.2
    times the mean over the reals lies above the product the code computes,
    and a quotient that is 112.5 over the reals is 112.49999999999999 in
    doubles and rounds down.  The onset decision and the tempo estimate are
    therefore stated over this second embedding of the class, in which a
    number is a binary64 float and every operation rounds as the code's
    does.  The millisecond clock and the beat time stamps stay integers:
    they are integers below 2^53, which doubles hold exactly. *)

Module Float64.


Module RhythmPattern.
Record t := mk { pattern : list bool; confidence : float; period : nat }.
End RhythmPattern.

Module BeatData.
Record t := mk {
  isBeat : bool;
  confidence : float;
  tempo : float;
  timeSignature : nat;
  beatPhase : float;
  intensity : float
}.
End BeatData.

Module AdvancedBeatDetector.

Import Double.
Local Open Scope float_scope.

Record t := mk {
  sampleRate : float;
  bufferSize : float;
  energyHistory : list float;
  beatHistory : list Z;
  tempoHistory : list float;
  lastBeatTime : Z;
  beatInterval : float;
  beatPhase : float;
  bassHistory : list float;
  midHistory : list float;
  trebleHistory : list float;
  rhythmPatterns : list RhythmPattern.t;
  patternBuffer : list bool
}.

Definition energyThreshold : float := 1.3.
Definition minBeatInterval : Z := 300.
Definition maxBeatInterval : Z := 2000.
Definition historySize : nat := 43.
Definition tempoSmoothingFactor : float := 0.9.

Definition new (sampleRate bufferSize : float) : t :=
  mk sampleRate bufferSize [] [] [] 0 0 0 [] [] [] [] [].
Definition newDefault : t := new 44100 1024.

Definition reset (d : t) : t :=
  mk (sampleRate d) (bufferSize d) [] [] [] 0 (beatInterval d) 0 [] [] [] [] [].

Definition calculateEnergy (frequencyData : JS.Uint8Array) : float :=
  let sum :=
    fold_left (fun sum b => sum + ofByte b * ofByte b) frequencyData 0 in
  PrimFloat.sqrt (sum / ofNat (length frequencyData)) / 255.

Definition updateFrequencyHistories (d : t) (bass mid treble : float) : t :=
  let maxHistory := 20%nat in
  mk (sampleRate d) (bufferSize d) (energyHistory d) (beatHistory d)
     (tempoHistory d) (lastBeatTime d) (beatInterval d) (beatPhase d)
     (JS.pushCapped maxHistory (bassHistory d) bass)
     (JS.pushCapped maxHistory (midHistory d) mid)
     (JS.pushCapped maxHistory (trebleHistory d) treble)
     (rhythmPatterns d) (patternBuffer d).

Definition pushEnergy (d : t) (energy : float) : t :=
  mk (sampleRate d) (bufferSize d)
     (JS.pushCapped historySize (energyHistory d) energy)
     (beatHistory d) (tempoHistory d) (lastBeatTime d) (beatInterval d)
     (beatPhase d) (bassHistory d) (midHistory d) (trebleHistory d)
     (rhythmPatterns d) (patternBuffer d).

(** The three criteria of [detectBeat], on the state as it is when the method
    runs (histories already pushed). *)
Definition localAverage (d : t) : float :=
  let recentEnergy := JS.sliceLast 10 (energyHistory d) in
  sum recentEnergy / ofNat (length recentEnergy).

Definition variance (d : t) : float :=
  let recentEnergy := JS.sliceLast 10 (energyHistory d) in
  fold_left (fun sum val => sum + Math_pow2 (val - localAverage d)) recentEnergy 0
  / ofNat (length recentEnergy).

Definition adaptiveThreshold (d : t) : float :=
  energyThreshold + PrimFloat.sqrt (variance d).
Definition energyRatio (d : t) (energy : float) : float :=
  energy / (localAverage d + 0.001).
Definition isEnergyBeat (d : t) (energy : float) : bool :=
  gtb (energyRatio d energy) (adaptiveThreshold d).
Definition isTimingValid (d : t) (currentTime : Z) : bool :=
  (minBeatInterval <=? currentTime - lastBeatTime d)%Z.
Definition bassAvg (d : t) : float :=
  sum (bassHistory d) / ofNat (length (bassHistory d)).
Definition isBassHit (d : t) : bool :=
  gtb (JS.lastOf nan (bassHistory d)) (bassAvg d * 1.2).

Definition detectBeat (d : t) (energy : float) (currentTime : Z) : t * (bool * float) :=
  if (length (energyHistory d) <? 10)%nat then (d, (false, 0))
  else
    let isBeat := isEnergyBeat d energy && isTimingValid d currentTime && isBassHit d in
    if isBeat then
      let confidence := Math_min 1 ((energyRatio d energy - 1) * 0.5) in
      (mk (sampleRate d) (bufferSize d) (energyHistory d)
          (JS.pushCapped 8 (beatHistory d) currentTime)
          (tempoHistory d) currentTime (beatInterval d) (beatPhase d)
          (bassHistory d) (midHistory d) (trebleHistory d)
          (rhythmPatterns d) (patternBuffer d),
       (true, confidence))
    else (d, (false, 0)).

Definition median (arr : list Z) : float :=
  let sorted := JS.sortAsc arr in
  let mid := (length sorted / 2)%nat in
  if (length sorted mod 2 =? 0)%nat
  then (at_ sorted (mid - 1) + at_ sorted mid) / 2
  else at_ sorted mid.

(** [for (let i = 1; i < beatHistory.length; i++)
       intervals.push(beatHistory[i] - beatHistory[i - 1])] *)
Definition intervalsOf (beatHistory : list Z) : list Z :=
  map (fun i => (nth i beatHistory 0 - nth (i - 1) beatHistory 0)%Z)
      (seq 1 (length beatHistory - 1)).

Definition validIntervalsOf (intervals : list Z) : list Z :=
  let medianInterval := median intervals in
  filter (fun interval =>
            ltb (PrimFloat.abs (ofZ interval - medianInterval)) (medianInterval * 0.3))
         intervals.

Definition lastTempoOr (d : t) (dflt : float) : float :=
  if (0 <? length (tempoHistory d))%nat then JS.lastOf nan (tempoHistory d) else dflt.

Definition calculateTempo (d : t) (currentTime : Z) (isBeat : bool) : t * float :=
  if negb isBeat || (length (beatHistory d) <? 2)%nat then (d, lastTempoOr d 120)
  else
    let intervals := intervalsOf (beatHistory d) in
    let validIntervals := validIntervalsOf intervals in
    if (length validIntervals =? 0)%nat then (d, 120)
    else
      let avgInterval :=
        sum (map ofZ validIntervals) / ofNat (length validIntervals) in
      let newTempo := Math_round (60000 / avgInterval) in
      let lastTempo := lastTempoOr d newTempo in
      let smoothedTempo :=
        Math_round (lastTempo * tempoSmoothingFactor
                    + newTempo * (1 - tempoSmoothingFactor)) in
      let finalTempo := Math_max 60 (Math_min 200 smoothedTempo) in
      (mk (sampleRate d) (bufferSize d) (energyHistory d) (beatHistory d)
          (JS.pushCapped 10 (tempoHistory d) finalTempo)
          (lastBeatTime d) (beatInterval d) (beatPhase d)
          (bassHistory d) (midHistory d) (trebleHistory d)
          (rhythmPatterns d) (patternBuffer d),
       finalTempo).

Definition setBeatPhase (d : t) (phase : float) : t :=
  mk (sampleRate d) (bufferSize d) (energyHistory d) (beatHistory d)
     (tempoHistory d) (lastBeatTime d) (beatInterval d) phase
     (bassHistory d) (midHistory d) (trebleHistory d)
     (rhythmPatterns d) (patternBuffer d).

Definition updateBeatPhase (d : t) (currentTime : Z) (tempo : float) : t :=
  if (lastBeatTime d =? 0)%Z then setBeatPhase d 0
  else
    let beatDuration := 60000 / tempo in
    let timeSinceLastBeat := ofZ (currentTime - lastBeatTime d) in
    setBeatPhase d (rem timeSinceLastBeat beatDuration / beatDuration).

(** [calculatePatternConfidence]: the outer loop visits
    [i = length, 2 * length, ...] while [i < patternBuffer.length - length]. *)
Definition patternOffsets (bufLen length : nat) : list nat :=
  filter (fun i => (i <? bufLen - length)%nat)
         (map (fun k => (k * length)%nat) (seq 1 bufLen)).

Definition calculatePatternConfidence (d : t) (pattern : list bool) (length : nat) : float :=
  let buf := patternBuffer d in
  if (List.length buf <? length * 3)%nat then 0
  else
    let '(matches, total) :=
      fold_left
        (fun acc i =>
           fold_left
             (fun '(matches, total) j =>
                ((if Bool.eqb (nth (i + j) buf false) (nth j pattern false)
                  then S matches else matches),
                 S total))
             (seq 0 length) acc)
        (patternOffsets (List.length buf) length) (0%nat, 0%nat) in
    if (0 <? total)%nat then ofNat matches / ofNat total else 0.

Definition patternsMatch (pattern1 pattern2 : list bool) : bool :=
  if negb (length pattern1 =? length pattern2)%nat then false
  else
    let matches :=
      fold_left
        (fun matches i =>
           if Bool.eqb (nth i pattern1 false) (nth i pattern2 false)
           then S matches else matches)
        (seq 0 (length pattern1)) 0%nat in
    gtb (ofNat matches / ofNat (length pattern1)) 0.8.

(** [rhythmPatterns.find(p => ...)] followed by the assignment to the found
    pattern's confidence: the first match is updated in place; [None] when
    nothing matches. *)
Fixpoint bumpFirstMatch (length : nat) (pattern : list bool)
    (ps : list RhythmPattern.t) : option (list RhythmPattern.t) :=
  match ps with
  | [] => None
  | p :: ps' =>
      if (RhythmPattern.period p =? length)%nat
         && patternsMatch (RhythmPattern.pattern p) pattern
      then Some (RhythmPattern.mk (RhythmPattern.pattern p)
                                  (Math_min 1 (RhythmPattern.confidence p + 0.1))
                                  (RhythmPattern.period p) :: ps')
      else option_map (cons p) (bumpFirstMatch length pattern ps')
  end.

(** [sort((a, b) => b.confidence - a.confidence)], stable: [p], which
    stands before the entries of [l], moves behind [q] only when the
    comparator is positive on [(p, q)]. *)
Fixpoint insertDesc (p : RhythmPattern.t) (l : list RhythmPattern.t) : list RhythmPattern.t :=
  match l with
  | [] => [p]
  | q :: l' =>
      if gtb (RhythmPattern.confidence q - RhythmPattern.confidence p) 0
      then q :: insertDesc p l' else p :: l
  end.
Definition sortDesc (l : list RhythmPattern.t) : list RhythmPattern.t :=
  fold_right insertDesc [] l.

Definition setRhythmPatterns (d : t) (ps : list RhythmPattern.t) : t :=
  mk (sampleRate d) (bufferSize d) (energyHistory d) (beatHistory d)
     (tempoHistory d) (lastBeatTime d) (beatInterval d) (beatPhase d)
     (bassHistory d) (midHistory d) (trebleHistory d) ps (patternBuffer d).

Definition analyzeRhythmPatterns (d : t) : t :=
  let patternLengths := [4; 8; 16]%nat in
  let d1 :=
    fold_left
      (fun d length =>
         if (List.length (patternBuffer d) <? length * 2)%nat then d
         else
           let pattern := JS.sliceLast length (patternBuffer d) in
           let confidence := calculatePatternConfidence d pattern length in
           if gtb confidence 0.6 then
             match bumpFirstMatch length pattern (rhythmPatterns d) with
             | Some ps => setRhythmPatterns d ps
             | None =>
                 setRhythmPatterns d
                   (JS.push (rhythmPatterns d)
                            (RhythmPattern.mk pattern confidence length))
             end
           else d)
      patternLengths d in
  let kept := filter (fun p => gtb (RhythmPattern.confidence p) 0.3) (rhythmPatterns d1) in
  if (5 <? length kept)%nat
  then setRhythmPatterns d1 (JS.sliceFirst 5 (sortDesc kept))
  else setRhythmPatterns d1 kept.

Definition updateRhythmPatterns (d : t) (isBeat : bool) : t :=
  let d1 :=
    mk (sampleRate d) (bufferSize d) (energyHistory d) (beatHistory d)
       (tempoHistory d) (lastBeatTime d) (beatInterval d) (beatPhase d)
       (bassHistory d) (midHistory d) (trebleHistory d) (rhythmPatterns d)
       (JS.pushCapped 32 (patternBuffer d) isBeat) in
  if (16 <=? length (patternBuffer d1))%nat
     && (length (patternBuffer d1) mod 16 =? 0)%nat
  then analyzeRhythmPatterns d1 else d1.

Definition estimateTimeSignature (d : t) : nat :=
  let strongPatterns :=
    filter (fun p => gtb (RhythmPattern.confidence p) 0.7) (rhythmPatterns d) in
  if (length strongPatterns =? 0)%nat then 4%nat
  else
    let periods := map RhythmPattern.period strongPatterns in
    let includes n := existsb (Nat.eqb n) periods in
    if includes 4%nat || includes 8%nat then 4%nat
    else if includes 3%nat || includes 6%nat then 3%nat
    else if includes 2%nat then 2%nat
    else 4%nat.

Definition calculateIntensity (bass mid treble energy : float) : float :=
  Math_min 1 ((bass * 0.4 + mid * 0.3 + treble * 0.2 + energy * 0.1) * 2).

(** [analyze]; [now] is the value [Date.now()] returns on this call. *)
Definition analyze (d : t) (now : Z) (frequencyData timeData : JS.Uint8Array)
    (bass mid treble : float) : t * BeatData.t :=
  let currentTime := now in
  let energy := calculateEnergy frequencyData in
  let d1 := updateFrequencyHistories d bass mid treble in
  let d2 := pushEnergy d1 energy in
  let '(d3, (isBeat, confidence)) := detectBeat d2 energy currentTime in
  let '(d4, tempo) := calculateTempo d3 currentTime isBeat in
  let d5 := updateBeatPhase d4 currentTime tempo in
  let d6 := updateRhythmPatterns d5 isBeat in
  let timeSignature := estimateTimeSignature d6 in
  (d6,
   BeatData.mk isBeat confidence tempo timeSignature (beatPhase d6)
               (calculateIntensity bass mid treble energy)).

(** One tick of input: the clock reading and the frame handed to [analyze]. *)
Record Tick := mkTick {
  now : Z;
  frequencyData : JS.Uint8Array;
  timeData : JS.Uint8Array;
  bass : float;
  mid : float;
  treble : float
}.

Definition step (d : t) (k : Tick) : t * BeatData.t :=
  analyze d (now k) (frequencyData k) (timeData k) (bass k) (mid k) (treble k).

(** A detector is used through its constructor, [analyze] and [reset]. *)
Inductive reachable : t -> Prop :=
| reach_new sampleRate bufferSize : reachable (new sampleRate bufferSize)
| reach_analyze d k : reachable d -> reachable (fst (step d k))
| reach_reset d : reachable d -> reachable (reset d).

(** [analyze] called once per tick, the outputs oldest first. *)
Fixpoint run (d : t) (ticks : list Tick) : t * list BeatData.t :=
  match ticks with
  | [] => (d, [])
  | k :: ticks' =>
      let '(d1, out) := step d k in
      let '(d2, outs) := run d1 ticks' in
      (d2, out :: outs)
  end.

End AdvancedBeatDetector.

(** *** The statistics of the specification, in doubles

    Written from the specification's words.  A sum is accumulated from 0 in
    the order of the samples; the median is taken from the samples sorted by
    insertion, as the middle entry or the mean of the two middle entries. *)

Module Spec.

Import Double.
Local Open Scope float_scope.

Definition total (l : list float) : float := fold_left PrimFloat.add l 0.
Definition mean (l : list float) : float := total l / ofNat (length l).
Definition variance (l : list float) : float :=
  mean (map (fun v => (v - mean l) * (v - mean l)) l).

(** Differences of neighbouring time stamps. *)
Fixpoint consecutive (ts : list Z) : list Z :=
  match ts with
  | a :: (b :: _) as rest => (b - a)%Z :: consecutive rest
  | _ => []
  end.

Fixpoint insert (x : Z) (sorted : list Z) : list Z :=
  match sorted with
  | [] => [x]
  | y :: rest => if (x <=? y)%Z then x :: sorted else y :: insert x rest
  end.
Definition sort (l : list Z) : list Z := fold_right insert [] l.

Definition median (l : list Z) : float :=
  match skipn ((length l - 1) / 2) (sort l) with
  | a :: b :: _ => if Nat.even (length l) then (ofZ a + ofZ b) / 2 else ofZ a
  | [a] => ofZ a
  | [] => nan
  end.

Definition clamp (lo hi x : float) : float := Math_max lo (Math_min hi x).

(** The tempo estimate as the specification words it: no rounding, and an
    interval is discarded when it deviates from the median by more than 30
    percent. *)
Definition tempoAsStated (beatTimestamps : list Z) (previousTempo : float) : float :=
  let intervals := consecutive beatTimestamps in
  let medianInterval := median intervals in
  let survivors :=
    filter (fun i => negb (gtb (PrimFloat.abs (ofZ i - medianInterval)) (0.3 * medianInterval)))
           intervals in
  let avgIntervalMs := mean (map ofZ survivors) in
  let newTempo := 60000 / avgIntervalMs in
  clamp 60 200 (0.9 * previousTempo + 0.1 * newTempo).

(** The same estimate with what the code adds: a survivor deviates by
    strictly less than 30 percent of the median, the beats per minute and the
    smoothed value are rounded to integers, the weight of the new tempo is
    [1 - 0.9] as the doubles give it, and the first estimate is smoothed
    against itself.  [None] when no interval survives. *)
Definition tempoAmended (beatTimestamps : list Z) (tempoHistory : list float)
    : option float :=
  let intervals := consecutive beatTimestamps in
  let medianInterval := median intervals in
  let survivors :=
    filter (fun i => ltb (PrimFloat.abs (ofZ i - medianInterval)) (medianInterval * 0.3))
           intervals in
  match survivors with
  | [] => None
  | _ =>
      let newTempo := Math_round (60000 / mean (map ofZ survivors)) in
      let previousTempo := last tempoHistory newTempo in
      Some (clamp 60 200 (Math_round (previousTempo * 0.9 + newTempo * (1 - 0.9))))
  end.

End Spec.

End Float64.

(** ** Notions used by the statements

    States of the detector, predicates on its output, the frames and
    sessions on which the theorems are checked, and the claims in the
    wording of the specification where that differs from the code. *)

Section BeatNotions.

Import AdvancedBeatDetector.

(** Two detector states that differ at most in [rhythmPatterns]. *)
Definition samePlain (d d' : t) : Prop :=
  d' = setRhythmPatterns d (rhythmPatterns d').

(** The detector as [detectBeat] finds it: band levels and energy pushed. *)
Definition prepared (d : t) (bass mid treble energy : R) : t :=
  pushEnergy (updateFrequencyHistories d bass mid treble) energy.

(** Clock readings of the ticks on which a beat was accepted, oldest first. *)
Definition acceptedBeats (outs : list (Z * BeatData.t)) : list Z :=
  map fst (filter (fun o => BeatData.isBeat (snd o)) outs).

Definition tempoInRange (x : R) : Prop := 60 <= x <= 200.

(** What a detector state must satisfy for the next tick, read at clock [t]:
    the stored tempi are clamped, and the last accepted beat, if any, is not
    in the future. *)
Definition wellFormed (d : t) (clock : Z) : Prop :=
  Forall tempoInRange (tempoHistory d) /\
  (lastBeatTime d = 0%Z \/ (lastBeatTime d <= clock)%Z).

Definition inRanges (out : BeatData.t) : Prop :=
  0 <= BeatData.confidence out <= 1 /\
  0 <= BeatData.beatPhase out < 1 /\
  60 <= BeatData.tempo out <= 200.

(** The fields of the detector that decide beats and tempo. *)
Record Essence := mkEssence {
  eEnergy : list R;
  eBass : list R;
  eLast : Z;
  eBeats : list Z;
  eTempi : list R
}.

Definition essence (d : t) : Essence :=
  mkEssence (energyHistory d) (bassHistory d) (lastBeatTime d)
            (beatHistory d) (tempoHistory d).

Definition silentEssence (E : Essence) : Essence :=
  mkEssence (JS.pushCapped 43 (eEnergy E) 0) (JS.pushCapped 20 (eBass E) 0)
            (eLast E) (eBeats E) (eTempi E).

End BeatNotions.

Definition quietFrame : JS.Uint8Array := repeat x00 1024.

Definition loudFrame : JS.Uint8Array := repeat xff 1024.

Definition flatWave : JS.Uint8Array := repeat x80 1024.

Arguments quietFrame : simpl never.
Arguments loudFrame : simpl never.
Arguments flatWave : simpl never.

Definition silentTick (clock : Z) : AdvancedBeatDetector.Tick :=
  AdvancedBeatDetector.mkTick clock quietFrame flatWave 0 0 0.

Definition loudTick (clock : Z) : AdvancedBeatDetector.Tick :=
  AdvancedBeatDetector.mkTick clock loudFrame flatWave 1 0 0.

Definition warmup : list AdvancedBeatDetector.Tick :=
  map silentTick [100; 200; 300; 400; 500; 600; 700; 800; 900]%Z.

Definition session : list AdvancedBeatDetector.Tick :=
  warmup ++ map loudTick [1000; 1700; 2400]%Z.

(** The detector along the session.  The states are sealed: they are known
    through their defining equations only, so that no conversion ever runs
    the detector on them. *)
Lemma seal {A : Type} (x : A) : {y : A | y = x}.
Proof. exists x. reflexivity. Qed.

Definition afterWarmup : AdvancedBeatDetector.t :=
  proj1_sig (seal (fst (AdvancedBeatDetector.run AdvancedBeatDetector.newDefault warmup))).

Definition afterBeat1 : AdvancedBeatDetector.t :=
  proj1_sig (seal (fst (AdvancedBeatDetector.step afterWarmup (loudTick 1000)))).

Definition afterBeat2 : AdvancedBeatDetector.t :=
  proj1_sig (seal (fst (AdvancedBeatDetector.step afterBeat1 (loudTick 1700)))).

Definition afterBeat3 : AdvancedBeatDetector.t :=
  proj1_sig (seal (fst (AdvancedBeatDetector.step afterBeat2 (loudTick 2400)))).

Section AnalyzerNotions.

Import AdvancedAudioAnalyzer.

Definition zeros (n : nat) : JS.Uint8Array := repeat x00 n.

Definition silentFrame (n : nat) (clocks : Z * Z) : Pipeline.Frame :=
  Pipeline.mkFrame (fst clocks) (snd clocks) (zeros n) (zeros n).

Definition silentFrames (n : nat) (clocks : list (Z * Z)) : list Pipeline.Frame :=
  map (silentFrame n) clocks.

(** C6 as stated, for a run of silent frames. *)
Definition silenceAsClaimed (p : Pipeline.t) (n : nat) (clocks : list (Z * Z)) : Prop :=
  Forall (fun out =>
            BeatData.isBeat (Pipeline.beatData out) = false /\
            BeatData.tempo (Pipeline.beatData out)
            = last (AdvancedBeatDetector.tempoHistory (Pipeline.beatDetector p)) 120 /\
            MusicCharacteristics.energy (Pipeline.musicChars out) = 0 /\
            MusicCharacteristics.mood (Pipeline.musicChars out) = calm)
         (snd (Pipeline.run p (silentFrames n clocks))).

(** A hundred clock readings, 16 ms apart. *)
Definition hundredClocks : list (Z * Z) :=
  map (fun i => (Z.of_nat (16 * i), Z.of_nat (16 * i))) (seq 1 100).

(** C8 as stated, for two consecutive frames of the pipeline. *)
Definition fluxAsClaimed (p : Pipeline.t) (f1 f2 : Pipeline.Frame) : Prop :=
  let o1 := snd (Pipeline.animate p f1) in
  let p1 := fst (Pipeline.animate p f1) in
  let o2 := snd (Pipeline.animate p1 f2) in
  AdvancedAudioFeatures.spectralFlux (Pipeline.advancedFeatures o2)
  = Spec.fluxSum (Spec.normalized (Pipeline.frequencyData f2))
                 (AdvancedAudioFeatures.mfcc (Pipeline.advancedFeatures o1)).

Definition characteristicsInRange (m : MusicCharacteristics.t) : Prop :=
  0 <= MusicCharacteristics.energy m <= 1 /\
  0 <= MusicCharacteristics.valence m <= 1 /\
  0 <= MusicCharacteristics.danceability m <= 1 /\
  0 <= MusicCharacteristics.acousticness m <= 1 /\
  0 <= MusicCharacteristics.instrumentalness m <= 1.

(** A spectrum with all its energy in the top bin. *)
Definition trebleOnly (n : nat) : JS.Uint8Array := zeros n ++ [xff].

(** The frame of 1024 bins whose only energy is in bin 1023, about 22 kHz. *)
Definition trebleFrame : Pipeline.Frame :=
  Pipeline.mkFrame 16 16 (trebleOnly 1023) flatWave.

(** One round of the loop of [detectKey]. *)
Definition keyStep (chroma : list R) (acc : R * string) (i : nat) : R * string :=
  let '(maxCorrelation, detectedKey) := acc in
  let correlation := dotProduct chroma (rotatedProfile i) in
  if JS.gtb correlation maxCorrelation
  then (correlation, nth i keys ""%string)
  else (maxCorrelation, detectedKey).

(** A spectrum of [n] bins with full magnitude in the bins [peaks] and none
    elsewhere. *)
Definition spectrumOf (peaks : list nat) (n : nat) : JS.Uint8Array :=
  map (fun i => if existsb (Nat.eqb i) peaks then xff else x00) (seq 0 n).

(** 2205 bins are 10 Hz apart at 44.1 kHz; the bins 44, 88, 132, 176 and 220
    hold the partials 1 to 5 of A4 (440 Hz): A, A, E, A, C sharp. *)
Definition aMajorPeaks : list nat := [44; 88; 132; 176; 220]%nat.

Definition aMajorSpectrum : JS.Uint8Array := spectrumOf aMajorPeaks 2205.

End AnalyzerNotions.

(** ** Invariants of a detector in use *)

Section DetectorInvariants.

Import AdvancedBeatDetector.

(** The capacities of the histories: [historySize], [maxHistory] and the
    literal caps of [detectBeat], [calculateTempo], [updateRhythmPatterns]
    and [analyzeRhythmPatterns]. *)
Definition withinCaps (d : t) : Prop :=
  (length (energyHistory d) <= 43)%nat /\
  (length (bassHistory d) <= 20)%nat /\
  (length (midHistory d) <= 20)%nat /\
  (length (trebleHistory d) <= 20)%nat /\
  (length (beatHistory d) <= 8)%nat /\
  (length (tempoHistory d) <= 10)%nat /\
  (length (patternBuffer d) <= 32)%nat /\
  (length (rhythmPatterns d) <= 5)%nat.

(** What every stored rhythm pattern satisfies. *)
Definition storedPattern (p : RhythmPattern.t) : Prop :=
  (RhythmPattern.period p = 4%nat \/ RhythmPattern.period p = 8%nat) /\
  length (RhythmPattern.pattern p) = RhythmPattern.period p /\
  0.3 < RhythmPattern.confidence p <= 1.

(** Time stamps at least [minBeatInterval] apart, the newest being
    [lastBeatTime]. *)
Definition stampsOk (d : t) : Prop :=
  StronglySorted (fun earlier later => (later - earlier >= minBeatInterval)%Z)
                 (beatHistory d) /\
  (beatHistory d = [] \/ last (beatHistory d) 0%Z = lastBeatTime d).

End DetectorInvariants.

(** ** The frontend over a sequence of frames *)

Section FrontendNotions.

(** One [getAnalysisData] call: the clock reading and the two arrays the
    analyser node delivers. *)
Record FrontendFrame := mkFrontendFrame {
  frontendClock : Z;
  frontendFrequencyData : JS.Uint8Array;
  frontendTimeData : JS.Uint8Array
}.

Fixpoint frontendRun (a : AudioAnalyzer.t) (frames : list FrontendFrame)
    : AudioAnalyzer.t * list (Z * AudioAnalysisData.t) :=
  match frames with
  | [] => (a, [])
  | f :: frames' =>
      let '(a1, out) :=
        AudioAnalyzer.getAnalysisData a (frontendClock f)
          (frontendFrequencyData f) (frontendTimeData f) in
      let '(a2, outs) := frontendRun a1 frames' in
      (a2, (frontendClock f, out) :: outs)
  end.

(** Clock readings of the frames the frontend flagged as beats. *)
Definition frontendBeats (outs : list (Z * AudioAnalysisData.t)) : list Z :=
  map fst (filter (fun o => AudioAnalysisData.beat (snd o)) outs).

End FrontendNotions.

(** ** Sessions of the detector in double precision *)

Section DoubleNotions.

Import Float64.AdvancedBeatDetector.

(** Frames of four bins: silence and full scale. *)
Definition quietBins : JS.Uint8Array := [x00; x00; x00; x00].
Definition loudBins : JS.Uint8Array := [xff; xff; xff; xff].
Definition flatBins : JS.Uint8Array := [x80; x80; x80; x80].

Definition quietTick (bass : float) (clock : Z) : Tick :=
  mkTick clock quietBins flatBins bass 0%float 0%float.
Definition fullTick (bass : float) (clock : Z) : Tick :=
  mkTick clock loudBins flatBins bass 0%float 0%float.

(** Eleven silent frames with a bass level of 0.5625.  A twelfth level of
    0.6875 is 1.2 times the mean of the twelve over the reals; the product
    the doubles give is 0.68749999999999989. *)
Definition tieDetector : t :=
  fst (run newDefault
         (map (quietTick 0.5625%float)
              [100; 200; 300; 400; 500; 600; 700; 800; 900; 1000; 1100]%Z)).

(** Nine silent frames, then full-scale frames accepted as beats at 1000,
    1556 and 2078 ms.  With a fourth beat at 2600 ms the kept intervals
    average 1600/3 ms, and 60000 over that is 112.5 over the reals,
    112.49999999999999 in doubles. *)
Definition threeBeats : t :=
  fst (run newDefault
         (map (quietTick 0%float) [100; 200; 300; 400; 500; 600; 700; 800; 900]%Z
          ++ map (fullTick 1%float) [1000; 1556; 2078]%Z)).

(** C3 as the specification words it, for one [analyze] call. *)
Definition tempoAsWorded (d : t) (k : Tick) : Prop :=
  let out := snd (step d k) in
  let d' := fst (step d k) in
  Float64.BeatData.isBeat out = true -> (2 <= length (beatHistory d'))%nat ->
  Float64.BeatData.tempo out
  = Float64.Spec.tempoAsStated (beatHistory d') (last (tempoHistory d) 120%float).

End DoubleNotions.
(** ** Basic facts about the JavaScript layer *)

(** Evaluate the array helpers on a literal array. *)
Ltac js_eval :=
  unfold JS.sum, JS.sliceLast, JS.sliceFirst, JS.pushCapped, JS.push, JS.shift,
    JS.lastOf, JS.byteval; simpl.

Section JSFacts.

Lemma ltb_true_iff x y : JS.ltb x y = true <-> x < y.
Proof. unfold JS.ltb. destruct (Rlt_dec x y); split; intros; try easy. Qed.

Lemma ltb_false_iff x y : JS.ltb x y = false <-> y <= x.
Proof.
  unfold JS.ltb. destruct (Rlt_dec x y); split; intros; try easy; lra.
Qed.

Lemma gtb_true_iff x y : JS.gtb x y = true <-> x > y.
Proof. unfold JS.gtb. rewrite ltb_true_iff. lra. Qed.

Lemma gtb_false_iff x y : JS.gtb x y = false <-> x <= y.
Proof. unfold JS.gtb. rewrite ltb_false_iff. lra. Qed.

Lemma leb_true_iff x y : JS.leb x y = true <-> x <= y.
Proof. unfold JS.leb. destruct (Rle_dec x y); split; intros; try easy. Qed.

Lemma fold_plus_shift (l : list R) (a : R) :
  fold_left (fun sum val => sum + val) l a = a + Spec.total l.
Proof.
  revert a. induction l as [|x l IH]; intros a; simpl.
  - lra.
  - rewrite IH. unfold Spec.total. simpl. lra.
Qed.

Lemma sum_total (l : list R) : JS.sum l = Spec.total l.
Proof. unfold JS.sum. rewrite fold_plus_shift. lra. Qed.

Lemma fold_plus_map_shift {A} (f : A -> R) (l : list A) (a : R) :
  fold_left (fun sum val => sum + f val) l a = a + Spec.total (map f l).
Proof.
  revert a. induction l as [|x l IH]; intros a; simpl.
  - lra.
  - rewrite IH. unfold Spec.total. simpl. lra.
Qed.

Lemma sliceLast_lastn {A} (n : nat) (l : list A) :
  JS.sliceLast n l = Spec.lastn n l.
Proof.
  unfold JS.sliceLast, Spec.lastn.
  rewrite firstn_rev, rev_involutive. reflexivity.
Qed.

Lemma lastOf_last {A} (d : A) (l : list A) : JS.lastOf d l = last l d.
Proof.
  unfold JS.lastOf. induction l as [|x l IH]; [reflexivity|].
  destruct l as [|y l]; [reflexivity|].
  simpl length in *. replace (S (S (length l)) - 1)%nat with (S (length l)) by lia.
  replace (S (length l) - 1)%nat with (length l) in IH by lia.
  change (nth (length l) (y :: l) d = last (y :: l) d). exact IH.
Qed.

Lemma total_nonneg (l : list R) : Forall (fun x => 0 <= x) l -> 0 <= Spec.total l.
Proof.
  induction 1 as [|x l Hx _ IH]; unfold Spec.total in *; simpl; lra.
Qed.

Lemma mean_nonneg (l : list R) : Forall (fun x => 0 <= x) l -> 0 <= Spec.mean l.
Proof.
  intros H. unfold Spec.mean.
  destruct l as [|x l].
  - simpl. unfold Spec.total. simpl. lra.
  - apply Rmult_le_pos; [now apply total_nonneg|].
    apply Rlt_le, Rinv_0_lt_compat, lt_0_INR. simpl. lia.
Qed.

End JSFacts.

(** ** Which fields each method of the detector touches *)

Section Frames.

Import AdvancedBeatDetector.


Lemma samePlain_refl d : samePlain d d.
Proof. unfold samePlain. now destruct d. Qed.

Lemma samePlain_set d d' ps : samePlain d d' -> samePlain d (setRhythmPatterns d' ps).
Proof. unfold samePlain. intros ->. reflexivity. Qed.

Lemma patternStep_samePlain d0 (lengths : list nat) :
  forall d, samePlain d0 d ->
  samePlain d0
    (fold_left
      (fun d length =>
         if (List.length (patternBuffer d) <? length * 2)%nat then d
         else
           let pattern := JS.sliceLast length (patternBuffer d) in
           let confidence := calculatePatternConfidence d pattern length in
           if JS.gtb confidence 0.6 then
             match bumpFirstMatch length pattern (rhythmPatterns d) with
             | Some ps => setRhythmPatterns d ps
             | None =>
                 setRhythmPatterns d
                   (JS.push (rhythmPatterns d)
                            (RhythmPattern.mk pattern confidence length))
             end
           else d)
      lengths d).
Proof.
  induction lengths as [|n lengths IH]; intros d Hd; simpl; [exact Hd|].
  apply IH.
  destruct (_ <? _)%nat; [exact Hd|]. cbv zeta.
  destruct (JS.gtb _ _); [|exact Hd].
  destruct (bumpFirstMatch _ _ _); now apply samePlain_set.
Qed.

Lemma analyzeRhythmPatterns_samePlain d : samePlain d (analyzeRhythmPatterns d).
Proof.
  unfold analyzeRhythmPatterns. cbv zeta.
  destruct (5 <? _)%nat; apply samePlain_set, patternStep_samePlain, samePlain_refl.
Qed.

(** [updateRhythmPatterns] pushes into [patternBuffer] and may rewrite
    [rhythmPatterns]; nothing else changes. *)
Lemma updateRhythmPatterns_frame d isBeat :
  exists ps,
    updateRhythmPatterns d isBeat =
    mk (sampleRate d) (bufferSize d) (energyHistory d) (beatHistory d)
       (tempoHistory d) (lastBeatTime d) (beatInterval d) (beatPhase d)
       (bassHistory d) (midHistory d) (trebleHistory d) ps
       (JS.pushCapped 32 (patternBuffer d) isBeat).
Proof.
  unfold updateRhythmPatterns. cbv zeta.
  destruct (_ && _).
  - eexists. pose proof (analyzeRhythmPatterns_samePlain
      (mk (sampleRate d) (bufferSize d) (energyHistory d) (beatHistory d)
          (tempoHistory d) (lastBeatTime d) (beatInterval d) (beatPhase d)
          (bassHistory d) (midHistory d) (trebleHistory d) (rhythmPatterns d)
          (JS.pushCapped 32 (patternBuffer d) isBeat))) as H.
    unfold samePlain in H. rewrite H. reflexivity.
  - eexists. reflexivity.
Qed.

(** The state [analyze] leaves behind, field by field. *)
Lemma analyze_frame d now fd td bass mid treble :
  let energy := calculateEnergy fd in
  let p := pushEnergy (updateFrequencyHistories d bass mid treble) energy in
  let d3 := fst (detectBeat p energy now) in
  let isBeat := fst (snd (detectBeat p energy now)) in
  let d4 := fst (calculateTempo d3 now isBeat) in
  let tempo := snd (calculateTempo d3 now isBeat) in
  let d' := fst (analyze d now fd td bass mid treble) in
  let out := snd (analyze d now fd td bass mid treble) in
  sampleRate d' = sampleRate d /\ bufferSize d' = bufferSize d /\
  beatInterval d' = beatInterval d /\
  energyHistory d' = JS.pushCapped historySize (energyHistory d) energy /\
  bassHistory d' = JS.pushCapped 20 (bassHistory d) bass /\
  midHistory d' = JS.pushCapped 20 (midHistory d) mid /\
  trebleHistory d' = JS.pushCapped 20 (trebleHistory d) treble /\
  beatHistory d' = beatHistory d3 /\
  lastBeatTime d' = lastBeatTime d3 /\
  tempoHistory d' = tempoHistory d4 /\
  patternBuffer d' = JS.pushCapped 32 (patternBuffer d) isBeat /\
  beatPhase d' = beatPhase (updateBeatPhase d4 now tempo) /\
  BeatData.isBeat out = isBeat /\
  BeatData.tempo out = tempo /\
  BeatData.beatPhase out = beatPhase d' /\
  BeatData.timeSignature out = estimateTimeSignature d' /\
  BeatData.intensity out = calculateIntensity bass mid treble energy.
Proof.
  unfold analyze. cbv zeta.
  set (energy := calculateEnergy fd).
  set (p := pushEnergy _ energy).
  assert (Hd3 : sampleRate (fst (detectBeat p energy now)) = sampleRate d /\
                bufferSize (fst (detectBeat p energy now)) = bufferSize d /\
                beatInterval (fst (detectBeat p energy now)) = beatInterval d /\
                energyHistory (fst (detectBeat p energy now))
                = JS.pushCapped historySize (energyHistory d) energy /\
                bassHistory (fst (detectBeat p energy now))
                = JS.pushCapped 20 (bassHistory d) bass /\
                midHistory (fst (detectBeat p energy now))
                = JS.pushCapped 20 (midHistory d) mid /\
                trebleHistory (fst (detectBeat p energy now))
                = JS.pushCapped 20 (trebleHistory d) treble /\
                patternBuffer (fst (detectBeat p energy now)) = patternBuffer d).
  { unfold detectBeat.
    destruct (_ <? 10)%nat; [simpl; tauto|].
    destruct (_ && _); simpl; tauto. }
  destruct (detectBeat p energy now) as [d3 [ib c]]. simpl fst in *. simpl snd.
  assert (Hd4 : sampleRate (fst (calculateTempo d3 now ib)) = sampleRate d3 /\
                bufferSize (fst (calculateTempo d3 now ib)) = bufferSize d3 /\
                beatInterval (fst (calculateTempo d3 now ib)) = beatInterval d3 /\
                energyHistory (fst (calculateTempo d3 now ib)) = energyHistory d3 /\
                bassHistory (fst (calculateTempo d3 now ib)) = bassHistory d3 /\
                midHistory (fst (calculateTempo d3 now ib)) = midHistory d3 /\
                trebleHistory (fst (calculateTempo d3 now ib)) = trebleHistory d3 /\
                patternBuffer (fst (calculateTempo d3 now ib)) = patternBuffer d3 /\
                beatHistory (fst (calculateTempo d3 now ib)) = beatHistory d3 /\
                lastBeatTime (fst (calculateTempo d3 now ib)) = lastBeatTime d3).
  { unfold calculateTempo.
    destruct (_ || _); [simpl; tauto|]. cbv zeta.
    destruct (_ =? 0)%nat; simpl; tauto. }
  destruct (calculateTempo d3 now ib) as [d4 tp]. simpl fst in *. simpl snd.
  assert (Hd5 : forall d5, d5 = updateBeatPhase d4 now tp ->
                sampleRate d5 = sampleRate d4 /\
                bufferSize d5 = bufferSize d4 /\
                beatInterval d5 = beatInterval d4 /\
                energyHistory d5 = energyHistory d4 /\
                bassHistory d5 = bassHistory d4 /\
                midHistory d5 = midHistory d4 /\
                trebleHistory d5 = trebleHistory d4 /\
                patternBuffer d5 = patternBuffer d4 /\
                beatHistory d5 = beatHistory d4 /\
                lastBeatTime d5 = lastBeatTime d4 /\
                tempoHistory d5 = tempoHistory d4).
  { intros d5 ->. unfold updateBeatPhase.
    destruct (_ =? 0)%Z; simpl; tauto. }
  specialize (Hd5 _ eq_refl).
  destruct (updateRhythmPatterns_frame (updateBeatPhase d4 now tp) ib) as [ps ->].
  simpl.
  destruct Hd3 as (?&?&?&?&?&?&?&?), Hd4 as (?&?&?&?&?&?&?&?&?&?),
    Hd5 as (?&?&?&?&?&?&?&?&?&?&?).
  repeat split; congruence.
Qed.

End Frames.

(** ** The onset decision of [analyze] *)

Section OnsetDecision.

Import AdvancedBeatDetector.


Lemma analyze_detectBeat d now fd td bass mid treble :
  let energy := calculateEnergy fd in
  let r := snd (detectBeat (prepared d bass mid treble energy) energy now) in
  BeatData.isBeat (snd (analyze d now fd td bass mid treble)) = fst r /\
  BeatData.confidence (snd (analyze d now fd td bass mid treble)) = snd r.
Proof.
  unfold analyze, prepared. cbv zeta.
  destruct (detectBeat _ _ _) as [d3 [ib c]].
  destruct (calculateTempo _ _ _) as [d4 tp]. simpl. auto.
Qed.

Lemma detectBeat_cold d energy now :
  (length (energyHistory d) < 10)%nat ->
  detectBeat d energy now = (d, (false, 0)).
Proof.
  intros H. unfold detectBeat.
  apply Nat.ltb_lt in H. now rewrite H.
Qed.

Lemma detectBeat_warm d energy now :
  (10 <= length (energyHistory d))%nat ->
  fst (snd (detectBeat d energy now))
  = isEnergyBeat d energy && isTimingValid d now && isBassHit d.
Proof.
  intros H. unfold detectBeat.
  apply Nat.ltb_ge in H. rewrite H.
  destruct (isEnergyBeat d energy && isTimingValid d now && isBassHit d); reflexivity.
Qed.

Lemma localAverage_mean d :
  localAverage d = Spec.mean (Spec.lastn 10 (energyHistory d)).
Proof.
  unfold localAverage, Spec.mean. now rewrite sliceLast_lastn, sum_total.
Qed.

Lemma variance_spec d :
  variance d = Spec.variance (Spec.lastn 10 (energyHistory d)).
Proof.
  unfold variance, Spec.variance. rewrite localAverage_mean, sliceLast_lastn.
  unfold Spec.mean at 2. rewrite length_map.
  now rewrite fold_plus_map_shift, Rplus_0_l.
Qed.

Lemma bassAvg_mean d : bassAvg d = Spec.mean (bassHistory d).
Proof. unfold bassAvg, Spec.mean. now rewrite sum_total. Qed.

(** On an accepted beat the confidence is [min(1, (ratio - 1) * 0.5)]. *)
Lemma detectBeat_accept d energy now :
  fst (snd (detectBeat d energy now)) = true ->
  snd (snd (detectBeat d energy now)) = Rmin 1 ((energyRatio d energy - 1) * 0.5)
  /\ isEnergyBeat d energy = true
  /\ isTimingValid d now = true
  /\ lastBeatTime (fst (detectBeat d energy now)) = now
  /\ tempoHistory (fst (detectBeat d energy now)) = tempoHistory d.
Proof.
  unfold detectBeat.
  destruct (length (energyHistory d) <? 10)%nat; [discriminate|].
  destruct (isEnergyBeat d energy) eqn:E1; [|discriminate].
  destruct (isTimingValid d now) eqn:E2; [|discriminate].
  destruct (isBassHit d) eqn:E3; [|discriminate]. simpl. auto.
Qed.

Lemma detectBeat_reject d energy now :
  fst (snd (detectBeat d energy now)) = false ->
  detectBeat d energy now = (d, (false, 0)).
Proof.
  unfold detectBeat.
  destruct (length (energyHistory d) <? 10)%nat; [reflexivity|].
  destruct (isEnergyBeat d energy && isTimingValid d now && isBassHit d);
    [discriminate|reflexivity].
Qed.

Lemma adaptiveThreshold_ge d : energyThreshold <= adaptiveThreshold d.
Proof.
  unfold adaptiveThreshold. pose proof (sqrt_pos (variance d)). lra.
Qed.

Lemma accepted_confidence d energy now :
  fst (snd (detectBeat d energy now)) = true ->
  0.15 < snd (snd (detectBeat d energy now)) <= 1.
Proof.
  intros H. destruct (detectBeat_accept _ _ _ H) as (-> & He & _).
  unfold isEnergyBeat in He. apply gtb_true_iff in He.
  pose proof (adaptiveThreshold_ge d) as Ht. unfold energyThreshold in Ht.
  split.
  - apply Rmin_glb_lt; lra.
  - apply Rmin_l.
Qed.

(** C10: whenever [analyze] reports a beat, its confidence lies in (0.15, 1]:
    the energy ratio exceeded the adaptive threshold, which is at least 1.3,
    so [(ratio - 1) * 0.5] exceeds 0.15, and [Math.min] caps it at 1. *)
Theorem accepted_beat_confidence (d : t) (now : Z) (fd td : JS.Uint8Array)
    (bass mid treble : R) :
  BeatData.isBeat (snd (analyze d now fd td bass mid treble)) = true ->
  0.15 < BeatData.confidence (snd (analyze d now fd td bass mid treble)) <= 1.
Proof.
  destruct (analyze_detectBeat d now fd td bass mid treble) as [Hb Hc].
  cbv zeta in Hb, Hc. rewrite Hb, Hc. apply accepted_confidence.
Qed.

End OnsetDecision.

(** ** Reset *)

Section Reset.

Import AdvancedBeatDetector.

Lemma reachable_beatInterval d : reachable d -> beatInterval d = 0.
Proof.
  induction 1 as [sr bs | d k _ IH | d _ IH]; simpl; auto.
  unfold step.
  destruct (analyze_frame d (now k) (frequencyData k) (timeData k)
              (bass k) (mid k) (treble k)) as (_ & _ & H & _).
  cbv zeta in H. now rewrite H.
Qed.

Lemma reset_new d : reachable d -> reset d = new (sampleRate d) (bufferSize d).
Proof.
  intros H. unfold reset, new. now rewrite (reachable_beatInterval d H).
Qed.

Lemma analyze_cold_start sr bs now fd td bass mid treble :
  snd (analyze (new sr bs) now fd td bass mid treble)
  = BeatData.mk false 0 120 4 0
      (calculateIntensity bass mid treble (calculateEnergy fd)).
Proof. reflexivity. Qed.

(** C9: [reset()] twice is [reset()] once; after [reset()] the detector is in
    the state of a freshly constructed one (same constructor arguments), and
    the next frame yields the cold-start output: no beat, confidence 0,
    tempo 120, signature 4, phase 0. *)
Theorem reset_idempotent_cold_start (d : t) (now : Z) (fd td : JS.Uint8Array)
    (bass mid treble : R) :
  reachable d ->
  reset (reset d) = reset d /\
  reset d = new (sampleRate d) (bufferSize d) /\
  snd (analyze (reset d) now fd td bass mid treble)
  = snd (analyze (new (sampleRate d) (bufferSize d)) now fd td bass mid treble) /\
  snd (analyze (reset d) now fd td bass mid treble)
  = BeatData.mk false 0 120 4 0
      (calculateIntensity bass mid treble (calculateEnergy fd)).
Proof.
  intros Hr. split; [reflexivity|].
  rewrite (reset_new d Hr). split; [reflexivity|]. split; [reflexivity|].
  apply analyze_cold_start.
Qed.

End Reset.

(** ** The timing gate over a run *)

Section TimingGate.

Import AdvancedBeatDetector.


Lemma analyze_lastBeatTime d now fd td bass mid treble :
  let d' := fst (analyze d now fd td bass mid treble) in
  let out := snd (analyze d now fd td bass mid treble) in
  (BeatData.isBeat out = true ->
     lastBeatTime d' = now /\ (now - lastBeatTime d >= 300)%Z) /\
  (BeatData.isBeat out = false -> lastBeatTime d' = lastBeatTime d).
Proof.
  destruct (analyze_frame d now fd td bass mid treble)
    as (_&_&_&_&_&_&_&_& Hl &_&_&_& Hb &_).
  cbv zeta in *. rewrite Hl, Hb. clear Hl Hb.
  set (energy := calculateEnergy fd).
  set (p := pushEnergy _ energy).
  split; intros H.
  - destruct (detectBeat_accept _ _ _ H) as (_ & _ & Ht & Hn & _).
    split; [exact Hn|].
    unfold isTimingValid, minBeatInterval in Ht. apply Z.leb_le in Ht.
    change (lastBeatTime p) with (lastBeatTime d) in Ht. lia.
  - now rewrite (detectBeat_reject _ _ _ H).
Qed.

Lemma run_gate (ticks : list Tick) :
  forall d,
    Forall (fun b => (b - lastBeatTime d >= 300)%Z) (acceptedBeats (snd (run d ticks)))
    /\ StronglySorted (fun a b => (b - a >= 300)%Z) (acceptedBeats (snd (run d ticks))).
Proof.
  induction ticks as [|k ticks IH]; intros d; simpl.
  - split; constructor.
  - destruct (analyze_lastBeatTime d (now k) (frequencyData k) (timeData k)
                (bass k) (mid k) (treble k)) as [Hacc Hrej].
    cbv zeta in Hacc, Hrej. fold (step d k) in Hacc, Hrej.
    destruct (step d k) as [d1 out]. simpl fst in *. simpl snd in *.
    destruct (IH d1) as [Hall Hsorted].
    destruct (run d1 ticks) as [d2 outs]. simpl snd in *.
    unfold acceptedBeats in *. simpl.
    destruct (BeatData.isBeat out) eqn:Hb; simpl.
    + destruct (Hacc eq_refl) as [Hlast Hgap]. rewrite Hlast in Hall.
      split.
      * constructor; [exact Hgap|].
        eapply Forall_impl; [|exact Hall]. simpl. intros b Hb'. lia.
      * constructor; assumption.
    + rewrite (Hrej eq_refl) in Hall. now split.
Qed.

(** C2: over any sequence of [analyze] calls on one detector, the clock
    readings of two distinct accepted beats differ by at least 300 ms: every
    later accepted beat lies at least [minBeatInterval] after every earlier
    one.  (A beat is accepted only 300 ms or more after [lastBeatTime], which
    an accepted beat sets to its own reading, so the property holds for every
    clock, in particular for a non-decreasing one.) *)
Theorem timing_gate (d : t) (ticks : list Tick) :
  StronglySorted (fun earlier later => (later - earlier >= minBeatInterval)%Z)
                 (acceptedBeats (snd (run d ticks))).
Proof. exact (proj2 (run_gate ticks d)). Qed.

End TimingGate.

(** ** Range invariants of the beat data *)

Section Ranges.

Import AdvancedBeatDetector.

Lemma rem_bounds x b : 0 <= x -> 0 < b -> 0 <= JS.rem x b < b.
Proof.
  intros Hx Hb. unfold JS.rem, JS.truncZ.
  assert (Hq : 0 <= x / b) by (apply Rmult_le_pos; [lra|]; apply Rlt_le, Rinv_0_lt_compat, Hb).
  destruct (Rlt_dec (x / b) 0) as [Hneg|_]; [lra|].
  pose proof (Zfloor_bound (x / b)) as [Hlo Hhi].
  assert (Hx' : x = b * (x / b)) by (field; lra).
  assert (H1 : b * IZR (Zfloor (x / b)) <= b * (x / b))
    by (apply Rmult_le_compat_l; lra).
  assert (H2 : b * (x / b) < b * (IZR (Zfloor (x / b)) + 1))
    by (apply Rmult_lt_compat_l; lra).
  rewrite <- Hx' in H1, H2. lra.
Qed.


Lemma Forall_pushCapped {A} (P : A -> Prop) cap (l : list A) (x : A) :
  Forall P l -> P x -> Forall P (JS.pushCapped cap l x).
Proof.
  intros Hl Hx. unfold JS.pushCapped, JS.push, JS.shift. cbv zeta.
  assert (H : Forall P (l ++ [x])) by (apply Forall_app; auto).
  destruct (_ <? _)%nat; [|exact H].
  destruct (l ++ [x]); [constructor|]. simpl. now inversion H.
Qed.

Lemma Forall_lastOf {A} (P : A -> Prop) (d : A) (l : list A) :
  Forall P l -> (0 < length l)%nat -> P (JS.lastOf d l).
Proof.
  intros Hl Hlen. unfold JS.lastOf.
  rewrite Forall_forall in Hl. apply Hl, nth_In. lia.
Qed.

Lemma lastTempoOr_range d dflt :
  Forall tempoInRange (tempoHistory d) -> tempoInRange dflt ->
  tempoInRange (lastTempoOr d dflt).
Proof.
  intros Hh Hd. unfold lastTempoOr.
  destruct (0 <? length (tempoHistory d))%nat eqn:E; [|exact Hd].
  apply Nat.ltb_lt in E. now apply Forall_lastOf.
Qed.

Lemma clamp_range x : tempoInRange (Rmax 60 (Rmin 200 x)).
Proof.
  unfold tempoInRange. split.
  - apply Rmax_l.
  - apply Rmax_lub; [lra|apply Rmin_l].
Qed.

Lemma calculateTempo_range d now isBeat :
  Forall tempoInRange (tempoHistory d) ->
  tempoInRange (snd (calculateTempo d now isBeat)) /\
  Forall tempoInRange (tempoHistory (fst (calculateTempo d now isBeat))).
Proof.
  intros Hh. unfold calculateTempo.
  destruct (_ || _).
  - simpl. split; [|exact Hh]. apply lastTempoOr_range; [exact Hh|].
    unfold tempoInRange; lra.
  - cbv zeta. destruct (_ =? 0)%nat; simpl.
    + split; [unfold tempoInRange; lra|exact Hh].
    + split; [apply clamp_range|].
      apply Forall_pushCapped; [exact Hh|apply clamp_range].
Qed.



Lemma wellFormed_new sr bs clock : wellFormed (new sr bs) clock.
Proof. split; simpl; [constructor|now left]. Qed.

Lemma wellFormed_reset d clock : wellFormed (reset d) clock.
Proof. split; simpl; [constructor|now left]. Qed.

Lemma updateBeatPhase_range d now tempo :
  tempoInRange tempo ->
  (lastBeatTime d = 0%Z \/ (lastBeatTime d <= now)%Z) ->
  0 <= beatPhase (updateBeatPhase d now tempo) < 1.
Proof.
  intros [Hlo Hhi] Hlast. unfold updateBeatPhase.
  destruct (lastBeatTime d =? 0)%Z eqn:E; simpl; [lra|].
  apply Z.eqb_neq in E. destruct Hlast as [H0|Hle]; [contradiction|].
  assert (Hd : 0 < 60000 / tempo)
    by (apply Rmult_lt_0_compat; [lra|apply Rinv_0_lt_compat; lra]).
  assert (Hx : 0 <= IZR (now - lastBeatTime d)) by (apply IZR_le; lia).
  destruct (rem_bounds _ _ Hx Hd) as [Hr0 Hr1].
  split.
  - apply Rmult_le_pos; [exact Hr0|apply Rlt_le, Rinv_0_lt_compat, Hd].
  - apply Rmult_lt_reg_r with (60000 / tempo); [exact Hd|].
    unfold Rdiv at 1. rewrite Rmult_assoc, Rinv_l by lra. lra.
Qed.

Lemma analyze_ranges d clock now fd td bass mid treble :
  wellFormed d clock -> (clock <= now)%Z ->
  inRanges (snd (analyze d now fd td bass mid treble)) /\
  wellFormed (fst (analyze d now fd td bass mid treble)) now.
Proof.
  intros [Htempo Hlast] Hclock.
  destruct (analyze_frame d now fd td bass mid treble)
    as (_&_&_&_&_&_&_&_& Hl & Hth &_& Hph & Hb & Htp & Hbp &_).
  destruct (analyze_detectBeat d now fd td bass mid treble) as [_ Hc].
  destruct (analyze_lastBeatTime d now fd td bass mid treble) as [Hacc Hrej].
  cbv zeta in *. unfold prepared in Hc.
  set (energy := calculateEnergy fd) in *.
  set (p := pushEnergy _ energy) in *.
  set (r := detectBeat p energy now) in *.
  assert (Ht3 : tempoHistory (fst r) = tempoHistory d).
  { subst r. destruct (fst (snd (detectBeat p energy now))) eqn:E.
    - now destruct (detectBeat_accept _ _ _ E) as (_&_&_&_&->).
    - now rewrite (detectBeat_reject _ _ _ E). }
  assert (Ht3' : Forall tempoInRange (tempoHistory (fst r))) by now rewrite Ht3.
  destruct (calculateTempo_range (fst r) now (fst (snd r)) Ht3') as [Hrange Hhist].
  assert (Hlast' : lastBeatTime (fst (analyze d now fd td bass mid treble)) = 0%Z \/
                   (lastBeatTime (fst (analyze d now fd td bass mid treble)) <= now)%Z).
  { destruct (BeatData.isBeat (snd (analyze d now fd td bass mid treble))) eqn:E.
    - destruct (Hacc eq_refl) as [-> _]. right. lia.
    - rewrite (Hrej eq_refl). destruct Hlast; [now left|right; lia]. }
  split; [split; [|split]|split].
  - rewrite Hc. destruct (fst (snd r)) eqn:E.
    + subst r. pose proof (accepted_confidence _ _ _ E). lra.
    + subst r. rewrite (detectBeat_reject _ _ _ E). simpl. lra.
  - rewrite Hbp, Hph. apply updateBeatPhase_range; [exact Hrange|].
    assert (Hk : lastBeatTime (fst (calculateTempo (fst r) now (fst (snd r))))
                 = lastBeatTime (fst r)).
    { unfold calculateTempo. destruct (_ || _); [reflexivity|]. cbv zeta.
      destruct (_ =? 0)%nat; reflexivity. }
    rewrite Hk, <- Hl. exact Hlast'.
  - rewrite Htp. exact Hrange.
  - rewrite Hth. exact Hhist.
  - exact Hlast'.
Qed.

Lemma run_ranges (ticks : list Tick) :
  forall d clock,
    wellFormed d clock -> nondecreasing (clock :: map now ticks) ->
    Forall (fun o => inRanges (snd o)) (snd (run d ticks)).
Proof.
  induction ticks as [|k ticks IH]; intros d clock Hwf Hmono; simpl.
  - constructor.
  - simpl in Hmono. destruct Hmono as [Hle Hrest].
    destruct (analyze_ranges d clock (now k) (frequencyData k) (timeData k)
                (bass k) (mid k) (treble k) Hwf Hle) as [Hout Hwf'].
    fold (step d k) in Hout, Hwf'.
    destruct (step d k) as [d1 out]. simpl fst in *. simpl snd in *.
    specialize (IH d1 (now k) Hwf' Hrest).
    destruct (run d1 ticks) as [d2 outs]. simpl in *.
    constructor; assumption.
Qed.

(** C4: on every [analyze] call of a detector driven from construction by a
    non-decreasing clock, the returned beat data has its confidence in
    [0, 1], its beat phase in [0, 1) and its tempo in [60, 200]. *)
Theorem range_invariants (sr bs : R) (ticks : list Tick) :
  nondecreasing (map now ticks) ->
  Forall (fun o => 0 <= BeatData.confidence (snd o) <= 1 /\
                   0 <= BeatData.beatPhase (snd o) < 1 /\
                   60 <= BeatData.tempo (snd o) <= 200)
         (snd (run (new sr bs) ticks)).
Proof.
  intros Hmono.
  destruct ticks as [|k ticks]; [constructor|].
  apply (run_ranges (k :: ticks) (new sr bs) (now k)).
  - apply wellFormed_new.
  - simpl. split; [lia|exact Hmono].
Qed.

End Ranges.

(** ** The tempo estimate *)

Section Tempo.

Import AdvancedBeatDetector.

Lemma intervalsOf_consecutive (stamps : list Z) :
  intervalsOf stamps = Spec.consecutive stamps.
Proof.
  unfold intervalsOf.
  induction stamps as [|a stamps IH]; [reflexivity|].
  destruct stamps as [|b stamps]; [reflexivity|].
  change (Spec.consecutive (a :: b :: stamps))
    with ((b - a)%Z :: Spec.consecutive (b :: stamps)).
  rewrite <- IH. simpl length.
  replace (S (S (length stamps)) - 1)%nat with (S (length stamps)) by lia.
  replace (S (length stamps) - 1)%nat with (length stamps) by lia.
  change (seq 1 (S (length stamps))) with (1%nat :: seq 2 (length stamps)).
  rewrite map_cons. f_equal.
  rewrite <- (seq_shift (length stamps) 1), map_map.
  apply map_ext_in. intros i Hi. apply in_seq in Hi.
  destruct i as [|i]; [lia|]. simpl. now rewrite Nat.sub_0_r.
Qed.

Lemma pushCapped_lastn {A} (cap : nat) (h : list A) (x : A) :
  (length h <= cap)%nat ->
  JS.pushCapped cap h x = Spec.lastn cap (h ++ [x]).
Proof.
  intros Hlen. rewrite <- sliceLast_lastn.
  unfold JS.pushCapped, JS.push, JS.shift, JS.sliceLast. cbv zeta.
  rewrite length_app. simpl length.
  destruct (cap <? length h + 1)%nat eqn:E.
  - apply Nat.ltb_lt in E. replace (length h + 1 - cap)%nat with 1%nat by lia.
    reflexivity.
  - apply Nat.ltb_ge in E. replace (length h + 1 - cap)%nat with 0%nat by lia.
    reflexivity.
Qed.

Lemma last_nonempty {A} (l : list A) (d1 d2 : A) :
  l <> [] -> last l d1 = last l d2.
Proof.
  induction l as [|x l IH]; [easy|]. intros _.
  destruct l as [|y l]; [reflexivity|].
  change (last (y :: l) d1 = last (y :: l) d2). now apply IH.
Qed.

Lemma lastTempoOr_last d dflt : lastTempoOr d dflt = last (tempoHistory d) dflt.
Proof.
  unfold lastTempoOr. destruct (tempoHistory d) as [|x h] eqn:E; [reflexivity|].
  change (0 <? length (x :: h))%nat with true. cbv iota.
  rewrite lastOf_last. apply last_nonempty. discriminate.
Qed.

(** The estimate of [calculateTempo] in terms of the time stamps and the
    tempo history it reads. *)
Lemma calculateTempo_amended d now :
  (2 <= length (beatHistory d))%nat ->
  (length (tempoHistory d) <= 10)%nat ->
  match Spec.tempoAmended (beatHistory d) (tempoHistory d) with
  | None =>
      calculateTempo d now true = (d, 120)
  | Some final =>
      snd (calculateTempo d now true) = final /\
      tempoHistory (fst (calculateTempo d now true))
      = Spec.lastn 10 (tempoHistory d ++ [final])
  end.
Proof.
  intros Hlen Hcap. unfold calculateTempo, Spec.tempoAmended, validIntervalsOf.
  apply Nat.ltb_ge in Hlen. rewrite Hlen. simpl orb. cbv iota zeta.
  rewrite intervalsOf_consecutive.
  set (m := median (Spec.consecutive (beatHistory d))).
  rewrite (filter_ext (fun interval => JS.ltb (Rabs (IZR interval - m)) (m * 0.3))
                      (fun i => JS.ltb (Rabs (IZR i - m)) (0.3 * m)))
    by (intros i; now rewrite Rmult_comm).
  set (survivors := filter _ (Spec.consecutive (beatHistory d))).
  destruct survivors as [|i rest]; [reflexivity|].
  change (length (i :: rest) =? 0)%nat with false. cbv iota.
  rewrite lastTempoOr_last, sum_total.
  replace (length (i :: rest)) with (length (map IZR (i :: rest)))
    by apply length_map.
  fold (Spec.mean (map IZR (i :: rest))).
  unfold tempoSmoothingFactor, Spec.clamp. simpl fst. simpl snd.
  set (newTempo := JS.round (60000 / _)).
  replace (last (tempoHistory d) newTempo * 0.9 + newTempo * (1 - 0.9))
    with (0.9 * last (tempoHistory d) newTempo + 0.1 * newTempo) by lra.
  split; [reflexivity|].
  simpl tempoHistory. now apply pushCapped_lastn.
Qed.

Lemma calculateTempo_hold d now isBeat :
  isBeat = false \/ (length (beatHistory d) < 2)%nat ->
  calculateTempo d now isBeat = (d, last (tempoHistory d) 120).
Proof.
  intros H. unfold calculateTempo. rewrite lastTempoOr_last.
  destruct H as [->|H]; [reflexivity|].
  apply Nat.ltb_lt in H. rewrite H. now rewrite orb_true_r.
Qed.

Lemma analyze_beatHistory d now fd td bass mid treble :
  let d' := fst (analyze d now fd td bass mid treble) in
  let out := snd (analyze d now fd td bass mid treble) in
  beatHistory d' =
    (if BeatData.isBeat out then JS.pushCapped 8 (beatHistory d) now
     else beatHistory d) /\
  lastBeatTime d' = (if BeatData.isBeat out then now else lastBeatTime d).
Proof.
  destruct (analyze_frame d now fd td bass mid treble)
    as (_&_&_&_&_&_&_& Hbh & Hl &_&_&_& Hb &_).
  cbv zeta in *. rewrite Hbh, Hl, Hb. clear.
  set (energy := calculateEnergy fd).
  set (p := pushEnergy _ energy).
  unfold detectBeat.
  destruct (_ <? 10)%nat; [simpl; auto|].
  destruct (_ && _); simpl; auto.
Qed.

Lemma detectBeat_tempoHistory d energy now :
  tempoHistory (fst (detectBeat d energy now)) = tempoHistory d /\
  beatHistory (fst (detectBeat d energy now))
  = (if fst (snd (detectBeat d energy now))
     then JS.pushCapped 8 (beatHistory d) now else beatHistory d).
Proof.
  unfold detectBeat.
  destruct (_ <? 10)%nat; [simpl; auto|].
  destruct (_ && _); simpl; auto.
Qed.

(** The tempo an [analyze] call reports and the tempo history it leaves. *)
Lemma analyze_tempo_hold d now fd td bass mid treble :
  let out := snd (analyze d now fd td bass mid treble) in
  let d' := fst (analyze d now fd td bass mid treble) in
  BeatData.isBeat out = false \/ (length (beatHistory d') < 2)%nat ->
  BeatData.tempo out = last (tempoHistory d) 120 /\
  tempoHistory d' = tempoHistory d.
Proof.
  intros out d'. subst out d'.
  destruct (analyze_frame d now fd td bass mid treble)
    as (_&_&_&_&_&_&_& Hbh &_& Hth &_&_& Hb & Htp &_).
  cbv zeta in *. rewrite Hbh, Hth, Hb, Htp. clear Hbh Hth Hb Htp.
  set (energy := calculateEnergy fd).
  set (p := pushEnergy _ energy).
  destruct (detectBeat_tempoHistory p energy now) as [Ht3 _].
  change (tempoHistory p) with (tempoHistory d) in Ht3.
  intros H. rewrite (calculateTempo_hold _ now _ H). simpl.
  now rewrite Ht3.
Qed.

Lemma analyze_tempo_estimate d now fd td bass mid treble :
  let out := snd (analyze d now fd td bass mid treble) in
  let d' := fst (analyze d now fd td bass mid treble) in
  (length (tempoHistory d) <= 10)%nat ->
  BeatData.isBeat out = true -> (2 <= length (beatHistory d'))%nat ->
  match Spec.tempoAmended (beatHistory d') (tempoHistory d) with
  | None => BeatData.tempo out = 120 /\ tempoHistory d' = tempoHistory d
  | Some final =>
      BeatData.tempo out = final /\
      tempoHistory d' = Spec.lastn 10 (tempoHistory d ++ [final])
  end.
Proof.
  intros out d' Hcap. subst out d'.
  destruct (analyze_frame d now fd td bass mid treble)
    as (_&_&_&_&_&_&_& Hbh &_& Hth &_&_& Hb & Htp &_).
  cbv zeta in *. rewrite Hbh, Hth, Hb, Htp. clear Hbh Hth Hb Htp.
  set (energy := calculateEnergy fd).
  set (p := pushEnergy _ energy).
  destruct (detectBeat_tempoHistory p energy now) as [Ht3 _].
  change (tempoHistory p) with (tempoHistory d) in Ht3.
  set (d3 := fst (detectBeat p energy now)) in *.
  intros Hib Hlen. rewrite Hib.
  pose proof (calculateTempo_amended d3 now Hlen) as H.
  rewrite Ht3 in H. specialize (H Hcap).
  destruct (Spec.tempoAmended (beatHistory d3) (tempoHistory d)).
  - exact H.
  - rewrite H. simpl. auto.
Qed.

End Tempo.

(** ** A session with three accepted beats

    Nine silent ticks fill the energy window, then three loud frames with a
    bass hit arrive 700 ms apart.  Each of them is accepted. *)





Section Session.

Import AdvancedBeatDetector.

Lemma fold_squares_repeat (b : byte) (n : nat) (a : R) :
  fold_left (fun sum b => sum + JS.byteval b * JS.byteval b) (repeat b n) a
  = a + INR n * (JS.byteval b * JS.byteval b).
Proof.
  revert a. induction n as [|n IH]; intros a.
  - simpl. lra.
  - change (repeat b (S n)) with (b :: repeat b n). cbn [fold_left].
    rewrite IH, S_INR. lra.
Qed.

Lemma byteval_nonneg (b : byte) : 0 <= JS.byteval b.
Proof. unfold JS.byteval. apply IZR_le, N2Z.is_nonneg. Qed.

Lemma calculateEnergy_repeat (b : byte) (n : nat) :
  (0 < n)%nat -> calculateEnergy (repeat b n) = JS.byteval b / 255.
Proof.
  intros Hn. unfold calculateEnergy. cbv zeta.
  rewrite fold_squares_repeat, repeat_length.
  assert (Hn' : INR n <> 0) by (apply not_0_INR; lia).
  replace ((0 + INR n * (JS.byteval b * JS.byteval b)) / INR n)
    with (Rsqr (JS.byteval b)) by (unfold Rsqr; field; exact Hn').
  now rewrite sqrt_Rsqr by apply byteval_nonneg.
Qed.

Lemma calculateEnergy_zeros (n : nat) : calculateEnergy (repeat x00 n) = 0.
Proof.
  unfold calculateEnergy. cbv zeta. rewrite fold_squares_repeat, repeat_length.
  replace ((0 + INR n * (JS.byteval x00 * JS.byteval x00)) / INR n) with 0
    by (unfold JS.byteval; cbn [Byte.to_N Z.of_N]; unfold Rdiv; ring).
  rewrite sqrt_0. lra.
Qed.

Lemma sqrt_le_one v : v <= 1 -> sqrt v <= 1.
Proof.
  intros H. destruct (Rle_dec 0 v) as [H0|H0].
  - rewrite <- sqrt_1. apply sqrt_le_1; lra.
  - rewrite sqrt_neg_0; lra.
Qed.

(** The decision of [analyze] as one boolean, over the pushed histories. *)
Lemma analyze_isBeat d now fd td bass mid treble :
  let energy := calculateEnergy fd in
  let energies := JS.pushCapped 43 (energyHistory d) energy in
  let basses := JS.pushCapped 20 (bassHistory d) bass in
  let recent := Spec.lastn 10 energies in
  BeatData.isBeat (snd (analyze d now fd td bass mid treble))
  = negb (length energies <? 10)%nat
    && (JS.gtb (energy / (Spec.mean recent + 0.001))
               (1.3 + sqrt (Spec.variance recent))
        && (300 <=? now - lastBeatTime d)%Z
        && JS.gtb (last basses 0) (Spec.mean basses * 1.2)).
Proof.
  intros energy energies basses recent.
  destruct (analyze_detectBeat d now fd td bass mid treble) as [Hb _].
  cbv zeta in Hb. rewrite Hb. fold energy.
  set (p := prepared d bass mid treble energy).
  change energies with (energyHistory p).
  destruct (length (energyHistory p) <? 10)%nat eqn:E.
  - apply Nat.ltb_lt in E. now rewrite detectBeat_cold.
  - apply Nat.ltb_ge in E. rewrite detectBeat_warm by exact E.
    unfold isEnergyBeat, isTimingValid, isBassHit, energyRatio, adaptiveThreshold,
      energyThreshold, minBeatInterval.
    now rewrite localAverage_mean, variance_spec, bassAvg_mean, lastOf_last.
Qed.

Lemma zero_energy_no_beat d now fd td bass mid treble :
  calculateEnergy fd = 0 ->
  BeatData.isBeat (snd (analyze d now fd td bass mid treble)) = false.
Proof.
  intros He. rewrite analyze_isBeat. cbv zeta. rewrite He.
  apply andb_false_intro2, andb_false_intro1, andb_false_intro1.
  apply gtb_false_iff.
  pose proof (sqrt_pos (Spec.variance
    (Spec.lastn 10 (JS.pushCapped 43 (energyHistory d) 0)))).
  unfold Rdiv. rewrite Rmult_0_l. lra.
Qed.



Lemma loudTick_energy clock : calculateEnergy (frequencyData (loudTick clock)) = 1.
Proof.
  change (frequencyData (loudTick clock)) with (repeat xff 1024).
  rewrite calculateEnergy_repeat by lia. unfold JS.byteval. cbn [Byte.to_N Z.of_N]. lra.
Qed.

Lemma silentTick_energy clock : calculateEnergy (frequencyData (silentTick clock)) = 0.
Proof. exact (calculateEnergy_zeros 1024). Qed.

Lemma analyze_histories d now fd td bass mid treble :
  let d' := fst (analyze d now fd td bass mid treble) in
  energyHistory d' = JS.pushCapped 43 (energyHistory d) (calculateEnergy fd) /\
  bassHistory d' = JS.pushCapped 20 (bassHistory d) bass.
Proof.
  destruct (analyze_frame d now fd td bass mid treble) as (_&_&_& He & Hbs &_).
  cbv zeta in *. now split.
Qed.

(** A tick without a beat: the histories grow, the rest stays. *)
Lemma step_reject d k :
  BeatData.isBeat (snd (step d k)) = false ->
  BeatData.tempo (snd (step d k)) = last (tempoHistory d) 120 /\
  essence (fst (step d k))
  = mkEssence (JS.pushCapped 43 (energyHistory d) (calculateEnergy (frequencyData k)))
              (JS.pushCapped 20 (bassHistory d) (bass k))
              (lastBeatTime d) (beatHistory d) (tempoHistory d).
Proof.
  unfold step. intros Hb.
  destruct (analyze_histories d (now k) (frequencyData k) (timeData k)
              (bass k) (mid k) (treble k)) as [He Hbs].
  destruct (analyze_beatHistory d (now k) (frequencyData k) (timeData k)
              (bass k) (mid k) (treble k)) as [Hbh Hl].
  destruct (analyze_tempo_hold d (now k) (frequencyData k) (timeData k)
              (bass k) (mid k) (treble k) (or_introl Hb)) as [Htp Hth].
  cbv zeta in *. rewrite Hb in Hbh, Hl.
  split; [exact Htp|].
  unfold essence. now rewrite He, Hbs, Hbh, Hl, Hth.
Qed.

(** A tick with a beat: the clock reading becomes the last beat and joins the
    time stamps. *)
Lemma step_accept d k :
  BeatData.isBeat (snd (step d k)) = true ->
  energyHistory (fst (step d k))
  = JS.pushCapped 43 (energyHistory d) (calculateEnergy (frequencyData k)) /\
  bassHistory (fst (step d k)) = JS.pushCapped 20 (bassHistory d) (bass k) /\
  lastBeatTime (fst (step d k)) = now k /\
  beatHistory (fst (step d k)) = JS.pushCapped 8 (beatHistory d) (now k).
Proof.
  unfold step. intros Hb.
  destruct (analyze_histories d (now k) (frequencyData k) (timeData k)
              (bass k) (mid k) (treble k)) as [He Hbs].
  destruct (analyze_beatHistory d (now k) (frequencyData k) (timeData k)
              (bass k) (mid k) (treble k)) as [Hbh Hl].
  cbv zeta in *. rewrite Hb in Hbh, Hl. auto.
Qed.

Lemma step_isBeat d k :
  BeatData.isBeat (snd (step d k))
  = negb (length (JS.pushCapped 43 (energyHistory d)
                                (calculateEnergy (frequencyData k))) <? 10)%nat
    && (JS.gtb (calculateEnergy (frequencyData k)
                / (Spec.mean (Spec.lastn 10 (JS.pushCapped 43 (energyHistory d)
                                               (calculateEnergy (frequencyData k))))
                   + 0.001))
               (1.3 + sqrt (Spec.variance
                              (Spec.lastn 10 (JS.pushCapped 43 (energyHistory d)
                                                (calculateEnergy (frequencyData k))))))
        && (300 <=? now k - lastBeatTime d)%Z
        && JS.gtb (last (JS.pushCapped 20 (bassHistory d) (bass k)) 0)
                  (Spec.mean (JS.pushCapped 20 (bassHistory d) (bass k)) * 1.2)).
Proof. unfold step. apply analyze_isBeat. Qed.

Lemma step_tempo_hold d k :
  BeatData.isBeat (snd (step d k)) = false
  \/ (length (beatHistory (fst (step d k))) < 2)%nat ->
  BeatData.tempo (snd (step d k)) = last (tempoHistory d) 120 /\
  tempoHistory (fst (step d k)) = tempoHistory d.
Proof. unfold step. apply analyze_tempo_hold. Qed.

Lemma step_tempo_estimate d k :
  (length (tempoHistory d) <= 10)%nat ->
  BeatData.isBeat (snd (step d k)) = true ->
  (2 <= length (beatHistory (fst (step d k))))%nat ->
  match Spec.tempoAmended (beatHistory (fst (step d k))) (tempoHistory d) with
  | None =>
      BeatData.tempo (snd (step d k)) = 120 /\
      tempoHistory (fst (step d k)) = tempoHistory d
  | Some final =>
      BeatData.tempo (snd (step d k)) = final /\
      tempoHistory (fst (step d k)) = Spec.lastn 10 (tempoHistory d ++ [final])
  end.
Proof. unfold step. apply analyze_tempo_estimate. Qed.

End Session.



Lemma afterWarmup_eq :
  afterWarmup = fst (AdvancedBeatDetector.run AdvancedBeatDetector.newDefault warmup).
Proof. exact (proj2_sig (seal _)). Qed.
Lemma afterBeat1_eq :
  afterBeat1 = fst (AdvancedBeatDetector.step afterWarmup (loudTick 1000)).
Proof. exact (proj2_sig (seal _)). Qed.
Lemma afterBeat2_eq :
  afterBeat2 = fst (AdvancedBeatDetector.step afterBeat1 (loudTick 1700)).
Proof. exact (proj2_sig (seal _)). Qed.
Lemma afterBeat3_eq :
  afterBeat3 = fst (AdvancedBeatDetector.step afterBeat2 (loudTick 2400)).
Proof. exact (proj2_sig (seal _)). Qed.

Section SessionRun.

Import AdvancedBeatDetector.

Lemma round_eq (z : Z) (x : R) : IZR z - 0.5 <= x < IZR z + 0.5 -> JS.round x = IZR z.
Proof.
  intros H. unfold JS.round, JS.roundZ. f_equal. apply Zfloor_eq. lra.
Qed.

Lemma Rabs_lt_intro x a : - a < x < a -> Rabs x < a.
Proof. intros [H1 H2]. now apply Rabs_def1. Qed.

Lemma clamp_inside x : 60 <= x <= 200 -> Spec.clamp 60 200 x = x.
Proof.
  intros H. unfold Spec.clamp. rewrite Rmin_right by lra. apply Rmax_right. lra.
Qed.

Lemma tempoAmended_two_beats :
  Spec.tempoAmended [1000; 1700]%Z [] = Some 86.
Proof.
  unfold Spec.tempoAmended. cbv zeta.
  change (Spec.consecutive [1000; 1700]%Z) with [700%Z].
  change (median [700%Z]) with 700.
  cbn [filter].
  rewrite (proj2 (ltb_true_iff _ _)) by (apply Rabs_lt_intro; lra).
  unfold Spec.mean, Spec.total. cbn [map last fold_right length INR].
  rewrite (round_eq 86 (60000 / _)) by lra.
  rewrite (round_eq 86) by lra.
  now rewrite clamp_inside by lra.
Qed.

Lemma tempoAmended_three_beats :
  Spec.tempoAmended [1000; 1700; 2400]%Z [86] = Some 86.
Proof.
  unfold Spec.tempoAmended. cbv zeta.
  change (Spec.consecutive [1000; 1700; 2400]%Z) with [700%Z; 700%Z].
  replace (median [700%Z; 700%Z]) with 700 by (unfold median; simpl; lra).
  cbn [filter].
  rewrite !(proj2 (ltb_true_iff (Rabs (700 - 700)) _)) by (apply Rabs_lt_intro; lra).
  unfold Spec.mean, Spec.total. cbn [map last fold_right length INR].
  rewrite (round_eq 86 (60000 / _)) by lra.
  rewrite (round_eq 86) by lra.
  now rewrite clamp_inside by lra.
Qed.

Lemma run_app (a b : list Tick) :
  forall d,
    run d (a ++ b)
    = (fst (run (fst (run d a)) b), snd (run d a) ++ snd (run (fst (run d a)) b)).
Proof.
  induction a as [|k a IH]; intros d; simpl.
  - now destruct (run d b).
  - destruct (step d k) as [d1 out]. rewrite IH.
    destruct (run d1 a) as [d2 outs]. simpl.
    now destruct (run d2 b).
Qed.

Lemma run_one d k : run d [k] = (fst (step d k), [(now k, snd (step d k))]).
Proof. simpl. now destruct (step d k). Qed.


Lemma run_silent (clocks : list Z) :
  forall d,
    essence (fst (run d (map silentTick clocks)))
    = fold_left (fun E _ => silentEssence E) clocks (essence d)
    /\ Forall (fun o => BeatData.isBeat (snd o) = false)
              (snd (run d (map silentTick clocks))).
Proof.
  induction clocks as [|c clocks IH]; intros d.
  - simpl. split; [reflexivity|constructor].
  - change (map silentTick (c :: clocks)) with (silentTick c :: map silentTick clocks).
    cbn [run fold_left].
    assert (Hb : BeatData.isBeat (snd (step d (silentTick c))) = false)
      by (apply zero_energy_no_beat, silentTick_energy).
    destruct (step_reject d (silentTick c) Hb) as [_ He].
    rewrite silentTick_energy in He.
    destruct (step d (silentTick c)) as [d1 out]. simpl fst in *. simpl snd in *.
    destruct (IH d1) as [IH1 IH2].
    destruct (run d1 (map silentTick clocks)) as [d2 outs]. simpl fst in *. simpl snd in *.
    split.
    + rewrite IH1, He. reflexivity.
    + constructor; [exact Hb|exact IH2].
Qed.

Lemma warmup_essence :
  essence afterWarmup
  = mkEssence [0; 0; 0; 0; 0; 0; 0; 0; 0] [0; 0; 0; 0; 0; 0; 0; 0; 0] 0 [] [].
Proof.
  rewrite afterWarmup_eq. unfold warmup. rewrite (proj1 (run_silent _ _)). reflexivity.
Qed.

Lemma essence_fields d E :
  essence d = E ->
  energyHistory d = eEnergy E /\ bassHistory d = eBass E /\
  lastBeatTime d = eLast E /\ beatHistory d = eBeats E /\ tempoHistory d = eTempi E.
Proof. intros <-. now repeat split. Qed.

(** Reduce the array helpers on literal histories, and nothing else. *)
Ltac js_small :=
  unfold JS.pushCapped, JS.push, JS.shift, Spec.lastn;
  cbn [app length Nat.ltb Nat.leb tl rev firstn negb andb
       bass now loudTick last].
Ltac js_small_in H :=
  unfold JS.pushCapped, JS.push, JS.shift, Spec.lastn in H;
  cbn [app length Nat.ltb Nat.leb tl rev firstn negb andb
       bass now loudTick last] in H.

(** Evaluate the decision of a loud tick on literal histories. *)
Ltac decide_loud_beat He Hbs Hl :=
  rewrite step_isBeat, loudTick_energy, He, Hbs, Hl;
  js_small;
  apply andb_true_intro; split;
  [apply andb_true_intro; split|];
  [ apply gtb_true_iff;
    match goal with |- _ > 1.3 + sqrt ?v =>
      assert (sqrt v <= 1)
        by (apply sqrt_le_one; unfold Spec.variance, Spec.mean, Spec.total;
            cbn [map fold_right length INR]; lra)
    end;
    unfold Spec.mean, Spec.total; cbn [map fold_right length INR]; lra
  | reflexivity
  | apply gtb_true_iff; unfold Spec.mean, Spec.total;
    cbn [map fold_right length INR]; lra ].

(** The essence after an accepted loud tick, given the one before. *)
Lemma loud_accept_essence d clock eh bh lbt beats tempi :
  essence d = mkEssence eh bh lbt beats tempi ->
  BeatData.isBeat (snd (step d (loudTick clock))) = true ->
  energyHistory (fst (step d (loudTick clock))) = JS.pushCapped 43 eh 1 /\
  bassHistory (fst (step d (loudTick clock))) = JS.pushCapped 20 bh 1 /\
  lastBeatTime (fst (step d (loudTick clock))) = clock /\
  beatHistory (fst (step d (loudTick clock))) = JS.pushCapped 8 beats clock.
Proof.
  intros HE Hb.
  destruct (essence_fields _ _ HE) as (He & Hbs & _ & Hbh & _).
  cbn [eEnergy eBass eBeats] in He, Hbs, Hbh.
  destruct (step_accept _ _ Hb) as (He' & Hbs' & Hl' & Hbh').
  rewrite loudTick_energy, He in He'. rewrite Hbs in Hbs'. rewrite Hbh in Hbh'.
  auto.
Qed.

Lemma beat1_accepted :
  BeatData.isBeat (snd (step afterWarmup (loudTick 1000))) = true.
Proof.
  destruct (essence_fields _ _ warmup_essence) as (He & Hbs & Hl & _).
  cbn [eEnergy eBass eLast] in He, Hbs, Hl.
  decide_loud_beat He Hbs Hl.
Qed.

Lemma beat1_essence :
  essence afterBeat1
  = mkEssence [0; 0; 0; 0; 0; 0; 0; 0; 0; 1] [0; 0; 0; 0; 0; 0; 0; 0; 0; 1]
              1000 [1000%Z] []
  /\ BeatData.tempo (snd (step afterWarmup (loudTick 1000))) = 120.
Proof.
  destruct (loud_accept_essence _ _ _ _ _ _ _ warmup_essence beat1_accepted)
    as (He & Hbs & Hl & Hbh).
  destruct (essence_fields _ _ warmup_essence) as (_ & _ & _ & _ & Hth).
  cbn [eTempi] in Hth.
  js_small_in He. js_small_in Hbs. js_small_in Hbh.
  assert (Hshort : (length (beatHistory (fst (step afterWarmup (loudTick 1000)))) < 2)%nat)
    by (rewrite Hbh; cbn [length]; lia).
  destruct (step_tempo_hold _ _ (or_intror Hshort)) as [Htp Hth'].
  rewrite Hth in Htp, Hth'. cbn [last] in Htp.
  split; [|exact Htp].
  rewrite afterBeat1_eq. unfold essence. rewrite He, Hbs, Hl, Hbh, Hth'. reflexivity.
Qed.

Lemma beat2_accepted :
  BeatData.isBeat (snd (step afterBeat1 (loudTick 1700))) = true.
Proof.
  destruct (essence_fields _ _ (proj1 beat1_essence)) as (He & Hbs & Hl & _).
  cbn [eEnergy eBass eLast] in He, Hbs, Hl.
  decide_loud_beat He Hbs Hl.
Qed.

Lemma beat2_essence :
  essence afterBeat2
  = mkEssence [0; 0; 0; 0; 0; 0; 0; 0; 0; 1; 1] [0; 0; 0; 0; 0; 0; 0; 0; 0; 1; 1]
              1700 [1000; 1700]%Z [86]
  /\ BeatData.tempo (snd (step afterBeat1 (loudTick 1700))) = 86.
Proof.
  destruct (loud_accept_essence _ _ _ _ _ _ _ (proj1 beat1_essence) beat2_accepted)
    as (He & Hbs & Hl & Hbh).
  destruct (essence_fields _ _ (proj1 beat1_essence)) as (_ & _ & _ & _ & Hth).
  cbn [eTempi] in Hth.
  js_small_in He. js_small_in Hbs. js_small_in Hbh.
  pose proof (step_tempo_estimate afterBeat1 (loudTick 1700)) as Htempo.
  rewrite Hth, Hbh in Htempo.
  specialize (Htempo ltac:(cbn [length]; lia) beat2_accepted ltac:(cbn [length]; lia)).
  rewrite tempoAmended_two_beats in Htempo. destruct Htempo as [Htp Hth'].
  unfold Spec.lastn in Hth'. cbn [app rev firstn] in Hth'.
  split; [|exact Htp].
  rewrite afterBeat2_eq. unfold essence. rewrite He, Hbs, Hl, Hbh, Hth'. reflexivity.
Qed.

Lemma beat3_accepted :
  BeatData.isBeat (snd (step afterBeat2 (loudTick 2400))) = true.
Proof.
  destruct (essence_fields _ _ (proj1 beat2_essence)) as (He & Hbs & Hl & _).
  cbn [eEnergy eBass eLast] in He, Hbs, Hl.
  decide_loud_beat He Hbs Hl.
Qed.

Lemma beat3_essence :
  essence afterBeat3
  = mkEssence [0; 0; 0; 0; 0; 0; 0; 0; 0; 1; 1; 1]
              [0; 0; 0; 0; 0; 0; 0; 0; 0; 1; 1; 1]
              2400 [1000; 1700; 2400]%Z [86; 86]
  /\ BeatData.tempo (snd (step afterBeat2 (loudTick 2400))) = 86.
Proof.
  destruct (loud_accept_essence _ _ _ _ _ _ _ (proj1 beat2_essence) beat3_accepted)
    as (He & Hbs & Hl & Hbh).
  destruct (essence_fields _ _ (proj1 beat2_essence)) as (_ & _ & _ & _ & Hth).
  cbn [eTempi] in Hth.
  js_small_in He. js_small_in Hbs. js_small_in Hbh.
  pose proof (step_tempo_estimate afterBeat2 (loudTick 2400)) as Htempo.
  rewrite Hth, Hbh in Htempo.
  specialize (Htempo ltac:(cbn [length]; lia) beat3_accepted ltac:(cbn [length]; lia)).
  rewrite tempoAmended_three_beats in Htempo. destruct Htempo as [Htp Hth'].
  unfold Spec.lastn in Hth'. cbn [app rev firstn] in Hth'.
  split; [|exact Htp].
  rewrite afterBeat3_eq. unfold essence. rewrite He, Hbs, Hl, Hbh, Hth'. reflexivity.
Qed.

Lemma acceptedBeats_app d (a b : list Tick) :
  acceptedBeats (snd (run d (a ++ b)))
  = acceptedBeats (snd (run d a)) ++ acceptedBeats (snd (run (fst (run d a)) b)).
Proof.
  rewrite run_app. cbn [snd]. unfold acceptedBeats.
  now rewrite filter_app, map_app.
Qed.

Lemma acceptedBeats_cons d k (ks : list Tick) :
  acceptedBeats (snd (run d (k :: ks)))
  = (if BeatData.isBeat (snd (step d k)) then [now k] else [])
    ++ acceptedBeats (snd (run (fst (step d k)) ks)).
Proof.
  cbn [run]. destruct (step d k) as [d1 out]. cbn [fst snd].
  destruct (run d1 ks) as [d2 outs]. cbn [snd].
  unfold acceptedBeats. cbn [filter snd].
  destruct (BeatData.isBeat out); reflexivity.
Qed.

Lemma acceptedBeats_silent d (clocks : list Z) :
  acceptedBeats (snd (run d (map silentTick clocks))) = [].
Proof.
  unfold acceptedBeats.
  pose proof (proj2 (run_silent clocks d)) as H.
  induction H as [|o outs Ho _ IH]; [reflexivity|].
  cbn [filter]. now rewrite Ho.
Qed.

(** The session as a whole: all three loud frames are accepted. *)
Lemma session_beats :
  acceptedBeats (snd (run newDefault session)) = [1000; 1700; 2400]%Z.
Proof.
  unfold session. rewrite acceptedBeats_app.
  unfold warmup at 1. rewrite acceptedBeats_silent.
  rewrite <- afterWarmup_eq. unfold map.
  rewrite acceptedBeats_cons, beat1_accepted, <- afterBeat1_eq.
  rewrite acceptedBeats_cons, beat2_accepted, <- afterBeat2_eq.
  rewrite acceptedBeats_cons, beat3_accepted.
  reflexivity.
Qed.

End SessionRun.

(** ** The tempo claims *)

Section TempoClaims.

Import AdvancedBeatDetector.

Lemma pushCapped_length {A} (cap : nat) (l : list A) (x : A) :
  (length l <= cap)%nat -> (length (JS.pushCapped cap l x) <= cap)%nat.
Proof.
  intros H. unfold JS.pushCapped, JS.push, JS.shift. cbv zeta.
  destruct (cap <? length (l ++ [x]))%nat eqn:E.
  - destruct (l ++ [x]) eqn:El; simpl; [lia|].
    assert (length (l ++ [x]) = S (length l0)) by now rewrite El.
    rewrite length_app in *. simpl in *. lia.
  - now apply Nat.ltb_ge in E.
Qed.

Lemma calculateTempo_cap d now isBeat :
  (length (tempoHistory d) <= 10)%nat ->
  (length (tempoHistory (fst (calculateTempo d now isBeat))) <= 10)%nat.
Proof.
  intros H. unfold calculateTempo.
  destruct (_ || _); [exact H|]. cbv zeta.
  destruct (_ =? 0)%nat; [exact H|]. simpl. now apply pushCapped_length.
Qed.

Lemma reachable_tempoHistory_cap d :
  reachable d -> (length (tempoHistory d) <= 10)%nat.
Proof.
  induction 1 as [sr bs | d k _ IH | d _ IH]; simpl; try lia.
  unfold step.
  destruct (analyze_frame d (now k) (frequencyData k) (timeData k)
              (bass k) (mid k) (treble k)) as (_&_&_&_&_&_&_&_&_& Hth &_).
  cbv zeta in Hth. rewrite Hth.
  apply calculateTempo_cap.
  now rewrite (proj1 (detectBeat_tempoHistory _ _ _)).
Qed.

Lemma run_reachable (ticks : list Tick) :
  forall d, reachable d -> reachable (fst (run d ticks)).
Proof.
  induction ticks as [|k ticks IH]; intros d Hd; simpl; [exact Hd|].
  pose proof (reach_analyze d k Hd) as H1.
  destruct (step d k) as [d1 out]. simpl in H1.
  specialize (IH d1 H1). now destruct (run d1 ticks).
Qed.

Lemma afterBeat2_reachable : reachable afterBeat2.
Proof.
  rewrite afterBeat2_eq, afterBeat1_eq, afterWarmup_eq.
  do 2 apply reach_analyze. apply run_reachable. apply reach_new.
Qed.


Lemma step_analyze d k :
  step d k = analyze d (now k) (frequencyData k) (timeData k) (bass k) (mid k) (treble k).
Proof. reflexivity. Qed.


End TempoClaims.

(** ** Spectral flux *)

Section SpectralFlux.

Import AdvancedAudioAnalyzer.

Lemma bin_normalized fd i :
  (i < length fd)%nat -> bin fd i / 255 = nth i (Spec.normalized fd) 0.
Proof.
  intros Hi. unfold bin, Spec.normalized.
  rewrite (nth_indep _ 0 (JS.byteval x00 / 255)) by (now rewrite length_map).
  exact (eq_sym (map_nth (fun b => JS.byteval b / 255) fd x00 i)).
Qed.

Lemma nth_or_zero (l : list R) i :
  (if (i <? length l)%nat then nth i l 0 else 0) = nth i l 0.
Proof.
  destruct (i <? length l)%nat eqn:E; [reflexivity|].
  apply Nat.ltb_ge in E. now rewrite nth_overflow.
Qed.

Lemma lastOf_pushCapped {A} (cap : nat) (l : list A) (x : A) :
  (0 < cap)%nat ->
  nth_error (JS.pushCapped cap l x) (length (JS.pushCapped cap l x) - 1) = Some x.
Proof.
  intros Hcap. unfold JS.pushCapped, JS.push, JS.shift. cbv zeta.
  destruct (cap <? length (l ++ [x]))%nat eqn:E.
  - apply Nat.ltb_lt in E. rewrite length_app in E. simpl in E.
    destruct l as [|y l]; [simpl in E; lia|].
    simpl tl. rewrite length_app. simpl length.
    replace (length l + 1 - 1)%nat with (length l) by lia.
    rewrite nth_error_app2 by lia. now rewrite Nat.sub_diag.
  - rewrite length_app. simpl length.
    replace (length l + 1 - 1)%nat with (length l) by lia.
    rewrite nth_error_app2 by lia. now rewrite Nat.sub_diag.
Qed.

(** The flux against a given previous record. *)
Lemma calculateSpectralFlux_previous a prev fd :
  nth_error (analysisHistory a) (length (analysisHistory a) - 1) = Some prev ->
  calculateSpectralFlux a fd
  = Spec.fluxSum (Spec.normalized fd) (AdvancedAudioFeatures.mfcc prev)
    / INR (Nat.min (length fd) 128).
Proof.
  intros Hprev. unfold calculateSpectralFlux.
  destruct (analysisHistory a) as [|x h] eqn:Eh; [discriminate|].
  change (length (x :: h) =? 0)%nat with false. cbv iota.
  rewrite Hprev. cbv zeta. f_equal.
  rewrite fold_plus_map_shift, Rplus_0_l.
  unfold Spec.fluxSum, Spec.normalized. rewrite length_map, (Nat.min_comm 128).
  f_equal. apply map_ext_in. intros i Hi. apply in_seq in Hi.
  rewrite nth_or_zero, bin_normalized by lia. reflexivity.
Qed.

Lemma analyzeAdvancedFeatures_flux a audioData beatData td fd :
  AdvancedAudioFeatures.spectralFlux
    (snd (analyzeAdvancedFeatures a audioData beatData td fd))
  = calculateSpectralFlux a fd
  /\ AdvancedAudioFeatures.mfcc
       (snd (analyzeAdvancedFeatures a audioData beatData td fd))
     = calculateMFCC fd
  /\ nth_error
       (analysisHistory (fst (analyzeAdvancedFeatures a audioData beatData td fd)))
       (length (analysisHistory
                  (fst (analyzeAdvancedFeatures a audioData beatData td fd))) - 1)
     = Some (snd (analyzeAdvancedFeatures a audioData beatData td fd)).
Proof.
  unfold analyzeAdvancedFeatures. cbv zeta. simpl fst. simpl snd.
  split; [reflexivity|]. split; [reflexivity|].
  simpl analysisHistory. apply lastOf_pushCapped. lia.
Qed.

(** C8, amended: on the first tick the spectral flux is 0; on every later
    tick it is the sum, over the bins among the first 128, of
    [max(0, current[i] - mfcc[i])] against the MFCC vector of the previous
    tick (0 past its end), divided by the number of bins summed,
    [min(N, 128)]. *)
Theorem spectral_flux_amended (a : AdvancedAudioAnalyzer.t)
    (audio1 audio2 : AudioAnalysisData.t) (beat1 beat2 : BeatData.t)
    (td1 fd1 td2 fd2 : JS.Uint8Array) :
  let first := snd (analyzeAdvancedFeatures new audio1 beat1 td1 fd1) in
  let previous := snd (analyzeAdvancedFeatures a audio1 beat1 td1 fd1) in
  let a1 := fst (analyzeAdvancedFeatures a audio1 beat1 td1 fd1) in
  let current := snd (analyzeAdvancedFeatures a1 audio2 beat2 td2 fd2) in
  AdvancedAudioFeatures.spectralFlux first = 0 /\
  AdvancedAudioFeatures.spectralFlux current
  = Spec.fluxSum (Spec.normalized fd2) (AdvancedAudioFeatures.mfcc previous)
    / INR (Nat.min (length fd2) 128).
Proof.
  intros first previous a1 current. split; [reflexivity|].
  subst current.
  destruct (analyzeAdvancedFeatures_flux a audio1 beat1 td1 fd1) as (_ & _ & Hlast).
  destruct (analyzeAdvancedFeatures_flux a1 audio2 beat2 td2 fd2) as (-> & _).
  now apply calculateSpectralFlux_previous.
Qed.

End SpectralFlux.

(** ** Silent frames through the pipeline *)

Section Silence.

Import AdvancedAudioAnalyzer.

Lemma getAnalysisData_arrays a now fd td :
  AudioAnalysisData.frequencyData (snd (AudioAnalyzer.getAnalysisData a now fd td)) = fd /\
  AudioAnalysisData.timeData (snd (AudioAnalyzer.getAnalysisData a now fd td)) = td /\
  AudioAnalysisData.bass (snd (AudioAnalyzer.getAnalysisData a now fd td))
  = AudioAnalyzer.getFrequencyBandAverage a fd 0 60 /\
  AudioAnalysisData.mid (snd (AudioAnalyzer.getAnalysisData a now fd td))
  = AudioAnalyzer.getFrequencyBandAverage a fd 60 250 /\
  AudioAnalysisData.treble (snd (AudioAnalyzer.getAnalysisData a now fd td))
  = AudioAnalyzer.getFrequencyBandAverage a fd 250 500.
Proof.
  unfold AudioAnalyzer.getAnalysisData. cbv zeta.
  destruct (AudioAnalyzer.detectBeat _ _ _ _) as [a1 beat]. simpl. tauto.
Qed.

(** What [animate] computes, call by call. *)
Lemma animate_calls p f :
  let a := AudioAnalyzer.getAnalysisData (Pipeline.analyzer p) (Pipeline.clockFrontend f)
             (Pipeline.frequencyData f) (Pipeline.timeData f) in
  let bands := snd a in
  let d := AdvancedBeatDetector.analyze (Pipeline.beatDetector p) (Pipeline.clockDetector f)
             (Pipeline.frequencyData f) (Pipeline.timeData f)
             (AudioAnalysisData.bass bands) (AudioAnalysisData.mid bands)
             (AudioAnalysisData.treble bands) in
  let x := analyzeAdvancedFeatures (Pipeline.advancedAnalyzer p) bands (snd d)
             (Pipeline.timeData f) (Pipeline.frequencyData f) in
  Pipeline.animate p f
  = (Pipeline.mk (fst a) (fst d) (fst x),
     Pipeline.mkOutput bands (snd d) (snd x)
       (generateMusicCharacteristics bands (snd d) (snd x))).
Proof.
  cbv zeta. unfold Pipeline.animate.
  destruct (getAnalysisData_arrays (Pipeline.analyzer p) (Pipeline.clockFrontend f)
              (Pipeline.frequencyData f) (Pipeline.timeData f)) as (Hfd & Htd & _).
  destruct (AudioAnalyzer.getAnalysisData _ _ _ _) as [a1 analysisData].
  cbn [fst snd] in *. rewrite Hfd, Htd.
  destruct (AdvancedBeatDetector.analyze _ _ _ _ _ _ _) as [d1 beatAnalysis].
  cbn [fst snd].
  destruct (analyzeAdvancedFeatures _ _ _ _ _) as [x1 features]. reflexivity.
Qed.


Lemma bin_zeros n i : bin (zeros n) i = 0.
Proof. unfold bin, zeros. rewrite nth_repeat. js_eval. reflexivity. Qed.

Lemma band_zeros a n startFreq endFreq :
  AudioAnalyzer.getFrequencyBandAverage a (zeros n) startFreq endFreq = 0.
Proof.
  unfold AudioAnalyzer.getFrequencyBandAverage. cbv zeta.
  set (bins := seq _ _).
  assert (H : forall (l : list nat) (c : nat),
             fold_left (fun '(sum, count) i =>
                          (sum + JS.byteval (nth i (zeros n) x00), S count))
                       l (0, c) = (0, (length l + c)%nat)).
  { induction l as [|i l IH]; intros c; [reflexivity|].
    cbn [fold_left]. change (JS.byteval (nth i (zeros n) x00)) with (bin (zeros n) i).
    rewrite bin_zeros, Rplus_0_r, IH. simpl. f_equal. lia. }
  rewrite H. destruct (0 <? _)%nat; [|reflexivity].
  unfold Rdiv. now rewrite !Rmult_0_l.
Qed.

Lemma calculateSpectralCentroid_zeros n : calculateSpectralCentroid (zeros n) = 0.
Proof.
  unfold calculateSpectralCentroid.
  assert (H : forall l : list nat,
             fold_left (fun '(weightedSum, magnitudeSum) i =>
                          let magnitude := bin (zeros n) i / 255 in
                          let frequency := binFrequency (zeros n) i in
                          (weightedSum + frequency * magnitude, magnitudeSum + magnitude))
                       l (0, 0) = (0, 0)).
  { induction l as [|i l IH]; [reflexivity|].
    cbn [fold_left]. cbv zeta. rewrite bin_zeros.
    replace (0 + binFrequency (zeros n) i * (0 / 255)) with 0 by (unfold Rdiv; ring).
    replace (0 + 0 / 255) with 0 by (unfold Rdiv; ring). exact IH. }
  rewrite H. now rewrite (proj2 (gtb_false_iff 0 0)) by lra.
Qed.

Lemma addAt_zero idx chroma : addAt idx 0 chroma = chroma.
Proof.
  revert idx. induction chroma as [|v rest IH]; intros [|idx]; simpl;
    try reflexivity.
  - now rewrite Rplus_0_r.
  - now rewrite IH.
Qed.

(** Bins without energy leave the chroma accumulator as it is. *)
Lemma chroma_fold_silent fd (bins : list nat) (chroma : list R) :
  (forall i, In i bins -> bin fd i = 0) ->
  fold_left
    (fun chroma i =>
       let frequency := binFrequency fd i in
       let magnitude := bin fd i / 255 in
       if JS.gtb frequency 80 && JS.ltb frequency 5000
       then addAt (pitchClassOf frequency) magnitude chroma
       else chroma)
    bins chroma = chroma.
Proof.
  revert chroma. induction bins as [|i bins IH]; intros chroma H; [reflexivity|].
  cbn [fold_left]. cbv zeta. rewrite (H i (or_introl eq_refl)).
  replace (0 / 255) with 0 by (unfold Rdiv; ring).
  rewrite addAt_zero.
  destruct (_ && _); apply IH; intros j Hj; apply H; now right.
Qed.

Lemma sum_repeat_zero n : JS.sum (repeat 0 n) = 0.
Proof.
  unfold JS.sum. induction n as [|n IH]; [reflexivity|].
  simpl. now rewrite Rplus_0_l.
Qed.

Lemma calculateChroma_zeros n : calculateChroma (zeros n) = repeat 0 12.
Proof.
  unfold calculateChroma. cbv zeta.
  rewrite chroma_fold_silent by (intros; apply bin_zeros).
  rewrite sum_repeat_zero.
  now rewrite (proj2 (gtb_false_iff 0 0)) by lra.
Qed.

Lemma calculateHarmonicRatio_zeros n : calculateHarmonicRatio (zeros n) = 0.
Proof.
  unfold calculateHarmonicRatio.
  assert (H : forall l : list nat,
             fold_left (fun '(harmonicEnergy, totalEnergy) i =>
                          let magnitude := (bin (zeros n) i / 255) ^ 2 in
                          let frequency := binFrequency (zeros n) i in
                          ((if isLikelyHarmonic frequency then harmonicEnergy + magnitude
                            else harmonicEnergy),
                           totalEnergy + magnitude))
                       l (0, 0) = (0, 0)).
  { induction l as [|i l IH]; [reflexivity|].
    cbn [fold_left]. cbv zeta. rewrite bin_zeros.
    replace ((0 / 255) ^ 2) with 0 by (unfold Rdiv; ring).
    rewrite Rplus_0_r. destruct (isLikelyHarmonic _); exact IH. }
  rewrite H. now rewrite (proj2 (gtb_false_iff 0 0)) by lra.
Qed.

Lemma valence_silent features audioData :
  AdvancedAudioFeatures.chroma features = repeat 0 12 ->
  AdvancedAudioFeatures.spectralCentroid features = 0 ->
  AdvancedAudioFeatures.harmonicRatio features = 0 ->
  calculateValence features audioData = 0.
Proof.
  intros Hc Hs Hh. unfold calculateValence, getMajorKeyStrength. cbv zeta.
  rewrite Hc, Hs, Hh. unfold dotProduct. js_eval.
  rewrite Rmin_right; lra.
Qed.

Lemma detectMood_silent features audioData :
  AudioAnalysisData.bass audioData = 0 ->
  AudioAnalysisData.mid audioData = 0 ->
  AudioAnalysisData.treble audioData = 0 ->
  calculateValence features audioData = 0 ->
  detectMood features audioData = dark.
Proof.
  intros Hb Hm Ht Hv. unfold detectMood. cbv zeta. rewrite Hb, Hm, Ht, Hv.
  rewrite (proj2 (gtb_false_iff ((0 + 0 + 0) / 3) 0.7)) by lra.
  rewrite (proj2 (gtb_false_iff 0 0.5)) by lra.
  rewrite (proj2 (ltb_true_iff 0 0.3)) by lra.
  simpl. now rewrite andb_false_r.
Qed.


(** One silent frame, whatever the state of the pipeline. *)
Lemma animate_silent p n clocks :
  let out := snd (Pipeline.animate p (silentFrame n clocks)) in
  let p' := fst (Pipeline.animate p (silentFrame n clocks)) in
  BeatData.isBeat (Pipeline.beatData out) = false /\
  BeatData.tempo (Pipeline.beatData out)
  = last (AdvancedBeatDetector.tempoHistory (Pipeline.beatDetector p)) 120 /\
  MusicCharacteristics.energy (Pipeline.musicChars out) = 0 /\
  MusicCharacteristics.mood (Pipeline.musicChars out) = dark /\
  AdvancedBeatDetector.tempoHistory (Pipeline.beatDetector p')
  = AdvancedBeatDetector.tempoHistory (Pipeline.beatDetector p).
Proof.
  cbv zeta. rewrite animate_calls. cbv zeta. simpl fst. simpl snd.
  cbn [Pipeline.beatData Pipeline.musicChars Pipeline.beatDetector
       Pipeline.frequencyData Pipeline.timeData Pipeline.clockFrontend
       Pipeline.clockDetector silentFrame].
  destruct (getAnalysisData_arrays (Pipeline.analyzer p) (fst clocks) (zeros n) (zeros n))
    as (_ & _ & Hb & Hm & Ht).
  rewrite band_zeros in Hb, Hm, Ht.
  set (bands := snd (AudioAnalyzer.getAnalysisData _ _ _ _)) in *.
  rewrite Hb, Hm, Ht.
  set (d := Pipeline.beatDetector p).
  assert (Hbeat : BeatData.isBeat
                    (snd (AdvancedBeatDetector.analyze d (snd clocks) (zeros n) (zeros n) 0 0 0))
                  = false)
    by (apply zero_energy_no_beat, calculateEnergy_zeros).
  destruct (analyze_tempo_hold d (snd clocks) (zeros n) (zeros n) 0 0 0 (or_introl Hbeat))
    as [Htempo Hhist].
  split; [exact Hbeat|]. split; [exact Htempo|].
  split; [|split; [|exact Hhist]].
  - unfold generateMusicCharacteristics. cbv zeta. simpl. rewrite Hb, Hm, Ht. lra.
  - unfold generateMusicCharacteristics. cbv zeta.
    cbn [MusicCharacteristics.mood].
    apply detectMood_silent; try assumption.
    apply valence_silent; unfold analyzeAdvancedFeatures; cbv zeta; simpl.
    + apply calculateChroma_zeros.
    + apply calculateSpectralCentroid_zeros.
    + apply calculateHarmonicRatio_zeros.
Qed.


Lemma run_silent_frames n (clocks : list (Z * Z)) :
  forall p,
    Forall (fun out =>
              BeatData.isBeat (Pipeline.beatData out) = false /\
              BeatData.tempo (Pipeline.beatData out)
              = last (AdvancedBeatDetector.tempoHistory (Pipeline.beatDetector p)) 120 /\
              MusicCharacteristics.energy (Pipeline.musicChars out) = 0 /\
              MusicCharacteristics.mood (Pipeline.musicChars out) = dark)
           (snd (Pipeline.run p (silentFrames n clocks))).
Proof.
  induction clocks as [|c clocks IH]; intros p; [constructor|].
  change (silentFrames n (c :: clocks)) with (silentFrame n c :: silentFrames n clocks).
  cbn [Pipeline.run].
  destruct (animate_silent p n c) as (H1 & H2 & H3 & H4 & H5).
  destruct (Pipeline.animate p (silentFrame n c)) as [p1 out]. simpl fst in *. simpl snd in *.
  specialize (IH p1). rewrite H5 in IH.
  destruct (Pipeline.run p1 (silentFrames n clocks)) as [p2 outs]. simpl snd in *.
  constructor; [tauto|exact IH].
Qed.

Lemma pipeline_run_length (frames : list Pipeline.Frame) :
  forall p, length (snd (Pipeline.run p frames)) = length frames.
Proof.
  induction frames as [|f frames IH]; intros p; [reflexivity|].
  cbn [Pipeline.run]. destruct (Pipeline.animate p f) as [p1 out].
  specialize (IH p1). destruct (Pipeline.run p1 frames) as [p2 outs].
  cbn [snd length] in *. now rewrite IH.
Qed.



(** C6, as stated, fails on a fresh pipeline fed a hundred silent frames of
    1024 bins: the mood of the first frame is [dark], not the final default
    [calm], since a valence of 0 is below 0.3. *)
Lemma silent_mood_is_not_default :
  ~ silenceAsClaimed (Pipeline.new 44100) 1024 hundredClocks.
Proof.
  unfold silenceAsClaimed. intros H.
  pose proof (run_silent_frames 1024 hundredClocks (Pipeline.new 44100)) as H'.
  assert (Hlen : length (snd (Pipeline.run (Pipeline.new 44100)
                                (silentFrames 1024 hundredClocks))) = 100%nat).
  { rewrite pipeline_run_length. unfold silentFrames, hundredClocks.
    now rewrite !length_map, length_seq. }
  revert H H' Hlen.
  generalize (snd (Pipeline.run (Pipeline.new 44100) (silentFrames 1024 hundredClocks))).
  intros outs H H' Hlen.
  destruct outs as [|out outs]; [discriminate|].
  apply Forall_inv in H. apply Forall_inv in H'.
  destruct H as (_ & _ & _ & Hcalm), H' as (_ & _ & _ & Hdark).
  congruence.
Qed.

(** C6, amended: feeding all-zero frequency and time arrays, for a hundred
    ticks or any other number, yields on every tick no beat, the tempo held
    at the last stored value (120 when none is stored), energy 0, and the
    mood [dark]: with a valence of 0 the cascade stops at its third branch
    and never reaches the final default. *)
Theorem silent_input (p : Pipeline.t) (n : nat) (clocks : list (Z * Z)) :
  Forall (fun out =>
            BeatData.isBeat (Pipeline.beatData out) = false /\
            BeatData.tempo (Pipeline.beatData out)
            = last (AdvancedBeatDetector.tempoHistory (Pipeline.beatDetector p)) 120 /\
            MusicCharacteristics.energy (Pipeline.musicChars out) = 0 /\
            MusicCharacteristics.mood (Pipeline.musicChars out) = dark)
         (snd (Pipeline.run p (silentFrames n clocks))).
Proof. apply run_silent_frames. Qed.

End Silence.

(** ** The flux of a silent frame after a silent frame *)

Section FluxCounterexample.

Import AdvancedAudioAnalyzer.

Lemma calculateMFCC_zeros n : calculateMFCC (zeros n) = repeat (ln (0 + 1e-10)) 13.
Proof.
  unfold calculateMFCC. cbv zeta.
  rewrite (map_ext _ (fun _ => ln (0 + 1e-10))); [reflexivity|].
  intros i. f_equal. f_equal.
  generalize (seq 0 (length (zeros n))). intros l.
  induction l as [|j l IH]; [reflexivity|].
  cbn [fold_left]. rewrite bin_zeros.
  replace (0 + 0 / 255 * _) with 0 by (unfold Rdiv; ring). exact IH.
Qed.

Lemma ln_small_negative : ln (0 + 1e-10) < 0.
Proof.
  apply Rlt_le_trans with (ln 1); [apply ln_increasing; lra|].
  rewrite ln_1. lra.
Qed.

Lemma fluxSum_nonneg_tail (g : nat -> R) (l : list nat) :
  (forall i, 0 <= g i) -> 0 <= Spec.total (map g l).
Proof.
  intros Hg. apply total_nonneg. apply Forall_forall.
  intros x Hx. apply in_map_iff in Hx. destruct Hx as (i & <- & _). apply Hg.
Qed.

Lemma normalized_zeros_length n : length (Spec.normalized (zeros n)) = n.
Proof. unfold Spec.normalized, zeros. now rewrite length_map, repeat_length. Qed.

Lemma fluxSum_silent_positive n :
  (0 < n)%nat ->
  0 < Spec.fluxSum (Spec.normalized (zeros n)) (repeat (ln (0 + 1e-10)) 13).
Proof.
  intros Hn. unfold Spec.fluxSum. rewrite normalized_zeros_length.
  destruct (Nat.min 128 n) as [|m] eqn:E; [lia|].
  set (g := fun i => Rmax 0 (nth i (Spec.normalized (zeros n)) 0
                             - nth i (repeat (ln (0 + 1e-10)) 13) 0)).
  rewrite <- cons_seq, map_cons. unfold Spec.total. cbn [fold_right].
  fold (Spec.total (map g (seq 1 m))).
  pose proof (fluxSum_nonneg_tail g (seq 1 m) (fun i => Rmax_l 0 _)) as Htail.
  assert (Hhead : - ln (0 + 1e-10) <= g 0%nat).
  { unfold g. eapply Rle_trans; [|apply Rmax_r].
    change (nth 0 (repeat (ln (0 + 1e-10)) 13) 0) with (ln (0 + 1e-10)).
    assert (Hz : nth 0 (Spec.normalized (zeros n)) 0 = 0).
    { rewrite <- bin_normalized by (unfold zeros; rewrite repeat_length; lia).
      rewrite bin_zeros. lra. }
    rewrite Hz. lra. }
  pose proof ln_small_negative. lra.
Qed.

(** The flux of the second of two consecutive frames of the pipeline. *)
Lemma animate_flux p f1 f2 :
  let o1 := snd (Pipeline.animate p f1) in
  let p1 := fst (Pipeline.animate p f1) in
  let o2 := snd (Pipeline.animate p1 f2) in
  AdvancedAudioFeatures.mfcc (Pipeline.advancedFeatures o1)
  = calculateMFCC (Pipeline.frequencyData f1) /\
  AdvancedAudioFeatures.spectralFlux (Pipeline.advancedFeatures o2)
  = Spec.fluxSum (Spec.normalized (Pipeline.frequencyData f2))
                 (calculateMFCC (Pipeline.frequencyData f1))
    / INR (Nat.min (length (Pipeline.frequencyData f2)) 128).
Proof.
  cbv zeta. rewrite !animate_calls. cbv zeta. cbn [fst snd].
  cbn [Pipeline.advancedFeatures Pipeline.advancedAnalyzer].
  split; [reflexivity|].
  match goal with
  | |- AdvancedAudioFeatures.spectralFlux
         (snd (analyzeAdvancedFeatures
                 (fst (analyzeAdvancedFeatures ?a ?ad ?bd ?td ?fd)) ?ad2 ?bd2 ?td2 ?fd2)) = _ =>
      destruct (analyzeAdvancedFeatures_flux a ad bd td fd) as (_ & Hmfcc & Hlast);
      destruct (analyzeAdvancedFeatures_flux
                  (fst (analyzeAdvancedFeatures a ad bd td fd)) ad2 bd2 td2 fd2)
        as (Hflux & _)
  end.
  rewrite Hflux, (calculateSpectralFlux_previous _ _ _ Hlast), Hmfcc.
  reflexivity.
Qed.


(** C8, as stated, fails on the second of two silent frames of 1024 bins: the
    sum is 13 * -ln(1e-10), about 299, and the code returns that sum divided
    by 128. *)
Lemma flux_is_not_the_sum :
  ~ fluxAsClaimed (Pipeline.new 44100) (silentFrame 1024 (16, 16)%Z)
                  (silentFrame 1024 (32, 32)%Z).
Proof.
  unfold fluxAsClaimed. cbv zeta.
  destruct (animate_flux (Pipeline.new 44100) (silentFrame 1024 (16, 16)%Z)
              (silentFrame 1024 (32, 32)%Z)) as [Hmfcc Hflux].
  rewrite Hflux, Hmfcc. clear Hflux Hmfcc.
  unfold silentFrame. cbn [Pipeline.frequencyData].
  rewrite calculateMFCC_zeros.
  pose proof (fluxSum_silent_positive 1024 ltac:(lia)) as Hpos.
  revert Hpos. generalize (Spec.fluxSum (Spec.normalized (zeros 1024))
                                        (repeat (ln (0 + 1e-10)) 13)).
  intros S Hpos.
  replace (length (zeros 1024)) with 1024%nat by (unfold zeros; now rewrite repeat_length).
  replace (INR (Nat.min 1024 128)) with 128.
  2:{ rewrite INR_IZR_INZ. apply f_equal. reflexivity. }
  intros H. lra.
Qed.

End FluxCounterexample.

(** ** Ranges of the music characteristics *)

Section Characteristics.

Import AdvancedAudioAnalyzer.

Lemma byteval_le_255 (b : byte) : JS.byteval b <= 255.
Proof.
  unfold JS.byteval. apply IZR_le.
  pose proof (Byte.to_N_bounded b) as H. lia.
Qed.

Lemma bin_range fd i : 0 <= bin fd i / 255 <= 1.
Proof.
  unfold bin. pose proof (byteval_nonneg (nth i fd x00)).
  pose proof (byteval_le_255 (nth i fd x00)). lra.
Qed.

Lemma band_range a fd startFreq endFreq :
  0 <= AudioAnalyzer.getFrequencyBandAverage a fd startFreq endFreq <= 1.
Proof.
  unfold AudioAnalyzer.getFrequencyBandAverage. cbv zeta.
  set (bins := seq _ _).
  assert (H : forall (l : list nat) (s : R) (c : nat),
             0 <= s <= 255 * INR c ->
             let r := fold_left (fun '(sum, count) i =>
                                   (sum + JS.byteval (nth i fd x00), S count))
                                l (s, c) in
             0 <= fst r <= 255 * INR (snd r)).
  { induction l as [|i l IH]; intros s c Hs; [exact Hs|].
    cbn [fold_left]. apply IH. rewrite S_INR.
    pose proof (byteval_nonneg (nth i fd x00)).
    pose proof (byteval_le_255 (nth i fd x00)). lra. }
  specialize (H bins 0 0%nat ltac:(simpl; lra)). cbv zeta in H.
  destruct (fold_left _ bins (0, 0%nat)) as [sum count]. simpl in H.
  destruct (0 <? count)%nat eqn:E; [|lra].
  apply Nat.ltb_lt in E.
  assert (Hc : 0 < INR count) by (apply lt_0_INR; lia).
  assert (Hq : 0 <= sum / INR count <= 255).
  { split.
    - apply Rmult_le_pos; [lra|]. apply Rlt_le, Rinv_0_lt_compat, Hc.
    - apply Rmult_le_reg_r with (INR count); [exact Hc|].
      unfold Rdiv. rewrite Rmult_assoc, Rinv_l by lra. lra. }
  lra.
Qed.

Lemma calculateSpectralCentroid_nonneg fd : 0 <= calculateSpectralCentroid fd.
Proof.
  unfold calculateSpectralCentroid.
  assert (H : forall (l : list nat) (w m : R),
             0 <= w -> 0 <= m ->
             let r := fold_left
                        (fun '(weightedSum, magnitudeSum) i =>
                           let magnitude := bin fd i / 255 in
                           let frequency := binFrequency fd i in
                           (weightedSum + frequency * magnitude, magnitudeSum + magnitude))
                        l (w, m) in
             0 <= fst r /\ 0 <= snd r).
  { induction l as [|i l IH]; intros w m Hw Hm; [now split|].
    cbn [fold_left]. cbv zeta. pose proof (bin_range fd i) as Hb.
    assert (Hf : 0 <= binFrequency fd i).
    { unfold binFrequency, sampleRate.
      apply Rmult_le_pos.
      - apply Rmult_le_pos; [apply pos_INR|lra].
      - destruct (length fd) eqn:E.
        + simpl. rewrite Rmult_0_r, Rinv_0. lra.
        + apply Rlt_le, Rinv_0_lt_compat.
          apply Rmult_lt_0_compat; [lra|]. apply lt_0_INR. lia. }
    apply IH; [|lra].
    assert (0 <= binFrequency fd i * (bin fd i / 255))
      by (apply Rmult_le_pos; lra).
    lra. }
  specialize (H (seq 0 (length fd)) 0 0 ltac:(lra) ltac:(lra)). cbv zeta in H.
  destruct (fold_left _ _ (0, 0)) as [w m]. simpl in H.
  destruct (JS.gtb m 0) eqn:E; [|lra].
  apply gtb_true_iff in E.
  apply Rmult_le_pos; [tauto|]. apply Rlt_le, Rinv_0_lt_compat. lra.
Qed.

Lemma calculateHarmonicRatio_range fd : 0 <= calculateHarmonicRatio fd <= 1.
Proof.
  unfold calculateHarmonicRatio.
  assert (H : forall (l : list nat) (h t : R),
             0 <= h <= t ->
             let r := fold_left
                        (fun '(harmonicEnergy, totalEnergy) i =>
                           let magnitude := (bin fd i / 255) ^ 2 in
                           let frequency := binFrequency fd i in
                           ((if isLikelyHarmonic frequency then harmonicEnergy + magnitude
                             else harmonicEnergy),
                            totalEnergy + magnitude))
                        l (h, t) in
             0 <= fst r <= snd r).
  { induction l as [|i l IH]; intros h t Hht; [exact Hht|].
    cbn [fold_left]. cbv zeta.
    assert (Hm : 0 <= (bin fd i / 255) ^ 2) by apply pow2_ge_0.
    apply IH. destruct (isLikelyHarmonic _); lra. }
  specialize (H (seq 0 (length fd)) 0 0 ltac:(lra)). cbv zeta in H.
  destruct (fold_left _ _ (0, 0)) as [h t]. simpl in H.
  destruct (JS.gtb t 0) eqn:E; [|lra].
  apply gtb_true_iff in E.
  assert (Hi : 0 < / t) by (apply Rinv_0_lt_compat; lra).
  split.
  - apply Rmult_le_pos; lra.
  - apply Rmult_le_reg_r with t; [lra|].
    unfold Rdiv. rewrite Rmult_assoc, Rinv_l by lra. lra.
Qed.

Lemma addAt_nonneg idx magnitude chroma :
  0 <= magnitude -> Forall (fun v => 0 <= v) chroma ->
  Forall (fun v => 0 <= v) (addAt idx magnitude chroma).
Proof.
  intros Hm. revert idx. induction chroma as [|v rest IH]; intros idx H.
  - destruct idx; constructor.
  - inversion H; subst. destruct idx; simpl; constructor; auto. lra.
Qed.

Lemma calculateChroma_nonneg fd : Forall (fun v => 0 <= v) (calculateChroma fd).
Proof.
  unfold calculateChroma. cbv zeta.
  set (acc := fold_left _ _ _).
  assert (Hacc : Forall (fun v => 0 <= v) acc).
  { subst acc. generalize (seq 1 (length fd - 1)).
    assert (H0 : Forall (fun v => 0 <= v) (repeat 0 12))
      by (apply Forall_forall; intros x Hx; apply repeat_spec in Hx; lra).
    revert H0. generalize (repeat 0 12).
    intros c Hc l. revert c Hc.
    induction l as [|i l IH]; intros c Hc; [exact Hc|].
    cbn [fold_left]. cbv zeta. apply IH.
    destruct (_ && _); [|exact Hc].
    apply addAt_nonneg; [apply bin_range|exact Hc]. }
  destruct (JS.gtb (JS.sum acc) 0) eqn:E; [|exact Hacc].
  apply gtb_true_iff in E.
  apply Forall_forall. intros x Hx. apply in_map_iff in Hx.
  destruct Hx as (v & <- & Hv).
  rewrite Forall_forall in Hacc.
  apply Rmult_le_pos; [now apply Hacc|]. apply Rlt_le, Rinv_0_lt_compat. lra.
Qed.

Lemma dotProduct_nonneg (a b : list R) :
  Forall (fun v => 0 <= v) a -> Forall (fun v => 0 <= v) b -> 0 <= dotProduct a b.
Proof.
  intros Ha Hb. unfold dotProduct.
  assert (Hnth : forall i, 0 <= nth i b 0).
  { intros i. destruct (Nat.lt_ge_cases i (length b)) as [H|H].
    - rewrite Forall_forall in Hb. apply Hb, nth_In, H.
    - rewrite nth_overflow by exact H. lra. }
  assert (H : forall (l : list (R * nat)) (s : R),
             Forall (fun p => 0 <= fst p) l -> 0 <= s ->
             0 <= fold_left (fun sum '(val, i) => sum + val * nth i b 0) l s).
  { induction l as [|[val i] l IH]; intros s Hl Hs; [exact Hs|].
    cbn [fold_left]. inversion Hl; subst. apply IH; [assumption|].
    simpl in *. pose proof (Hnth i).
    assert (0 <= val * nth i b 0) by (apply Rmult_le_pos; assumption). lra. }
  apply H; [|lra].
  apply Forall_forall. intros [val i] Hin. apply in_combine_l in Hin.
  rewrite Forall_forall in Ha. simpl. now apply Ha.
Qed.

Lemma calculateValence_range features audioData :
  Forall (fun v => 0 <= v) (AdvancedAudioFeatures.chroma features) ->
  0 <= AdvancedAudioFeatures.spectralCentroid features ->
  0 <= AdvancedAudioFeatures.harmonicRatio features ->
  0 <= calculateValence features audioData <= 1.
Proof.
  intros Hc Hs Hh. unfold calculateValence, getMajorKeyStrength. cbv zeta.
  split; [|apply Rmin_l].
  apply Rmin_glb; [lra|].
  assert (Hd : 0 <= dotProduct (AdvancedAudioFeatures.chroma features)
                       [1; 0; 1; 0; 1; 1; 0; 1; 0; 1; 0; 1]).
  { apply dotProduct_nonneg; [exact Hc|]. repeat constructor; lra. }
  replace (JS.sum [1; 0; 1; 0; 1; 1; 0; 1; 0; 1; 0; 1]) with 7 by (js_eval; lra).
  lra.
Qed.

End Characteristics.

(** ** The characteristics of a frame of the pipeline *)

Section CharacteristicsClaim.

Import AdvancedAudioAnalyzer.

Lemma animate_musicChars p f :
  let out := snd (Pipeline.animate p f) in
  let m := Pipeline.musicChars out in
  let features := Pipeline.advancedFeatures out in
  let bands := Pipeline.audioData out in
  MusicCharacteristics.energy m
  = (AudioAnalysisData.bass bands + AudioAnalysisData.mid bands
     + AudioAnalysisData.treble bands) / 3 /\
  MusicCharacteristics.valence m = calculateValence features bands /\
  MusicCharacteristics.danceability m
  = calculateDanceability (Pipeline.beatData out) features /\
  MusicCharacteristics.acousticness m = calculateAcousticness features /\
  MusicCharacteristics.instrumentalness m = calculateInstrumentalness features /\
  AdvancedAudioFeatures.spectralCentroid features
  = calculateSpectralCentroid (Pipeline.frequencyData f) /\
  AdvancedAudioFeatures.harmonicRatio features
  = calculateHarmonicRatio (Pipeline.frequencyData f) /\
  AdvancedAudioFeatures.chroma features = calculateChroma (Pipeline.frequencyData f) /\
  AdvancedAudioFeatures.spectralFlux features
  = calculateSpectralFlux (Pipeline.advancedAnalyzer p) (Pipeline.frequencyData f) /\
  AudioAnalysisData.bass bands
  = AudioAnalyzer.getFrequencyBandAverage (Pipeline.analyzer p) (Pipeline.frequencyData f) 0 60 /\
  AudioAnalysisData.mid bands
  = AudioAnalyzer.getFrequencyBandAverage (Pipeline.analyzer p) (Pipeline.frequencyData f) 60 250 /\
  AudioAnalysisData.treble bands
  = AudioAnalyzer.getFrequencyBandAverage (Pipeline.analyzer p) (Pipeline.frequencyData f) 250 500.
Proof.
  cbv zeta. rewrite animate_calls. cbv zeta. cbn [fst snd].
  cbn [Pipeline.musicChars Pipeline.advancedFeatures Pipeline.audioData Pipeline.beatData].
  destruct (getAnalysisData_arrays (Pipeline.analyzer p) (Pipeline.clockFrontend f)
              (Pipeline.frequencyData f) (Pipeline.timeData f)) as (_ & _ & Hb & Hm & Ht).
  repeat split; try assumption.
Qed.


(** C5, amended: for every frame and every state of the pipeline the music
    characteristics have energy and valence in [0, 1], and danceability,
    acousticness and instrumentalness at most 1, the bound [Math.min(1, ...)]
    gives them.  No lower clamp is applied to these three. *)
Theorem characteristics_ranges (p : Pipeline.t) (f : Pipeline.Frame) :
  let m := Pipeline.musicChars (snd (Pipeline.animate p f)) in
  0 <= MusicCharacteristics.energy m <= 1 /\
  0 <= MusicCharacteristics.valence m <= 1 /\
  MusicCharacteristics.danceability m <= 1 /\
  MusicCharacteristics.acousticness m <= 1 /\
  MusicCharacteristics.instrumentalness m <= 1.
Proof.
  cbv zeta.
  destruct (animate_musicChars p f)
    as (He & Hv & Hd & Ha & Hi & Hc & Hh & Hch & _ & Hb & Hm & Ht).
  cbv zeta in *. rewrite He, Hv, Hd, Ha, Hi, Hb, Hm, Ht.
  pose proof (band_range (Pipeline.analyzer p) (Pipeline.frequencyData f) 0 60).
  pose proof (band_range (Pipeline.analyzer p) (Pipeline.frequencyData f) 60 250).
  pose proof (band_range (Pipeline.analyzer p) (Pipeline.frequencyData f) 250 500).
  split; [lra|]. split.
  - apply calculateValence_range.
    + rewrite Hch. apply calculateChroma_nonneg.
    + rewrite Hc. apply calculateSpectralCentroid_nonneg.
    + rewrite Hh. apply calculateHarmonicRatio_range.
  - repeat split; apply Rmin_l.
Qed.


Lemma bin_trebleOnly_low n i : (i < n)%nat -> bin (trebleOnly n) i = 0.
Proof.
  intros Hi. unfold bin, trebleOnly.
  rewrite app_nth1 by (unfold zeros; rewrite repeat_length; exact Hi).
  apply bin_zeros.
Qed.

Lemma bin_trebleOnly_top n : bin (trebleOnly n) n = 255.
Proof.
  unfold bin, trebleOnly.
  rewrite app_nth2 by (unfold zeros; rewrite repeat_length; lia).
  unfold zeros. rewrite repeat_length, Nat.sub_diag.
  unfold JS.byteval. cbn [nth Byte.to_N Z.of_N]. reflexivity.
Qed.

Lemma centroid_fold_silent fd (bins : list nat) (w m : R) :
  (forall i, In i bins -> bin fd i = 0) ->
  fold_left
    (fun '(weightedSum, magnitudeSum) i =>
       let magnitude := bin fd i / 255 in
       let frequency := binFrequency fd i in
       (weightedSum + frequency * magnitude, magnitudeSum + magnitude))
    bins (w, m) = (w, m).
Proof.
  revert w m. induction bins as [|i bins IH]; intros w m H; [reflexivity|].
  cbn [fold_left]. cbv zeta. rewrite (H i (or_introl eq_refl)).
  replace (w + binFrequency fd i * (0 / 255)) with w by (unfold Rdiv; ring).
  replace (m + 0 / 255) with m by (unfold Rdiv; ring).
  apply IH. intros j Hj. apply H. now right.
Qed.

Lemma calculateSpectralCentroid_trebleOnly n :
  calculateSpectralCentroid (trebleOnly n) = binFrequency (trebleOnly n) n.
Proof.
  unfold calculateSpectralCentroid.
  assert (Hlen : length (trebleOnly n) = S n).
  { unfold trebleOnly, zeros. rewrite length_app, repeat_length. simpl. lia. }
  rewrite Hlen, seq_S, fold_left_app. cbn [Nat.add].
  rewrite centroid_fold_silent
    by (intros i Hi; apply in_seq in Hi; apply bin_trebleOnly_low; lia).
  cbn [fold_left]. cbv zeta. rewrite bin_trebleOnly_top.
  replace (0 + 255 / 255) with 1 by lra.
  rewrite (proj2 (gtb_true_iff 1 0)) by lra. lra.
Qed.


(** C5, as stated, fails on the first frame of a fresh pipeline when the
    spectrum has its energy in the top bin: the centroid is about 22 kHz,
    [1 - centroid / 5000] is about -3.4, and the acousticness is at most
    -0.76. *)
Lemma acousticness_below_zero :
  ~ characteristicsInRange
      (Pipeline.musicChars (snd (Pipeline.animate (Pipeline.new 44100) trebleFrame))).
Proof.
  unfold characteristicsInRange.
  destruct (animate_musicChars (Pipeline.new 44100) trebleFrame)
    as (_ & _ & _ & Ha & _ & Hc & Hh & _ & Hf & _).
  cbv zeta in *. rewrite Ha. clear Ha.
  intros (_ & _ & _ & [Hlow _] & _). revert Hlow.
  unfold calculateAcousticness. cbv zeta. rewrite Hc, Hh, Hf. clear Hc Hh Hf.
  unfold trebleFrame. cbn [Pipeline.frequencyData Pipeline.advancedAnalyzer Pipeline.new].
  rewrite calculateSpectralCentroid_trebleOnly.
  pose proof (calculateHarmonicRatio_range (trebleOnly 1023)) as Hh.
  revert Hh. generalize (calculateHarmonicRatio (trebleOnly 1023)). intros h Hh.
  replace (calculateSpectralFlux new (trebleOnly 1023)) with 0 by reflexivity.
  assert (Hfreq : binFrequency (trebleOnly 1023) 1023 = 1023 * 44100 / 2048).
  { unfold binFrequency, sampleRate.
    replace (length (trebleOnly 1023)) with 1024%nat
      by (unfold trebleOnly, zeros; rewrite length_app, repeat_length; reflexivity).
    rewrite !INR_IZR_INZ.
    replace (IZR (Z.of_nat 1023)) with 1023 by (apply f_equal; reflexivity).
    replace (IZR (Z.of_nat 1024)) with 1024 by (apply f_equal; reflexivity).
    lra. }
  rewrite Hfreq. intros Hlow.
  match type of Hlow with 0 <= Rmin 1 ?x => pose proof (Rmin_r 1 x) end. lra.
Qed.

End CharacteristicsClaim.

(** ** Key detection on an A major spectrum *)

Section KeyDetection.

Import AdvancedAudioAnalyzer.


Lemma detectKey_fold chroma :
  detectKey chroma = snd (fold_left (keyStep chroma) (seq 0 12) (-1, "C"%string)).
Proof.
  unfold detectKey.
  assert (H : forall (l : list nat) (acc : R * string),
             fold_left
               (fun '(maxCorrelation, detectedKey) i =>
                  let correlation := dotProduct chroma (rotatedProfile i) in
                  if JS.gtb correlation maxCorrelation
                  then (correlation, nth i keys ""%string)
                  else (maxCorrelation, detectedKey))
               l acc
             = fold_left (keyStep chroma) l acc).
  { induction l as [|i l IH]; intros [m k]; [reflexivity|].
    cbn [fold_left]. now rewrite IH. }
  rewrite H. now destruct (fold_left _ _ _).
Qed.

Lemma keyStep_take chroma m k i :
  dotProduct chroma (rotatedProfile i) > m ->
  keyStep chroma (m, k) i = (dotProduct chroma (rotatedProfile i), nth i keys ""%string).
Proof.
  intros H. unfold keyStep. cbv zeta.
  now rewrite (proj2 (gtb_true_iff _ _) H).
Qed.

Lemma keyStep_keep chroma m k i :
  dotProduct chroma (rotatedProfile i) <= m ->
  keyStep chroma (m, k) i = (m, k).
Proof.
  intros H. unfold keyStep. cbv zeta.
  now rewrite (proj2 (gtb_false_iff _ _) H).
Qed.

Ltac dot_eval :=
  unfold dotProduct, rotatedProfile, majorProfile;
  cbn [skipn firstn app combine seq length nth fold_left].

(** A chroma vector whose energy lies on the pitch classes of the A major
    scale, counted from A as [calculateChroma] counts them (offsets 0, 2, 4,
    5, 7, 9 and 11), correlates best with the unrotated profile, and the key
    reported is the first entry of [keys]. *)
Lemma detectKey_A_major (c0 c1 c2 c3 c4 c5 c6 c7 c8 c9 c10 c11 : R) :
  0 <= c0 -> 0 <= c2 -> 0 <= c4 -> 0 <= c5 -> 0 <= c7 -> 0 <= c9 -> 0 <= c11 ->
  c1 = 0 -> c3 = 0 -> c6 = 0 -> c8 = 0 -> c10 = 0 ->
  detectKey [c0; c1; c2; c3; c4; c5; c6; c7; c8; c9; c10; c11] = "C"%string.
Proof.
  intros H0 H2 H4 H5 H7 H9 H11 -> -> -> -> ->.
  rewrite detectKey_fold. cbn [seq fold_left].
  rewrite keyStep_take by (dot_eval; lra).
  rewrite !keyStep_keep by (dot_eval; lra).
  reflexivity.
Qed.

Lemma roundZ_eq (z : Z) (x : R) : IZR z - 0.5 <= x < IZR z + 0.5 -> JS.roundZ x = z.
Proof. intros H. unfold JS.roundZ. apply Zfloor_eq. lra. Qed.

Lemma ln2_pos : 0 < ln 2.
Proof. rewrite <- ln_1. apply ln_increasing; lra. Qed.

(** [Math.round(12 * Math.log2(x))] read off powers: it is [k] as soon as
    [x ^ 24] lies between [2 ^ (2k - 1)] and [2 ^ (2k + 1)]. *)
Lemma round_semitones (x : R) (a : nat) (k : Z) :
  0 < x -> (2 * k = Z.of_nat a + 1)%Z ->
  2 ^ a <= x ^ 24 < 2 ^ (a + 2) ->
  JS.roundZ (12 * JS.log2 x) = k.
Proof.
  intros Hx Hk [Hlo Hhi]. apply roundZ_eq. unfold JS.log2.
  pose proof ln2_pos as H2.
  assert (Hp : 0 < x ^ 24) by (apply pow_lt; exact Hx).
  assert (Hlo' : INR a * ln 2 <= 24 * ln x).
  { rewrite <- (ln_pow 2) by lra.
    replace 24 with (INR 24) by (rewrite INR_IZR_INZ; apply f_equal; reflexivity).
    rewrite <- (ln_pow x) by exact Hx.
    destruct Hlo as [Hlt|Heq]; [|rewrite Heq; lra].
    apply Rlt_le, ln_increasing; [apply pow_lt; lra|exact Hlt]. }
  assert (Hhi' : 24 * ln x < INR (a + 2) * ln 2).
  { rewrite <- (ln_pow 2) by lra.
    replace 24 with (INR 24) by (rewrite INR_IZR_INZ; apply f_equal; reflexivity).
    rewrite <- (ln_pow x) by exact Hx.
    apply ln_increasing; [exact Hp|exact Hhi]. }
  rewrite plus_INR in Hhi'. simpl INR in Hhi'.
  assert (Hk' : 2 * IZR k = INR a + 1).
  { rewrite INR_IZR_INZ, <- mult_IZR, Hk, plus_IZR. reflexivity. }
  assert (Hk2 : IZR k = (INR a + 1) / 2) by lra.
  rewrite Hk2. clear Hk Hk' Hk2.
  set (q := 12 * (ln x / ln 2)).
  assert (Hq : 24 * ln x = q * (2 * ln 2)) by (unfold q; field; lra).
  rewrite Hq in Hlo', Hhi'.
  split.
  - destruct (Rle_dec ((INR a + 1) / 2 - 0.5) q) as [H|H]; [exact H|].
    exfalso. apply Rnot_le_lt in H.
    assert (0 < ((INR a + 1) / 2 - 0.5 - q) * ln 2)
      by (apply Rmult_lt_0_compat; lra).
    lra.
  - destruct (Rlt_dec q ((INR a + 1) / 2 + 0.5)) as [H|H]; [exact H|].
    exfalso. apply Rnot_lt_le in H.
    assert (0 <= (q - ((INR a + 1) / 2 + 0.5)) * ln 2)
      by (apply Rmult_le_pos; lra).
    lra.
Qed.

Lemma pow_le_Z (b1 b2 : Z) (n1 n2 : nat) :
  (b1 ^ Z.of_nat n1 <= b2 ^ Z.of_nat n2)%Z -> IZR b1 ^ n1 <= IZR b2 ^ n2.
Proof. intros H. rewrite !pow_IZR. now apply IZR_le. Qed.

Lemma pow_lt_Z (b1 b2 : Z) (n1 n2 : nat) :
  (b1 ^ Z.of_nat n1 < b2 ^ Z.of_nat n2)%Z -> IZR b1 ^ n1 < IZR b2 ^ n2.
Proof. intros H. rewrite !pow_IZR. now apply IZR_lt. Qed.

(** The partials 1 to 5 of A4 fall on the pitch classes 0, 0, 7, 0 and 4:
    A, A, E, A and C sharp, the A major triad. *)
Lemma pitchClassOf_partials :
  pitchClassOf 440 = 0%nat /\ pitchClassOf 880 = 0%nat /\
  pitchClassOf 1320 = 7%nat /\ pitchClassOf 1760 = 0%nat /\
  pitchClassOf 2200 = 4%nat.
Proof.
  unfold pitchClassOf. cbv zeta.
  replace (440 / 440) with 1 by lra.
  replace (880 / 440) with 2 by lra.
  replace (1320 / 440) with 3 by lra.
  replace (1760 / 440) with 4 by lra.
  replace (2200 / 440) with 5 by lra.
  assert (H1 : JS.roundZ (12 * JS.log2 1) = 0%Z).
  { apply roundZ_eq. unfold JS.log2. rewrite ln_1. unfold Rdiv.
    rewrite Rmult_0_l, Rmult_0_r. lra. }
  rewrite H1, (round_semitones 2 23 12%Z),
    (round_semitones 3 37 19%Z), (round_semitones 4 47 24%Z),
    (round_semitones 5 55 28%Z).
  1: repeat split; reflexivity.
  all: try lra; try reflexivity.
  all: split; first [apply (pow_le_Z 2 _ _ 24) | apply (pow_lt_Z _ 2 24)];
    vm_compute; first [reflexivity | discriminate].
Qed.


Lemma bin_spectrumOf peaks n i :
  (i < n)%nat ->
  bin (spectrumOf peaks n) i = if existsb (Nat.eqb i) peaks then 255 else 0.
Proof.
  intros Hi. unfold bin, spectrumOf.
  rewrite (nth_indep _ x00 ((fun i => if existsb (Nat.eqb i) peaks then xff else x00) 0%nat))
    by (now rewrite length_map, length_seq).
  rewrite (map_nth (fun i => if existsb (Nat.eqb i) peaks then xff else x00)).
  rewrite seq_nth by exact Hi. cbn [Nat.add].
  destruct (existsb _ peaks); unfold JS.byteval; cbn [Byte.to_N Z.of_N]; reflexivity.
Qed.

(** The loop of [calculateChroma] may skip the bins without energy. *)
Lemma chroma_fold_peaks fd (isPeak : nat -> bool) (bins : list nat) :
  (forall i, In i bins -> isPeak i = false -> bin fd i = 0) ->
  forall chroma,
    fold_left
      (fun chroma i =>
         let frequency := binFrequency fd i in
         let magnitude := bin fd i / 255 in
         if JS.gtb frequency 80 && JS.ltb frequency 5000
         then addAt (pitchClassOf frequency) magnitude chroma
         else chroma)
      bins chroma
    = fold_left
        (fun chroma i =>
           let frequency := binFrequency fd i in
           let magnitude := bin fd i / 255 in
           if JS.gtb frequency 80 && JS.ltb frequency 5000
           then addAt (pitchClassOf frequency) magnitude chroma
           else chroma)
        (filter isPeak bins) chroma.
Proof.
  induction bins as [|i bins IH]; intros H chroma; [reflexivity|].
  cbn [filter]. destruct (isPeak i) eqn:E.
  - cbn [fold_left]. apply IH. intros j Hj. apply H. now right.
  - cbn [fold_left]. cbv zeta. rewrite (H i (or_introl eq_refl) E).
    replace (0 / 255) with 0 by (unfold Rdiv; ring). rewrite addAt_zero.
    destruct (_ && _); apply IH; intros j Hj; apply H; now right.
Qed.


Lemma aMajorSpectrum_length : length aMajorSpectrum = 2205%nat.
Proof. unfold aMajorSpectrum, spectrumOf. now rewrite length_map, length_seq. Qed.

Lemma aMajorSpectrum_frequency i :
  binFrequency aMajorSpectrum i = 10 * INR i.
Proof.
  unfold binFrequency, sampleRate. rewrite aMajorSpectrum_length.
  rewrite (INR_IZR_INZ 2205).
  replace (IZR (Z.of_nat 2205)) with 2205 by (apply f_equal; reflexivity).
  lra.
Qed.

Lemma INR_literal (n : nat) (z : Z) : Z.of_nat n = z -> INR n = IZR z.
Proof. intros <-. apply INR_IZR_INZ. Qed.

Lemma aMajorSpectrum_accumulated :
  fold_left
    (fun chroma i =>
       let frequency := binFrequency aMajorSpectrum i in
       let magnitude := bin aMajorSpectrum i / 255 in
       if JS.gtb frequency 80 && JS.ltb frequency 5000
       then addAt (pitchClassOf frequency) magnitude chroma
       else chroma)
    (seq 1 (length aMajorSpectrum - 1)) (repeat 0 12)
  = [0 + 1 + 1 + 1; 0; 0; 0; 0 + 1; 0; 0; 0 + 1; 0; 0; 0; 0].
Proof.
  rewrite aMajorSpectrum_length.
  rewrite (chroma_fold_peaks aMajorSpectrum (fun i => existsb (Nat.eqb i) aMajorPeaks)).
  2:{ intros i Hi E. apply in_seq in Hi. unfold aMajorSpectrum.
      rewrite bin_spectrumOf by lia. now rewrite E. }
  replace (filter (fun i => existsb (Nat.eqb i) aMajorPeaks) (seq 1 (2205 - 1)))
    with aMajorPeaks by (vm_compute; reflexivity).
  destruct pitchClassOf_partials as (P1 & P2 & P3 & P4 & P5).
  unfold aMajorPeaks. cbn [fold_left]. cbv zeta.
  rewrite !aMajorSpectrum_frequency.
  rewrite (INR_literal 44 44), (INR_literal 88 88), (INR_literal 132 132),
    (INR_literal 176 176), (INR_literal 220 220) by reflexivity.
  replace (10 * 44) with 440 by lra. replace (10 * 88) with 880 by lra.
  replace (10 * 132) with 1320 by lra. replace (10 * 176) with 1760 by lra.
  replace (10 * 220) with 2200 by lra.
  rewrite P1, P2, P3, P4, P5.
  rewrite !(proj2 (gtb_true_iff _ 80)) by lra.
  rewrite !(proj2 (ltb_true_iff _ 5000)) by lra.
  cbn [andb].
  unfold aMajorSpectrum.
  rewrite !bin_spectrumOf by lia.
  cbn [existsb aMajorPeaks Nat.eqb orb].
  replace (255 / 255) with 1 by lra.
  reflexivity.
Qed.

(** C7 on the code: for the spectrum that holds the first five partials of
    A4, the A major triad, the chroma vector has its energy on the pitch
    classes 0, 4 and 7 counted from A, and [detectKey] answers "C". *)
Theorem a_major_spectrum_key :
  detectKey (calculateChroma aMajorSpectrum) = "C"%string.
Proof.
  pose proof aMajorSpectrum_accumulated as Hacc. cbv zeta in Hacc.
  unfold calculateChroma. rewrite Hacc.
  set (sum := JS.sum _).
  assert (Hsum : sum = 5) by (unfold sum; js_eval; lra).
  rewrite (proj2 (gtb_true_iff sum 0)) by lra.
  cbn [map]. rewrite Hsum.
  apply detectKey_A_major; lra.
Qed.

End KeyDetection.

(** ** The theorems at the session *)

Section Witnesses.

Import AdvancedBeatDetector.

Lemma session_clock : nondecreasing (map now session).
Proof.
  unfold session, warmup.
  cbn [map app now silentTick loudTick nondecreasing].
  repeat split; lia.
Qed.

Lemma accepted_beat_confidence_witness :
  BeatData.isBeat (snd (step afterWarmup (loudTick 1000))) = true /\
  0.15 < BeatData.confidence (snd (step afterWarmup (loudTick 1000))) <= 1.
Proof.
  split; [exact beat1_accepted|].
  rewrite step_analyze.
  apply (accepted_beat_confidence afterWarmup (now (loudTick 1000))
           (frequencyData (loudTick 1000)) (timeData (loudTick 1000))
           (bass (loudTick 1000)) (mid (loudTick 1000)) (treble (loudTick 1000))).
  rewrite <- step_analyze. exact beat1_accepted.
Defined.

Lemma reset_idempotent_cold_start_witness :
  reachable afterBeat2 /\
  reset afterBeat2 = new (sampleRate afterBeat2) (bufferSize afterBeat2) /\
  snd (analyze (reset afterBeat2) 5000 loudFrame flatWave 1 0 0)
  = BeatData.mk false 0 120 4 0
      (calculateIntensity 1 0 0 (calculateEnergy loudFrame)).
Proof.
  split; [exact afterBeat2_reachable|].
  destruct (reset_idempotent_cold_start afterBeat2 5000 loudFrame flatWave 1 0 0
              afterBeat2_reachable) as (_ & H2 & _ & H4).
  split; assumption.
Defined.

Lemma range_invariants_witness :
  nondecreasing (map now session) /\
  Forall (fun o => 0 <= BeatData.confidence (snd o) <= 1 /\
                   0 <= BeatData.beatPhase (snd o) < 1 /\
                   60 <= BeatData.tempo (snd o) <= 200)
         (snd (run (new 44100 1024) session)).
Proof.
  split; [exact session_clock|].
  exact (range_invariants 44100 1024 session session_clock).
Defined.

End Witnesses.

(** ** The onset decision and the tempo estimate in double precision *)

Section DoubleFrames.

Import Float64.AdvancedBeatDetector.
Import Double.

Lemma detectBeat_fields d energy now :
  tempoHistory (fst (detectBeat d energy now)) = tempoHistory d /\
  beatHistory (fst (detectBeat d energy now))
  = (if fst (snd (detectBeat d energy now))
     then JS.pushCapped 8 (beatHistory d) now else beatHistory d).
Proof.
  unfold detectBeat.
  destruct (_ <? 10)%nat; [cbn; auto|].
  destruct (_ && _); cbn; auto.
Qed.

Lemma calculateTempo_beatHistory d now isBeat :
  beatHistory (fst (calculateTempo d now isBeat)) = beatHistory d.
Proof.
  unfold calculateTempo. destruct (_ || _); [reflexivity|]. cbv zeta.
  destruct (_ =? 0)%nat; reflexivity.
Qed.

Lemma analyzeRhythmPatterns_histories d :
  beatHistory (analyzeRhythmPatterns d) = beatHistory d /\
  tempoHistory (analyzeRhythmPatterns d) = tempoHistory d.
Proof.
  unfold analyzeRhythmPatterns. cbv zeta.
  set (body := fun (d : t) (length : nat) => _).
  assert (Hfold : forall ns d0,
             beatHistory (fold_left body ns d0) = beatHistory d0 /\
             tempoHistory (fold_left body ns d0) = tempoHistory d0).
  { induction ns as [|n ns IH]; intros d0; [now split|].
    cbn [fold_left]. destruct (IH (body d0 n)) as [-> ->]. unfold body.
    destruct (_ <? _)%nat; [now split|]. cbv zeta.
    destruct (gtb _ _); [|now split].
    destruct (bumpFirstMatch _ _ _); now split. }
  destruct (5 <? _)%nat; cbn [setRhythmPatterns beatHistory tempoHistory]; apply Hfold.
Qed.

Lemma updateRhythmPatterns_histories d isBeat :
  beatHistory (updateRhythmPatterns d isBeat) = beatHistory d /\
  tempoHistory (updateRhythmPatterns d isBeat) = tempoHistory d.
Proof.
  unfold updateRhythmPatterns. cbv zeta.
  destruct (_ && _); [|now split].
  destruct (analyzeRhythmPatterns_histories
              (mk (sampleRate d) (bufferSize d) (energyHistory d) (beatHistory d)
                  (tempoHistory d) (lastBeatTime d) (beatInterval d) (beatPhase d)
                  (bassHistory d) (midHistory d) (trebleHistory d) (rhythmPatterns d)
                  (JS.pushCapped 32 (patternBuffer d) isBeat))) as [-> ->].
  now split.
Qed.

(** What [analyze] returns and leaves, in terms of [detectBeat] and
    [calculateTempo] on the state with this tick's levels pushed. *)
Lemma analyze_parts d now fd td bass mid treble :
  let energy := calculateEnergy fd in
  let p := pushEnergy (updateFrequencyHistories d bass mid treble) energy in
  let r := detectBeat p energy now in
  let c := calculateTempo (fst r) now (fst (snd r)) in
  let out := snd (analyze d now fd td bass mid treble) in
  let d' := fst (analyze d now fd td bass mid treble) in
  Float64.BeatData.isBeat out = fst (snd r) /\
  Float64.BeatData.confidence out = snd (snd r) /\
  Float64.BeatData.tempo out = snd c /\
  beatHistory d' = beatHistory (fst r) /\
  tempoHistory d' = tempoHistory (fst c).
Proof.
  cbv zeta. unfold analyze. cbv zeta.
  set (energy := calculateEnergy fd).
  set (p := pushEnergy _ energy).
  pose proof (calculateTempo_beatHistory (fst (detectBeat p energy now)) now
                (fst (snd (detectBeat p energy now)))) as Hbh.
  destruct (detectBeat p energy now) as [d3 [ib cf]]. cbn [fst snd] in *.
  destruct (calculateTempo d3 now ib) as [d4 tp]. cbn [fst snd] in *.
  destruct (updateRhythmPatterns_histories (updateBeatPhase d4 now tp) ib) as [H1 H2].
  cbn [Float64.BeatData.isBeat Float64.BeatData.confidence Float64.BeatData.tempo].
  rewrite H1, H2.
  repeat split.
  - rewrite <- Hbh. unfold updateBeatPhase. now destruct (_ =? 0)%Z.
  - unfold updateBeatPhase. now destruct (_ =? 0)%Z.
Qed.

End DoubleFrames.

Section DoubleOnset.

Import Float64.AdvancedBeatDetector.
Import Double.

Lemma fold_left_map_acc {A B} (f : float -> B -> float) (g : A -> B) (l : list A) :
  forall a, fold_left f (map g l) a = fold_left (fun acc x => f acc (g x)) l a.
Proof. induction l as [|x l IH]; intros a; [reflexivity|]. cbn [map fold_left]. apply IH. Qed.

Lemma localAverage_stated d :
  localAverage d = Float64.Spec.mean (Spec.lastn 10 (energyHistory d)).
Proof. unfold localAverage. cbv zeta. now rewrite sliceLast_lastn. Qed.

Lemma variance_stated d :
  variance d = Float64.Spec.variance (Spec.lastn 10 (energyHistory d)).
Proof.
  unfold variance, Float64.Spec.variance. cbv zeta.
  rewrite localAverage_stated, sliceLast_lastn.
  set (m := Float64.Spec.mean (Spec.lastn 10 (energyHistory d))).
  unfold Float64.Spec.mean, Float64.Spec.total.
  now rewrite fold_left_map_acc, length_map.
Qed.

Lemma bassAvg_stated d : bassAvg d = Float64.Spec.mean (bassHistory d).
Proof. reflexivity. Qed.

(** C1: the onset decision of an [analyze] call, in the doubles of the
    code.  With fewer than ten energy samples after this tick's push there is
    no beat and the confidence is 0, whatever the frame.  From ten samples
    on, a beat is reported exactly when the energy ratio (energy over the
    mean of the last ten samples plus 0.001) exceeds 1.3 plus the square root
    of the variance of those samples, at least 300 ms separate the clock from
    the last accepted beat, and the newest bass sample exceeds the mean of
    the bass history times 1.2. *)
Theorem analyze_onset_decision (d : t) (now : Z) (fd td : JS.Uint8Array)
    (bass mid treble : float) :
  let energy := calculateEnergy fd in
  let energies := JS.pushCapped 43 (energyHistory d) energy in
  let basses := JS.pushCapped 20 (bassHistory d) bass in
  let recent := Spec.lastn 10 energies in
  let out := snd (analyze d now fd td bass mid treble) in
  ((length energies < 10)%nat ->
     Float64.BeatData.isBeat out = false /\
     Float64.BeatData.confidence out = 0%float) /\
  ((10 <= length energies)%nat ->
     (Float64.BeatData.isBeat out = true <->
        gtb (energy / (Float64.Spec.mean recent + 0.001))
            (1.3 + PrimFloat.sqrt (Float64.Spec.variance recent)) = true
        /\ (now - lastBeatTime d >= 300)%Z
        /\ gtb (last basses nan) (Float64.Spec.mean basses * 1.2) = true)).
Proof.
  intros energy energies basses recent out.
  destruct (analyze_parts d now fd td bass mid treble) as (Hb & Hc & _).
  cbv zeta in Hb, Hc. fold energy in Hb, Hc. fold out in Hb, Hc.
  set (p := pushEnergy (updateFrequencyHistories d bass mid treble) energy) in *.
  assert (He : energyHistory p = energies) by reflexivity.
  assert (Hs : bassHistory p = basses) by reflexivity.
  assert (Hl : lastBeatTime p = lastBeatTime d) by reflexivity.
  rewrite Hb, Hc. unfold detectBeat. rewrite He.
  split; intros Hlen.
  - apply Nat.ltb_lt in Hlen. rewrite Hlen. now split.
  - apply Nat.ltb_ge in Hlen. rewrite Hlen.
    assert (Hcrit : isEnergyBeat p energy && isTimingValid p now && isBassHit p = true <->
                    gtb (energy / (Float64.Spec.mean recent + 0.001))
                        (1.3 + PrimFloat.sqrt (Float64.Spec.variance recent)) = true
                    /\ (now - lastBeatTime d >= 300)%Z
                    /\ gtb (last basses nan) (Float64.Spec.mean basses * 1.2) = true).
    { rewrite !andb_true_iff.
      unfold isEnergyBeat, isTimingValid, isBassHit, energyRatio, adaptiveThreshold,
        energyThreshold, minBeatInterval.
      rewrite Z.leb_le, localAverage_stated, variance_stated, bassAvg_stated,
        lastOf_last, He, Hs, Hl.
      fold recent. split.
      - intros [[H1 H2] H3]. repeat split; [exact H1 | lia | exact H3].
      - intros [H1 [H2 H3]]. repeat split; [exact H1 | lia | exact H3]. }
    rewrite <- Hcrit.
    destruct (isEnergyBeat p energy && isTimingValid p now && isBassHit p);
      cbn [fst snd]; split; auto.
Qed.

(** The tie: eleven bass levels of 0.5625 and a twelfth of 0.6875 on a
    full-scale frame.  The product of the mean and 1.2 falls just below
    0.6875 and the beat is accepted. *)
Lemma analyze_onset_decision_witness :
  (Float64.Spec.mean (JS.pushCapped 20 (bassHistory tieDetector) 0.6875%float) * 1.2
   = 0.68749999999999989)%float /\
  Float64.BeatData.isBeat
    (snd (analyze tieDetector 1200 loudBins flatBins 0.6875%float 0%float 0%float))
  = true.
Proof.
  split; [vm_compute; reflexivity|].
  destruct (analyze_onset_decision tieDetector 1200 loudBins flatBins
              0.6875%float 0%float 0%float) as [_ H].
  cbv zeta in H.
  assert (Hlen : (10 <= length (JS.pushCapped 43 (energyHistory tieDetector)
                                   (calculateEnergy loudBins)))%nat)
    by (vm_compute; repeat constructor).
  apply (proj2 (H Hlen)).
  split; [vm_compute; reflexivity|].
  split; [|vm_compute; reflexivity].
  replace (lastBeatTime tieDetector) with 0%Z by (vm_compute; reflexivity). lia.
Defined.

End DoubleOnset.

Section DoubleTempo.

Import Float64.AdvancedBeatDetector.
Import Double.

(** *** The two sorts agree *)

Lemma insertAsc_perm x l : Permutation (x :: l) (JS.insertAsc x l).
Proof.
  induction l as [|y l IH]; cbn [JS.insertAsc]; [reflexivity|].
  destruct (x <? y)%Z; [reflexivity|].
  rewrite perm_swap. now apply perm_skip.
Qed.

Lemma insertAsc_sorted x l :
  StronglySorted Z.le l -> StronglySorted Z.le (JS.insertAsc x l).
Proof.
  induction 1 as [|y l Hs IH Hy]; cbn [JS.insertAsc]; [repeat constructor|].
  destruct (x <? y)%Z eqn:E.
  - apply Z.ltb_lt in E. constructor; [now constructor|].
    constructor; [lia|]. eapply Forall_impl; [|exact Hy]. cbv beta. lia.
  - apply Z.ltb_ge in E. constructor; [exact IH|].
    rewrite <- (insertAsc_perm x l). constructor; assumption.
Qed.

Lemma sortAsc_sorted_perm l :
  StronglySorted Z.le (JS.sortAsc l) /\ Permutation l (JS.sortAsc l).
Proof.
  unfold JS.sortAsc.
  assert (H : forall l acc,
             StronglySorted Z.le acc ->
             StronglySorted Z.le (fold_left (fun acc x => JS.insertAsc x acc) l acc) /\
             Permutation (l ++ acc)
                         (fold_left (fun acc x => JS.insertAsc x acc) l acc)).
  { clear l. induction l as [|x l IH]; intros acc Hacc; [now split|].
    cbn [fold_left app].
    destruct (IH (JS.insertAsc x acc) (insertAsc_sorted x acc Hacc)) as [H1 H2].
    split; [exact H1|]. rewrite <- H2, <- (insertAsc_perm x acc).
    apply Permutation_middle. }
  destruct (H l [] (SSorted_nil _)) as [H1 H2].
  rewrite app_nil_r in H2. now split.
Qed.

Lemma insert_perm x l : Permutation (x :: l) (Float64.Spec.insert x l).
Proof.
  induction l as [|y l IH]; cbn [Float64.Spec.insert]; [reflexivity|].
  destruct (x <=? y)%Z; [reflexivity|].
  rewrite perm_swap. now apply perm_skip.
Qed.

Lemma insert_sorted x l :
  StronglySorted Z.le l -> StronglySorted Z.le (Float64.Spec.insert x l).
Proof.
  induction 1 as [|y l Hs IH Hy]; cbn [Float64.Spec.insert]; [repeat constructor|].
  destruct (x <=? y)%Z eqn:E.
  - apply Z.leb_le in E. constructor; [now constructor|].
    constructor; [lia|]. eapply Forall_impl; [|exact Hy]. cbv beta. lia.
  - apply Z.leb_gt in E. constructor; [exact IH|].
    rewrite <- (insert_perm x l). constructor; [lia|assumption].
Qed.

Lemma sort_sorted_perm l :
  StronglySorted Z.le (Float64.Spec.sort l) /\ Permutation l (Float64.Spec.sort l).
Proof.
  unfold Float64.Spec.sort. induction l as [|x l [IH1 IH2]]; cbn [fold_right].
  - split; constructor.
  - split; [now apply insert_sorted|].
    rewrite <- insert_perm. now apply perm_skip.
Qed.

Lemma sorted_perm_unique (l1 l2 : list Z) :
  StronglySorted Z.le l1 -> StronglySorted Z.le l2 -> Permutation l1 l2 -> l1 = l2.
Proof.
  intros H1. revert l2. induction H1 as [|a l1 Hs1 IH Ha]; intros l2 H2 Hp.
  - now apply Permutation_nil in Hp.
  - destruct H2 as [|b l2 Hs2 Hb].
    + apply Permutation_sym, Permutation_nil in Hp. discriminate.
    + assert (Hab : a = b).
      { assert (Hin1 : In b (a :: l1))
          by (apply (Permutation_in _ (Permutation_sym Hp)); now left).
        assert (Hin2 : In a (b :: l2)) by (apply (Permutation_in _ Hp); now left).
        rewrite Forall_forall in Ha, Hb.
        destruct Hin1 as [->|Hin1]; [reflexivity|].
        destruct Hin2 as [<-|Hin2]; [reflexivity|].
        specialize (Ha b Hin1). specialize (Hb a Hin2). lia. }
      subst b. f_equal. apply IH; [exact Hs2|].
      now apply Permutation_cons_inv in Hp.
Qed.

Lemma sortAsc_sort l : JS.sortAsc l = Float64.Spec.sort l.
Proof.
  destruct (sortAsc_sorted_perm l) as [H1 H2].
  destruct (sort_sorted_perm l) as [H3 H4].
  apply sorted_perm_unique; [exact H1|exact H3|].
  now rewrite <- H2.
Qed.

(** *** The median *)

Lemma skipn_two {A} (l : list A) (i : nat) (a b : A) (rest : list A) :
  skipn i l = a :: b :: rest ->
  nth_error l i = Some a /\ nth_error l (S i) = Some b.
Proof.
  revert l. induction i as [|i IH]; intros l H.
  - cbn [skipn] in H. subst l. now split.
  - destruct l as [|x l]; [discriminate|]. cbn [skipn] in H.
    cbn [nth_error]. now apply IH.
Qed.

Lemma skipn_one {A} (l : list A) (i : nat) (a : A) (rest : list A) :
  skipn i l = a :: rest -> nth_error l i = Some a.
Proof.
  revert l. induction i as [|i IH]; intros l H.
  - cbn [skipn] in H. now subst l.
  - destruct l as [|x l]; [discriminate|]. cbn [skipn] in H.
    cbn [nth_error]. now apply IH.
Qed.

Lemma median_stated (l : list Z) : median l = Float64.Spec.median l.
Proof.
  unfold median, Float64.Spec.median. cbv zeta.
  rewrite sortAsc_sort.
  assert (Hlen : length (Float64.Spec.sort l) = length l)
    by (symmetry; apply Permutation_length, sort_sorted_perm).
  rewrite Hlen.
  set (s := Float64.Spec.sort l) in *. set (n := length l) in *.
  pose proof (Nat.div_mod_eq (n - 1) 2) as Hdm.
  assert (Hub : ((n - 1) mod 2 < 2)%nat) by (apply Nat.mod_upper_bound; lia).
  destruct (skipn ((n - 1) / 2) s) as [|a [|b rest]] eqn:E.
  - assert (Hn : n = 0%nat).
    { apply (f_equal (@length Z)) in E. rewrite length_skipn, Hlen in E.
      cbn [length] in E. lia. }
    rewrite Hn in *. destruct s; [|discriminate]. reflexivity.
  - assert (Hlast : (n - (n - 1) / 2 = 1)%nat).
    { apply (f_equal (@length Z)) in E. rewrite length_skipn, Hlen in E. exact E. }
    assert (Hn : n = 1%nat) by lia.
    rewrite Hn in *. cbn in E.
    change (1 mod 2 =? 0)%nat with false. change (1 / 2)%nat with 0%nat.
    cbv iota. unfold at_. now rewrite E.
  - assert (Hlong : (2 <= n - (n - 1) / 2)%nat).
    { apply (f_equal (@length Z)) in E. rewrite length_skipn, Hlen in E.
      cbn [length] in E. lia. }
    destruct (Nat.even n) eqn:Ev.
    + apply Nat.even_spec in Ev. destruct Ev as [k Hk].
      assert (Hk0 : (1 <= k)%nat) by lia.
      assert (Hq : ((n - 1) / 2 = k - 1)%nat).
      { rewrite Hk. replace (2 * k - 1)%nat with (1 + (k - 1) * 2)%nat by lia.
        rewrite Nat.div_add by lia. reflexivity. }
      assert (Hm : (n mod 2 = 0)%nat).
      { rewrite Hk, Nat.mul_comm. apply Nat.Div0.mod_mul. }
      assert (Hd : (n / 2 = k)%nat).
      { rewrite Hk, Nat.mul_comm. apply Nat.div_mul. lia. }
      rewrite Hm, Hd. cbn [Nat.eqb]. rewrite Hq in E.
      destruct (skipn_two _ _ _ _ _ E) as [Ha Hb].
      replace (S (k - 1)) with k in Hb by lia.
      unfold at_. now rewrite Ha, Hb.
    + assert (Hodd : Nat.odd n = true) by (rewrite <- Nat.negb_even, Ev; reflexivity).
      apply Nat.odd_spec in Hodd. destruct Hodd as [k Hk].
      assert (Hq : ((n - 1) / 2 = k)%nat).
      { rewrite Hk. replace (2 * k + 1 - 1)%nat with (k * 2)%nat by lia.
        apply Nat.div_mul. lia. }
      assert (Hm : (n mod 2 = 1)%nat).
      { rewrite Hk. replace (2 * k + 1)%nat with (1 + k * 2)%nat by lia.
        rewrite Nat.Div0.mod_add. reflexivity. }
      assert (Hd : (n / 2 = k)%nat).
      { rewrite Hk. replace (2 * k + 1)%nat with (1 + k * 2)%nat by lia.
        rewrite Nat.div_add by lia. reflexivity. }
      rewrite Hm, Hd. cbn [Nat.eqb]. rewrite Hq in E.
      unfold at_. now rewrite (skipn_one _ _ _ _ E).
Qed.

(** *** The estimate *)

Lemma intervalsOf_stated (stamps : list Z) :
  intervalsOf stamps = Float64.Spec.consecutive stamps.
Proof.
  unfold intervalsOf.
  induction stamps as [|a stamps IH]; [reflexivity|].
  destruct stamps as [|b stamps]; [reflexivity|].
  change (Float64.Spec.consecutive (a :: b :: stamps))
    with ((b - a)%Z :: Float64.Spec.consecutive (b :: stamps)).
  rewrite <- IH. cbn [length].
  replace (S (S (length stamps)) - 1)%nat with (S (length stamps)) by lia.
  replace (S (length stamps) - 1)%nat with (length stamps) by lia.
  change (seq 1 (S (length stamps))) with (1%nat :: seq 2 (length stamps)).
  rewrite map_cons. f_equal.
  rewrite <- (seq_shift (length stamps) 1), map_map.
  apply map_ext_in. intros i Hi. apply in_seq in Hi.
  destruct i as [|i]; [lia|]. cbn [nth Nat.sub]. now rewrite Nat.sub_0_r.
Qed.

Lemma lastTempoOr_stated d dflt : lastTempoOr d dflt = last (tempoHistory d) dflt.
Proof.
  unfold lastTempoOr. destruct (tempoHistory d) as [|x l] eqn:E; [reflexivity|].
  cbn [length Nat.ltb Nat.leb]. rewrite lastOf_last.
  apply last_nonempty. discriminate.
Qed.

Lemma calculateTempo_stated d now :
  (2 <= length (beatHistory d))%nat ->
  match Float64.Spec.tempoAmended (beatHistory d) (tempoHistory d) with
  | None => calculateTempo d now true = (d, 120%float)
  | Some final =>
      snd (calculateTempo d now true) = final /\
      tempoHistory (fst (calculateTempo d now true))
      = JS.pushCapped 10 (tempoHistory d) final
  end.
Proof.
  intros Hlen. unfold calculateTempo, Float64.Spec.tempoAmended, validIntervalsOf.
  apply Nat.ltb_ge in Hlen. rewrite Hlen. cbn [negb orb]. cbv zeta.
  rewrite intervalsOf_stated, median_stated.
  set (survivors := filter _ (Float64.Spec.consecutive (beatHistory d))).
  destruct survivors as [|i rest]; [reflexivity|].
  change (length (i :: rest) =? 0)%nat with false. cbv iota.
  rewrite lastTempoOr_stated.
  unfold Float64.Spec.mean, Float64.Spec.clamp, tempoSmoothingFactor.
  rewrite length_map. cbn [fst snd tempoHistory]. split; reflexivity.
Qed.

Lemma calculateTempo_held d now isBeat :
  isBeat = false \/ (length (beatHistory d) < 2)%nat ->
  calculateTempo d now isBeat = (d, last (tempoHistory d) 120%float).
Proof.
  intros H. unfold calculateTempo. rewrite lastTempoOr_stated.
  destruct H as [->|H]; [reflexivity|].
  apply Nat.ltb_lt in H. rewrite H. now rewrite orb_true_r.
Qed.

Lemma reachable_tempoHistory d : reachable d -> (length (tempoHistory d) <= 10)%nat.
Proof.
  induction 1 as [sr bs | d k _ IH | d _ IH]; cbn [new reset tempoHistory length];
    try lia.
  unfold step.
  destruct (analyze_parts d (now k) (frequencyData k) (timeData k)
              (bass k) (mid k) (treble k)) as (_ & _ & _ & _ & Hth).
  cbv zeta in Hth. rewrite Hth.
  set (p := pushEnergy _ _).
  pose proof (proj1 (detectBeat_fields p (calculateEnergy (frequencyData k)) (now k)))
    as H3.
  change (tempoHistory p) with (tempoHistory d) in H3.
  set (d3 := fst (detectBeat p _ _)) in *.
  unfold calculateTempo. destruct (_ || _); [cbn [fst]; now rewrite H3|]. cbv zeta.
  destruct (_ =? 0)%nat; [cbn [fst]; now rewrite H3|].
  cbn [fst tempoHistory]. apply pushCapped_length. now rewrite H3.
Qed.

(** C3, as worded, fails on the fourth beat of a train at 1000, 1556, 2078
    and 2600 ms: the code reports 108 beats per minute, the worded formula
    gives 108.45, since it rounds neither the new tempo nor the smoothed
    one. *)
Lemma tempo_as_stated_fails : ~ tempoAsWorded threeBeats (fullTick 1%float 2600).
Proof.
  unfold tempoAsWorded. cbv zeta. intros H.
  assert (Hb : Float64.BeatData.isBeat (snd (step threeBeats (fullTick 1%float 2600)))
               = true) by (vm_compute; reflexivity).
  assert (Hlen : (2 <= length (beatHistory
                                 (fst (step threeBeats (fullTick 1%float 2600)))))%nat)
    by (vm_compute; repeat constructor).
  specialize (H Hb Hlen).
  apply (f_equal (fun x => PrimFloat.eqb x 108%float)) in H.
  vm_compute in H. discriminate H.
Qed.

(** C3, amended, in the doubles of the code: on a tick of a detector in use
    where a beat is accepted and the time stamps (this beat included) number
    at least two, the tempo is obtained from the consecutive intervals and
    their median by keeping the intervals that deviate from the median by
    strictly less than the median times 0.3; when none is kept, 120 is
    returned and the tempo history is left alone; otherwise the kept intervals
    are averaged, turned into beats per minute as [Math.round(60000 / avg)],
    smoothed as [Math.round(previous * 0.9 + new * (1 - 0.9))] against the
    last stored tempo (the new one itself when none is stored), clamped to
    [60, 200], returned and pushed into the tempo history, of which the last
    ten entries are kept.  On every other tick the last stored tempo is
    returned (120 when there is none) and the history is unchanged. *)
Theorem tempo_estimate_amended (d : t) (now : Z) (fd td : JS.Uint8Array)
    (bass mid treble : float) :
  reachable d ->
  let out := snd (analyze d now fd td bass mid treble) in
  let d' := fst (analyze d now fd td bass mid treble) in
  (Float64.BeatData.isBeat out = true /\ (2 <= length (beatHistory d'))%nat ->
     match Float64.Spec.tempoAmended (beatHistory d') (tempoHistory d) with
     | None =>
         Float64.BeatData.tempo out = 120%float /\ tempoHistory d' = tempoHistory d
     | Some final =>
         Float64.BeatData.tempo out = final /\
         tempoHistory d' = Spec.lastn 10 (tempoHistory d ++ [final])
     end) /\
  (Float64.BeatData.isBeat out = false \/ (length (beatHistory d') < 2)%nat ->
     Float64.BeatData.tempo out = last (tempoHistory d) 120%float /\
     tempoHistory d' = tempoHistory d).
Proof.
  intros Hr out d'. subst out d'.
  pose proof (reachable_tempoHistory d Hr) as Hcap.
  destruct (analyze_parts d now fd td bass mid treble) as (Hb & _ & Htp & Hbh & Hth).
  cbv zeta in Hb, Htp, Hbh, Hth. rewrite Hb, Htp, Hbh, Hth.
  set (energy := calculateEnergy fd).
  set (p := pushEnergy _ energy).
  pose proof (proj1 (detectBeat_fields p energy now)) as H3.
  change (tempoHistory p) with (tempoHistory d) in H3.
  set (d3 := fst (detectBeat p energy now)) in *.
  split.
  - intros [Hib Hlen]. rewrite Hib.
    pose proof (calculateTempo_stated d3 now Hlen) as H. rewrite H3 in H.
    destruct (Float64.Spec.tempoAmended (beatHistory d3) (tempoHistory d)) as [final|].
    + destruct H as [H1 H2]. split; [exact H1|].
      rewrite H2. now apply pushCapped_lastn.
    + rewrite H. cbn [fst snd]. split; [reflexivity|exact H3].
  - intros H. rewrite (calculateTempo_held d3 now _ H). cbn [fst snd].
    rewrite H3. now split.
Qed.

Lemma threeBeats_reachable : reachable threeBeats.
Proof.
  unfold threeBeats. generalize (map (quietTick 0%float)
                                     [100; 200; 300; 400; 500; 600; 700; 800; 900]%Z
                                 ++ map (fullTick 1%float) [1000; 1556; 2078]%Z).
  intros ticks.
  assert (H : forall d, reachable d -> reachable (fst (run d ticks))).
  { induction ticks as [|k ticks IH]; intros d Hd; [exact Hd|].
    cbn [run]. pose proof (reach_analyze d k Hd) as H1.
    destruct (step d k) as [d1 out]. cbn [fst] in H1.
    specialize (IH d1 H1). now destruct (run d1 ticks). }
  apply H, reach_new.
Qed.

(** The fourth beat of the train: the quotient 112.49999999999999 rounds to
    112 and the tempo reported is 108. *)
Lemma tempo_estimate_amended_witness :
  reachable threeBeats /\
  Float64.BeatData.isBeat (snd (step threeBeats (fullTick 1%float 2600))) = true /\
  Float64.BeatData.tempo (snd (step threeBeats (fullTick 1%float 2600))) = 108%float /\
  tempoHistory (fst (step threeBeats (fullTick 1%float 2600)))
  = [108; 108; 108]%float.
Proof.
  split; [exact threeBeats_reachable|].
  assert (Hb : Float64.BeatData.isBeat (snd (step threeBeats (fullTick 1%float 2600)))
               = true) by (vm_compute; reflexivity).
  split; [exact Hb|].
  assert (Hlen : (2 <= length (beatHistory
                                 (fst (step threeBeats (fullTick 1%float 2600)))))%nat)
    by (vm_compute; repeat constructor).
  destruct (tempo_estimate_amended threeBeats 2600 loudBins flatBins
              1%float 0%float 0%float threeBeats_reachable) as [H _].
  cbv zeta in H. specialize (H (conj Hb Hlen)).
  assert (Ha : Float64.Spec.tempoAmended
                 (beatHistory (fst (step threeBeats (fullTick 1%float 2600))))
                 (tempoHistory threeBeats) = Some 108%float)
    by (vm_compute; reflexivity).
  change (analyze threeBeats 2600 loudBins flatBins 1%float 0%float 0%float)
    with (step threeBeats (fullTick 1%float 2600)) in H.
  rewrite Ha in H. destruct H as [H1 H2]. split; [exact H1|].
  rewrite H2. vm_compute. reflexivity.
Defined.

End DoubleTempo.

(** ** Further properties of the beat detector *)

Section DetectorExtras.

Import AdvancedBeatDetector.

(** *** Capacities *)

Lemma analyze_patterns d now fd td bass mid treble :
  exists d5,
    fst (analyze d now fd td bass mid treble)
    = updateRhythmPatterns d5 (BeatData.isBeat (snd (analyze d now fd td bass mid treble)))
    /\ rhythmPatterns d5 = rhythmPatterns d
    /\ patternBuffer d5 = patternBuffer d.
Proof.
  unfold analyze. cbv zeta.
  set (p := pushEnergy _ _).
  assert (H3 : rhythmPatterns (fst (detectBeat p (calculateEnergy fd) now)) = rhythmPatterns d /\
               patternBuffer (fst (detectBeat p (calculateEnergy fd) now)) = patternBuffer d).
  { unfold detectBeat. destruct (_ <? 10)%nat; [now split|].
    destruct (_ && _); now split. }
  destruct (detectBeat p (calculateEnergy fd) now) as [d3 [ib c]]. cbn [fst snd] in *.
  assert (H4 : rhythmPatterns (fst (calculateTempo d3 now ib)) = rhythmPatterns d3 /\
               patternBuffer (fst (calculateTempo d3 now ib)) = patternBuffer d3).
  { unfold calculateTempo. destruct (_ || _); [now split|]. cbv zeta.
    destruct (_ =? 0)%nat; now split. }
  destruct (calculateTempo d3 now ib) as [d4 tp]. cbn [fst snd] in *.
  exists (updateBeatPhase d4 now tp). cbn [fst snd BeatData.isBeat].
  split; [reflexivity|].
  destruct H3 as [H3 H3'], H4 as [H4 H4'].
  unfold updateBeatPhase. destruct (_ =? 0)%Z; cbn [setBeatPhase rhythmPatterns patternBuffer];
    split; congruence.
Qed.

Lemma patternConfidence_le_one d pattern length :
  0 <= calculatePatternConfidence d pattern length <= 1.
Proof.
  unfold calculatePatternConfidence. cbv zeta.
  destruct (_ <? _)%nat; [lra|].
  assert (H : forall (offs : list nat) (acc : nat * nat),
             (fst acc <= snd acc)%nat ->
             let r := fold_left
                        (fun acc i =>
                           fold_left
                             (fun '(matches, total) j =>
                                ((if Bool.eqb (nth (i + j) (patternBuffer d) false)
                                               (nth j pattern false)
                                  then S matches else matches),
                                 S total))
                             (seq 0 length) acc)
                        offs acc in
             (fst r <= snd r)%nat).
  { induction offs as [|i offs IH]; intros acc Hacc; [exact Hacc|].
    cbn [fold_left]. apply IH.
    generalize (seq 0 length). intros js. revert acc Hacc.
    induction js as [|j js IHj]; intros [m t0] Hacc; [exact Hacc|].
    cbn [fold_left]. apply IHj. cbn [fst snd] in *.
    destruct (Bool.eqb _ _); cbn [fst snd]; lia. }
  specialize (H (patternOffsets (List.length (patternBuffer d)) length) (0%nat, 0%nat)
                (Nat.le_refl _)).
  cbv zeta in H.
  destruct (fold_left _ _ (0%nat, 0%nat)) as [matches total]. cbn [fst snd] in H.
  destruct (0 <? total)%nat eqn:E; [|lra].
  apply Nat.ltb_lt in E.
  assert (Ht : 0 < INR total) by (apply lt_0_INR; exact E).
  assert (Hm : 0 <= INR matches <= INR total)
    by (split; [apply pos_INR|apply le_INR; exact H]).
  split.
  - apply Rmult_le_pos; [lra|]. apply Rlt_le, Rinv_0_lt_compat, Ht.
  - apply Rmult_le_reg_r with (INR total); [exact Ht|].
    unfold Rdiv. rewrite Rmult_assoc, Rinv_l by lra. lra.
Qed.

Lemma patternConfidence_short d pattern length :
  (List.length (patternBuffer d) < length * 3)%nat ->
  calculatePatternConfidence d pattern length = 0.
Proof.
  intros H. unfold calculatePatternConfidence. cbv zeta.
  apply Nat.ltb_lt in H. now rewrite H.
Qed.

Lemma bumpFirstMatch_stored length pattern ps ps' :
  Forall storedPattern ps ->
  bumpFirstMatch length pattern ps = Some ps' ->
  Forall storedPattern ps' /\ List.length ps' = List.length ps.
Proof.
  revert ps'. induction ps as [|p ps IH]; intros ps' Hall Hb; [discriminate|].
  inversion Hall as [|? ? Hp Hps]; subst. cbn [bumpFirstMatch] in Hb.
  destruct (_ && _).
  - injection Hb as <-. split; [|reflexivity].
    constructor; [|exact Hps].
    destruct Hp as (Hper & Hlen & Hc).
    repeat split; cbn [RhythmPattern.period RhythmPattern.pattern RhythmPattern.confidence];
      try assumption.
    + apply Rmin_glb_lt; lra.
    + apply Rmin_l.
  - destruct (bumpFirstMatch length pattern ps) as [qs|]; [|discriminate].
    injection Hb as <-. destruct (IH qs Hps eq_refl) as [H1 H2].
    split; [constructor; assumption|cbn [List.length]; now rewrite H2].
Qed.

Lemma sliceLast_length {A} (n : nat) (l : list A) :
  (n <= length l)%nat -> length (JS.sliceLast n l) = n.
Proof. intros H. unfold JS.sliceLast. rewrite length_skipn. lia. Qed.

Lemma insertDesc_stored p l :
  storedPattern p -> Forall storedPattern l -> Forall storedPattern (insertDesc p l).
Proof.
  intros Hp. induction 1 as [|q l Hq Hl IH]; cbn [insertDesc].
  - constructor; [exact Hp|constructor].
  - destruct (JS.leb _ _).
    + constructor; [exact Hp|]. constructor; assumption.
    + constructor; assumption.
Qed.

Lemma sortDesc_stored l : Forall storedPattern l -> Forall storedPattern (sortDesc l).
Proof.
  unfold sortDesc. induction 1 as [|p l Hp Hl IH]; cbn [fold_right]; [constructor|].
  now apply insertDesc_stored.
Qed.

Lemma Forall_firstn {A} (P : A -> Prop) n (l : list A) :
  Forall P l -> Forall P (firstn n l).
Proof.
  intros H. revert n. induction H as [|x l Hx Hl IH]; intros [|n]; cbn [firstn];
    constructor; auto.
Qed.

Lemma Forall_filter {A} (P : A -> Prop) (f : A -> bool) (l : list A) :
  Forall P l -> Forall P (filter f l).
Proof.
  intros H. apply Forall_forall. intros x Hx. apply filter_In in Hx.
  rewrite Forall_forall in H. now apply H.
Qed.

(** The patterns [analyzeRhythmPatterns] leaves: at most five, each stored
    with period 4 or 8. *)
Lemma analyzeRhythmPatterns_stored d :
  (length (patternBuffer d) <= 32)%nat ->
  Forall storedPattern (rhythmPatterns d) ->
  Forall storedPattern (rhythmPatterns (analyzeRhythmPatterns d)) /\
  (length (rhythmPatterns (analyzeRhythmPatterns d)) <= 5)%nat /\
  patternBuffer (analyzeRhythmPatterns d) = patternBuffer d.
Proof.
  intros Hbuf Hall. unfold analyzeRhythmPatterns. cbv zeta.
  set (body := fun (d : t) (length : nat) => _).
  assert (Hstep : forall d0 n, In n [4; 8; 16]%nat ->
             patternBuffer d0 = patternBuffer d ->
             Forall storedPattern (rhythmPatterns d0) ->
             patternBuffer (body d0 n) = patternBuffer d /\
             Forall storedPattern (rhythmPatterns (body d0 n))).
  { intros d0 n Hn Hpb Hps. unfold body.
    destruct (_ <? n * 2)%nat eqn:E2; [now split|]. apply Nat.ltb_ge in E2.
    cbv zeta.
    destruct (JS.gtb _ 0.6) eqn:Eg; [|now split].
    apply gtb_true_iff in Eg.
    assert (Hn' : n = 4%nat \/ n = 8%nat).
    { destruct Hn as [<-|[<-|[<-|[]]]]; [now left|now right|].
      exfalso. rewrite patternConfidence_short in Eg; [lra|].
      rewrite Hpb. lia. }
    destruct (bumpFirstMatch _ _ _) as [ps|] eqn:Eb.
    - destruct (bumpFirstMatch_stored _ _ _ _ Hps Eb) as [H1 _].
      cbn [setRhythmPatterns patternBuffer rhythmPatterns]. now split.
    - cbn [setRhythmPatterns patternBuffer rhythmPatterns]. split; [exact Hpb|].
      unfold JS.push. apply Forall_app. split; [exact Hps|].
      constructor; [|constructor].
      pose proof (patternConfidence_le_one d0
                    (JS.sliceLast n (patternBuffer d0)) n) as [_ Hle].
      repeat split;
        cbn [RhythmPattern.period RhythmPattern.pattern RhythmPattern.confidence];
        try assumption; try lra.
      apply sliceLast_length. lia. }
  assert (Hfold : forall (ns : list nat) d0,
             (forall n, In n ns -> In n [4; 8; 16]%nat) ->
             patternBuffer d0 = patternBuffer d ->
             Forall storedPattern (rhythmPatterns d0) ->
             patternBuffer (fold_left body ns d0) = patternBuffer d /\
             Forall storedPattern (rhythmPatterns (fold_left body ns d0))).
  { induction ns as [|n ns IH]; intros d0 Hns Hpb Hps; [now split|].
    cbn [fold_left].
    destruct (Hstep d0 n (Hns n (or_introl eq_refl)) Hpb Hps) as [H1 H2].
    apply IH; [|exact H1|exact H2]. intros m Hm. apply Hns. now right. }
  destruct (Hfold [4; 8; 16]%nat d (fun n H => H) eq_refl Hall) as [Hpb Hps].
  set (d1 := fold_left body [4; 8; 16]%nat d) in *.
  pose proof (Forall_filter storedPattern
                (fun p => JS.gtb (RhythmPattern.confidence p) 0.3) _ Hps) as Hkept.
  destruct (5 <? _)%nat eqn:E5;
    cbn [setRhythmPatterns patternBuffer rhythmPatterns].
  - split; [|split; [|exact Hpb]].
    + unfold JS.sliceFirst. apply Forall_firstn, sortDesc_stored, Hkept.
    + unfold JS.sliceFirst. rewrite length_firstn. lia.
  - apply Nat.ltb_ge in E5. split; [exact Hkept|]. split; [exact E5|exact Hpb].
Qed.

Lemma updateRhythmPatterns_stored d isBeat :
  (length (patternBuffer d) <= 32)%nat ->
  (length (rhythmPatterns d) <= 5)%nat ->
  Forall storedPattern (rhythmPatterns d) ->
  (length (patternBuffer (updateRhythmPatterns d isBeat)) <= 32)%nat /\
  (length (rhythmPatterns (updateRhythmPatterns d isBeat)) <= 5)%nat /\
  Forall storedPattern (rhythmPatterns (updateRhythmPatterns d isBeat)).
Proof.
  intros Hbuf Hlen Hall. unfold updateRhythmPatterns. cbv zeta.
  set (d1 := mk _ _ _ _ _ _ _ _ _ _ _ _ _).
  assert (Hb1 : (length (patternBuffer d1) <= 32)%nat)
    by (apply pushCapped_length; exact Hbuf).
  destruct (_ && _).
  - destruct (analyzeRhythmPatterns_stored d1 Hb1 Hall) as (H1 & H2 & H3).
    rewrite H3. auto.
  - auto.
Qed.

Lemma reachable_invariants d :
  reachable d -> withinCaps d /\ Forall storedPattern (rhythmPatterns d).
Proof.
  induction 1 as [sr bs | d k _ [IHc IHp] | d _ _].
  - split; [|constructor]. unfold withinCaps. cbn. repeat split; lia.
  - unfold step.
    destruct IHc as (He & Hb & Hm & Ht & Hbh & Hth & Hpb & Hrp).
    destruct (analyze_frame d (now k) (frequencyData k) (timeData k)
                (bass k) (mid k) (treble k))
      as (_&_&_& Fe & Fb & Fm & Ft & Fbh &_& Fth &_).
    destruct (analyze_patterns d (now k) (frequencyData k) (timeData k)
                (bass k) (mid k) (treble k)) as (d5 & Hd5 & Hr5 & Hp5).
    cbv zeta in *.
    destruct (updateRhythmPatterns_stored d5
                (BeatData.isBeat (snd (analyze d (now k) (frequencyData k) (timeData k)
                                         (bass k) (mid k) (treble k))))
                ltac:(rewrite Hp5; exact Hpb) ltac:(rewrite Hr5; exact Hrp)
                ltac:(rewrite Hr5; exact IHp)) as (U1 & U2 & U3).
    rewrite <- Hd5 in U1, U2, U3.
    split; [|exact U3].
    unfold withinCaps. rewrite Fe, Fb, Fm, Ft, Fbh, Fth.
    repeat split; try (apply pushCapped_length; assumption); try assumption.
    + rewrite (proj2 (detectBeat_tempoHistory _ _ _)).
      destruct (fst (snd _)); [apply pushCapped_length|]; exact Hbh.
    + apply calculateTempo_cap.
      now rewrite (proj1 (detectBeat_tempoHistory _ _ _)).
  - split; [|constructor]. unfold withinCaps. cbn. repeat split; lia.
Qed.

Lemma analyze_timeSignature d now fd td bass mid treble :
  reachable d ->
  BeatData.timeSignature (snd (analyze d now fd td bass mid treble)) = 4%nat.
Proof.
  intros Hr.
  pose proof (reach_analyze d (mkTick now fd td bass mid treble) Hr) as Hr'.
  unfold step in Hr'. cbn [AdvancedBeatDetector.now frequencyData timeData
                           AdvancedBeatDetector.bass AdvancedBeatDetector.mid
                           AdvancedBeatDetector.treble] in Hr'.
  destruct (reachable_invariants _ Hr') as [_ Hps].
  destruct (analyze_frame d now fd td bass mid treble)
    as (_&_&_&_&_&_&_&_&_&_&_&_&_&_&_& Hts &_).
  cbv zeta in Hts. rewrite Hts. clear Hts.
  unfold estimateTimeSignature. cbv zeta.
  pose proof (Forall_filter storedPattern
                (fun p => JS.gtb (RhythmPattern.confidence p) 0.7) _ Hps) as Hstrong.
  destruct (filter _ _) as [|p strong]; [reflexivity|].
  cbn [length Nat.eqb map existsb].
  inversion Hstrong as [|? ? [[Hp|Hp] _] _]; subst; rewrite Hp; cbn [Nat.eqb orb];
    [reflexivity|now rewrite orb_true_r].
Qed.

End DetectorExtras.

Section DetectorRuns.

Import AdvancedBeatDetector.

(** *** Histories as sliding windows *)

Lemma firstn_app_firstn {A} (n m : nat) (u v : list A) :
  (n <= m)%nat -> firstn n (u ++ firstn m v) = firstn n (u ++ v).
Proof.
  revert n. induction u as [|x u IH]; intros n Hnm.
  - cbn [app]. rewrite firstn_firstn. now rewrite Nat.min_l.
  - destruct n as [|n]; [reflexivity|]. cbn [app firstn]. f_equal. apply IH. lia.
Qed.

Lemma lastn_app_lastn {A} (n : nat) (a b : list A) :
  Spec.lastn n (Spec.lastn n a ++ b) = Spec.lastn n (a ++ b).
Proof.
  unfold Spec.lastn. rewrite !rev_app_distr, rev_involutive.
  now rewrite firstn_app_firstn.
Qed.

Lemma lastn_length {A} (n : nat) (l : list A) : (length (Spec.lastn n l) <= n)%nat.
Proof. unfold Spec.lastn. rewrite length_rev, length_firstn. lia. Qed.

Lemma lastn_all {A} (n : nat) (l : list A) :
  (length l <= n)%nat -> Spec.lastn n l = l.
Proof.
  intros H. unfold Spec.lastn. rewrite firstn_all2 by (rewrite length_rev; exact H).
  apply rev_involutive.
Qed.

Lemma fold_pushCapped_lastn {A} (cap : nat) (xs h : list A) :
  (length h <= cap)%nat ->
  fold_left (JS.pushCapped cap) xs h = Spec.lastn cap (h ++ xs).
Proof.
  revert h. induction xs as [|x xs IH]; intros h Hh.
  - cbn [fold_left]. rewrite app_nil_r. symmetry. now apply lastn_all.
  - cbn [fold_left]. rewrite IH by (apply pushCapped_length; exact Hh).
    rewrite pushCapped_lastn by exact Hh.
    rewrite lastn_app_lastn, <- app_assoc. reflexivity.
Qed.

Lemma run_histories (ticks : list Tick) :
  forall d,
    energyHistory (fst (run d ticks))
    = fold_left (JS.pushCapped 43)
        (map (fun k => calculateEnergy (frequencyData k)) ticks) (energyHistory d) /\
    bassHistory (fst (run d ticks))
    = fold_left (JS.pushCapped 20) (map bass ticks) (bassHistory d) /\
    midHistory (fst (run d ticks))
    = fold_left (JS.pushCapped 20) (map mid ticks) (midHistory d) /\
    trebleHistory (fst (run d ticks))
    = fold_left (JS.pushCapped 20) (map treble ticks) (trebleHistory d) /\
    patternBuffer (fst (run d ticks))
    = fold_left (JS.pushCapped 32)
        (map (fun o => BeatData.isBeat (snd o)) (snd (run d ticks))) (patternBuffer d).
Proof.
  induction ticks as [|k ticks IH]; intros d.
  - cbn [run fst snd map fold_left]. repeat split.
  - cbn [run map fold_left].
    destruct (analyze_frame d (now k) (frequencyData k) (timeData k)
                (bass k) (mid k) (treble k))
      as (_&_&_& Fe & Fb & Fm & Ft &_&_&_& Fp &_& Fi &_).
    cbv zeta in Fe, Fb, Fm, Ft, Fp, Fi. rewrite <- Fi in Fp. clear Fi.
    rewrite <- !step_analyze in *.
    destruct (step d k) as [d1 out]. cbn [fst snd] in *.
    destruct (IH d1) as (He & Hb & Hm & Ht & Hp).
    destruct (run d1 ticks) as [d2 outs]. cbn [fst snd map fold_left] in *.
    rewrite He, Hb, Hm, Ht, Hp, Fe, Fb, Fm, Ft, Fp. repeat split.
Qed.

(** *** Time stamps *)

Lemma sorted_le_last (l : list Z) :
  StronglySorted (fun a b => (b - a >= minBeatInterval)%Z) l ->
  Forall (fun a => (a <= last l 0)%Z) l.
Proof.
  unfold minBeatInterval.
  induction 1 as [|a l Hs IH Ha]; [constructor|].
  destruct l as [|b l].
  - constructor; [cbn [last]; lia|constructor].
  - constructor.
    + change (last (a :: b :: l) 0%Z) with (last (b :: l) 0%Z).
      inversion Ha as [|? ? Hab _]; subst.
      inversion IH as [|? ? Hb _]; subst. lia.
    + exact IH.
Qed.

Lemma sorted_snoc (l : list Z) (x : Z) :
  StronglySorted (fun a b => (b - a >= minBeatInterval)%Z) l ->
  (l = [] \/ (x - last l 0 >= minBeatInterval)%Z) ->
  StronglySorted (fun a b => (b - a >= minBeatInterval)%Z) (l ++ [x]).
Proof.
  unfold minBeatInterval.
  intros Hs Hx. pose proof (sorted_le_last l Hs) as Hle.
  induction Hs as [|a l Hs IH Ha]; cbn [app].
  - repeat constructor.
  - inversion Hle as [|? ? Hal Hle']; subst.
    assert (Hgap : (x - last (a :: l) 0 >= 300)%Z)
      by (destruct Hx as [Hx|Hx]; [discriminate|exact Hx]).
    constructor.
    + destruct l as [|b l]; [repeat constructor|].
      apply IH.
      * right. exact Hgap.
      * apply sorted_le_last. exact Hs.
    + apply Forall_app. split; [exact Ha|].
      constructor; [|constructor]. lia.
Qed.

Lemma sorted_tl (l : list Z) :
  StronglySorted (fun a b => (b - a >= minBeatInterval)%Z) l ->
  StronglySorted (fun a b => (b - a >= minBeatInterval)%Z) (tl l).
Proof. intros H. destruct l; [exact H|]. now inversion H. Qed.

Lemma last_snoc {A} (l : list A) (x d : A) : last (l ++ [x]) d = x.
Proof. apply last_last. Qed.

Lemma pushCapped_stamps (h : list Z) (x : Z) :
  StronglySorted (fun a b => (b - a >= minBeatInterval)%Z) h ->
  (h = [] \/ (x - last h 0 >= minBeatInterval)%Z) ->
  StronglySorted (fun a b => (b - a >= minBeatInterval)%Z) (JS.pushCapped 8 h x) /\
  (8 <= length h -> last (JS.pushCapped 8 h x) 0%Z = x)%nat /\
  (length h < 8 -> JS.pushCapped 8 h x = h ++ [x])%nat.
Proof.
  intros Hs Hx. pose proof (sorted_snoc h x Hs Hx) as Hs'.
  unfold JS.pushCapped, JS.push, JS.shift. cbv zeta.
  rewrite length_app. cbn [length].
  destruct (8 <? length h + 1)%nat eqn:E.
  - apply Nat.ltb_lt in E. split; [now apply sorted_tl|]. split; [|lia].
    intros _. destruct h as [|a h]; [cbn [length] in E; lia|].
    cbn [app tl]. destruct h as [|b h]; [cbn [length] in E; lia|].
    apply last_snoc.
  - apply Nat.ltb_ge in E. split; [exact Hs'|]. split; [lia|reflexivity].
Qed.

Lemma reachable_stamps d : reachable d -> stampsOk d.
Proof.
  induction 1 as [sr bs | d k _ [IHs IHl] | d _ _].
  - split; [constructor|now left].
  - unfold step.
    destruct (analyze_beatHistory d (now k) (frequencyData k) (timeData k)
                (bass k) (mid k) (treble k)) as [Hbh Hl].
    destruct (analyze_lastBeatTime d (now k) (frequencyData k) (timeData k)
                (bass k) (mid k) (treble k)) as [Hacc _].
    cbv zeta in *. unfold stampsOk. rewrite Hbh, Hl.
    destruct (BeatData.isBeat _).
    + destruct (Hacc eq_refl) as [_ Hgap].
      assert (Hx : beatHistory d = [] \/
                   (now k - last (beatHistory d) 0 >= minBeatInterval)%Z).
      { destruct IHl as [He|He]; [now left|right]. rewrite He. exact Hgap. }
      destruct (pushCapped_stamps (beatHistory d) (now k) IHs Hx) as (P1 & P2 & P3).
      split; [exact P1|]. right.
      destruct (Nat.le_gt_cases 8 (length (beatHistory d))) as [H8|H8].
      * apply P2, H8.
      * rewrite (P3 H8). apply last_snoc.
    + split; assumption.
  - split; [constructor|now left].
Qed.

Lemma consecutive_gaps (l : list Z) :
  StronglySorted (fun a b => (b - a >= minBeatInterval)%Z) l ->
  Forall (fun i => (minBeatInterval <= i)%Z) (Spec.consecutive l).
Proof.
  induction 1 as [|a l Hs IH Ha]; [constructor|].
  destruct l as [|b l]; [constructor|].
  change (Spec.consecutive (a :: b :: l))
    with ((b - a)%Z :: Spec.consecutive (b :: l)).
  constructor; [|exact IH]. inversion Ha; subst. lia.
Qed.

(** *** The beat phase on an accepted beat *)

Lemma rem_zero b : JS.rem 0 b = 0.
Proof.
  unfold JS.rem, JS.truncZ. unfold Rdiv. rewrite Rmult_0_l.
  destruct (Rlt_dec 0 0) as [H|_]; [lra|].
  replace (Zfloor 0) with 0%Z; [lra|].
  symmetry. apply Zfloor_eq. simpl. lra.
Qed.

(** *** The tempo before the second beat *)

Lemma run_default_tempo (ticks : list Tick) :
  forall d,
    tempoHistory d = [] ->
    (length (beatHistory d) + length (acceptedBeats (snd (run d ticks))) < 2)%nat ->
    Forall (fun o => BeatData.tempo (snd o) = 120) (snd (run d ticks)).
Proof.
  induction ticks as [|k ticks IH]; intros d Hth Hfew.
  - cbn [run snd]. constructor.
  - rewrite acceptedBeats_cons, length_app in Hfew.
    destruct (analyze_beatHistory d (now k) (frequencyData k) (timeData k)
                (bass k) (mid k) (treble k)) as [Hbh _].
    cbv zeta in Hbh. rewrite <- !step_analyze in Hbh.
    assert (Hlen : (length (beatHistory (fst (step d k)))
                    = length (beatHistory d)
                      + length (if BeatData.isBeat (snd (step d k))
                                then [now k] else []))%nat).
    { rewrite Hbh. destruct (BeatData.isBeat (snd (step d k))).
      - cbn [length] in Hfew. cbn [length].
        destruct (beatHistory d) as [|b bh]; [reflexivity|cbn [length] in Hfew; lia].
      - cbn [length]. lia. }
    assert (Hhold : BeatData.isBeat (snd (step d k)) = false
                    \/ (length (beatHistory (fst (step d k))) < 2)%nat)
      by (right; lia).
    destruct (step_tempo_hold d k Hhold) as [Htempo Hth'].
    rewrite Hth in Htempo, Hth'. cbn [last] in Htempo.
    specialize (IH (fst (step d k)) Hth' ltac:(lia)).
    cbn [run]. destruct (step d k) as [d1 out]. cbn [fst snd] in *.
    destruct (run d1 ticks) as [d2 outs]. cbn [snd] in *.
    constructor; [exact Htempo|exact IH].
Qed.

End DetectorRuns.

(** ** The beat detector in use: capacities, windows, spacing, patterns *)

Section DetectorProperties.

Import AdvancedBeatDetector.

(** X1: whatever sequence of [analyze] and [reset] calls a detector has
    gone through, its histories stay within their capacities: 43 energies,
    20 values per frequency band, 8 beat time stamps, 10 tempi, 32 pattern
    flags and 5 rhythm patterns. *)
Theorem history_capacities (d : t) : reachable d -> withinCaps d.
Proof. intros H. exact (proj1 (reachable_invariants d H)). Qed.

Lemma history_capacities_witness : reachable afterBeat2 /\ withinCaps afterBeat2.
Proof.
  split; [exact afterBeat2_reachable|].
  apply (history_capacities afterBeat2). exact afterBeat2_reachable.
Defined.

(** X2: the histories are sliding windows over the input.  After any run
    of a fresh detector the energy history holds the energies of the last
    43 frames, each band history the last 20 band values handed in, and the
    pattern buffer the beat decisions of the last 32 calls, all oldest
    first: when a history is full, the oldest entry is the one dropped. *)
Theorem history_windows (sr bs : R) (ticks : list Tick) :
  let d := fst (run (new sr bs) ticks) in
  energyHistory d
  = Spec.lastn 43 (map (fun k => calculateEnergy (frequencyData k)) ticks) /\
  bassHistory d = Spec.lastn 20 (map bass ticks) /\
  midHistory d = Spec.lastn 20 (map mid ticks) /\
  trebleHistory d = Spec.lastn 20 (map treble ticks) /\
  patternBuffer d
  = Spec.lastn 32 (map (fun o => BeatData.isBeat (snd o))
                       (snd (run (new sr bs) ticks))).
Proof.
  cbv zeta.
  destruct (run_histories ticks (new sr bs)) as (He & Hb & Hm & Ht & Hp).
  rewrite He, Hb, Hm, Ht, Hp.
  cbn [new energyHistory bassHistory midHistory trebleHistory patternBuffer].
  rewrite !fold_pushCapped_lastn by (cbn [length]; lia).
  repeat split.
Qed.

(** X3: the energy of a non-empty frame, the root mean square of its bytes
    over 255, lies in [0, 1]. *)
Theorem energy_in_unit_interval (fd : JS.Uint8Array) :
  fd <> [] -> 0 <= calculateEnergy fd <= 1.
Proof.
  intros Hne. unfold calculateEnergy. cbv zeta.
  assert (Hsum : forall (l : list byte) (a : R),
             0 <= a ->
             a <= fold_left (fun sum b => sum + JS.byteval b * JS.byteval b) l a
               <= a + INR (length l) * (255 * 255)).
  { induction l as [|b l IH]; intros a Ha.
    - cbn [fold_left length INR]. lra.
    - cbn [fold_left length]. rewrite S_INR.
      pose proof (byteval_nonneg b) as H0. pose proof (byteval_le_255 b) as H1.
      assert (Hsq : 0 <= JS.byteval b * JS.byteval b <= 255 * 255) by nra.
      assert (Ha' : 0 <= a + JS.byteval b * JS.byteval b) by lra.
      specialize (IH (a + JS.byteval b * JS.byteval b) Ha'). lra. }
  specialize (Hsum fd 0 (Rle_refl 0)).
  set (s := fold_left _ fd 0) in *.
  assert (Hn : 0 < INR (length fd)).
  { apply lt_0_INR. destruct fd; [contradiction|cbn [length]; lia]. }
  assert (Hq : 0 <= s / INR (length fd) <= 255 * 255).
  { split.
    - apply Rmult_le_pos; [lra|]. apply Rlt_le, Rinv_0_lt_compat, Hn.
    - apply Rmult_le_reg_r with (INR (length fd)); [exact Hn|].
      unfold Rdiv. rewrite Rmult_assoc, Rinv_l by lra. lra. }
  split.
  - apply Rmult_le_pos; [apply sqrt_pos|lra].
  - apply Rmult_le_reg_r with 255; [lra|].
    unfold Rdiv. rewrite Rmult_assoc, Rinv_l by lra.
    rewrite Rmult_1_r, Rmult_1_l.
    apply Rle_trans with (sqrt (255 * 255)).
    + apply sqrt_le_1; unfold Rdiv in Hq; lra.
    + rewrite sqrt_square; lra.
Qed.

Lemma energy_in_unit_interval_witness :
  [x80; xff] <> [] /\ 0 <= calculateEnergy [x80; xff] <= 1.
Proof.
  split; [discriminate|].
  apply (energy_in_unit_interval [x80; xff]). discriminate.
Defined.

(** X4: the intensity is at most 1 whatever the inputs, and at least 0
    when the three band levels and the energy are not negative; the code
    clamps from above only. *)
Theorem intensity_range (bass mid treble energy : R) :
  calculateIntensity bass mid treble energy <= 1 /\
  (0 <= bass -> 0 <= mid -> 0 <= treble -> 0 <= energy ->
   0 <= calculateIntensity bass mid treble energy).
Proof.
  unfold calculateIntensity. split; [apply Rmin_l|].
  intros Hb Hm Ht He. apply Rmin_glb; lra.
Qed.

Lemma intensity_range_witness :
  0 <= calculateIntensity 1 0.5 0.25 1 <= 1.
Proof.
  destruct (intensity_range 1 0.5 0.25 1) as [Hhi Hlo].
  split; [apply Hlo; lra|exact Hhi].
Defined.

(** X5: the time signature reported by [analyze] is always 4.  A stored
    rhythm pattern has period 4 or 8, so [estimateTimeSignature] never
    reaches its branches for 3 and 2. *)
Theorem time_signature_is_four (d : t) (now : Z) (fd td : JS.Uint8Array)
    (bass mid treble : R) :
  reachable d ->
  BeatData.timeSignature (snd (analyze d now fd td bass mid treble)) = 4%nat.
Proof. apply analyze_timeSignature. Qed.

Lemma time_signature_is_four_witness :
  reachable afterBeat2 /\
  BeatData.timeSignature (snd (analyze afterBeat2 2400 loudFrame flatWave 1 0 0)) = 4%nat.
Proof.
  split; [exact afterBeat2_reachable|].
  apply (time_signature_is_four afterBeat2 2400 loudFrame flatWave 1 0 0).
  exact afterBeat2_reachable.
Defined.

(** X6: every rhythm pattern a detector holds has period 4 or 8, as many
    flags as its period and a confidence in (0.3, 1].  The pattern length 16
    of [analyzeRhythmPatterns] is never stored: its confidence needs 48
    buffered flags and the buffer holds 32. *)
Theorem stored_rhythm_patterns (d : t) :
  reachable d -> Forall storedPattern (rhythmPatterns d).
Proof. intros H. exact (proj2 (reachable_invariants d H)). Qed.

Lemma stored_rhythm_patterns_witness :
  reachable afterBeat2 /\ Forall storedPattern (rhythmPatterns afterBeat2).
Proof.
  split; [exact afterBeat2_reachable|].
  apply (stored_rhythm_patterns afterBeat2). exact afterBeat2_reachable.
Defined.

(** X7: once the pattern buffer holds 32 flags it stays at 32, and every
    further call of [updateRhythmPatterns] runs [analyzeRhythmPatterns]:
    the test [length % 16 === 0] then holds on every call, not on every
    sixteenth. *)
Theorem rhythm_analysis_on_every_call_when_full (d : t) (isBeat : bool) :
  length (patternBuffer d) = 32%nat ->
  updateRhythmPatterns d isBeat
  = analyzeRhythmPatterns
      (mk (sampleRate d) (bufferSize d) (energyHistory d) (beatHistory d)
          (tempoHistory d) (lastBeatTime d) (beatInterval d) (beatPhase d)
          (bassHistory d) (midHistory d) (trebleHistory d) (rhythmPatterns d)
          (tl (patternBuffer d) ++ [isBeat])) /\
  length (patternBuffer (updateRhythmPatterns d isBeat)) = 32%nat.
Proof.
  intros H32.
  assert (Hpush : JS.pushCapped 32 (patternBuffer d) isBeat
                  = tl (patternBuffer d) ++ [isBeat] /\
                  length (JS.pushCapped 32 (patternBuffer d) isBeat) = 32%nat).
  { unfold JS.pushCapped, JS.push, JS.shift. cbv zeta.
    rewrite length_app, H32. cbn [length Nat.add Nat.ltb Nat.leb].
    destruct (patternBuffer d) as [|b buf]; [discriminate|].
    cbn [app tl]. split; [reflexivity|].
    rewrite length_app. cbn [length] in *. lia. }
  destruct Hpush as [Hp Hl].
  unfold updateRhythmPatterns. cbv zeta.
  cbn [patternBuffer]. rewrite Hl. cbn [Nat.leb Nat.modulo Nat.divmod Nat.eqb andb fst snd Nat.sub].
  rewrite Hp. split; [reflexivity|].
  set (d1 := mk _ _ _ _ _ _ _ _ _ _ _ _ _).
  assert (Hb1 : (length (patternBuffer d1) <= 32)%nat).
  { unfold d1. cbn [patternBuffer]. rewrite <- Hp, Hl. lia. }
  assert (H1 : patternBuffer (analyzeRhythmPatterns d1) = patternBuffer d1).
  { unfold analyzeRhythmPatterns. cbv zeta.
    set (body := fun (d : t) (length : nat) => _).
    assert (Hfold : forall ns d0, patternBuffer (fold_left body ns d0) = patternBuffer d0).
    { induction ns as [|n ns IH]; intros d0; [reflexivity|].
      cbn [fold_left]. rewrite IH. unfold body.
      destruct (_ <? _)%nat; [reflexivity|]. cbv zeta.
      destruct (JS.gtb _ _); [|reflexivity].
      destruct (bumpFirstMatch _ _ _); reflexivity. }
    destruct (5 <? _)%nat; cbn [setRhythmPatterns patternBuffer]; apply Hfold. }
  rewrite H1. unfold d1. cbn [patternBuffer]. rewrite <- Hp. exact Hl.
Qed.

Lemma rhythm_analysis_on_every_call_when_full_witness :
  let d := mk 44100 1024 [] [] [] 0 0 0 [] [] [] [] (repeat false 32) in
  length (patternBuffer d) = 32%nat /\
  length (patternBuffer (updateRhythmPatterns d true)) = 32%nat.
Proof.
  cbv zeta. split; [reflexivity|].
  apply (rhythm_analysis_on_every_call_when_full
           (mk 44100 1024 [] [] [] 0 0 0 [] [] [] [] (repeat false 32)) true).
  reflexivity.
Defined.

(** X8: the stored beat time stamps of a detector are at least 300 ms
    apart, pairwise and in order, the newest being [lastBeatTime]; hence every
    inter-beat interval [calculateTempo] works with is at least 300 ms. *)
Theorem beat_history_spacing (d : t) :
  reachable d ->
  stampsOk d /\
  Forall (fun i => (minBeatInterval <= i)%Z) (intervalsOf (beatHistory d)).
Proof.
  intros Hr. pose proof (reachable_stamps d Hr) as Hs.
  split; [exact Hs|].
  rewrite intervalsOf_consecutive. apply consecutive_gaps. exact (proj1 Hs).
Qed.

Lemma beat_history_spacing_witness :
  reachable afterBeat2 /\
  Forall (fun i => (minBeatInterval <= i)%Z) (intervalsOf (beatHistory afterBeat2)).
Proof.
  split; [exact afterBeat2_reachable|].
  exact (proj2 (beat_history_spacing afterBeat2 afterBeat2_reachable)).
Defined.

(** X9: on a call that accepts a beat the reported beat phase is 0: the
    phase is measured from [lastBeatTime], which the beat has just set to the
    current clock reading. *)
Theorem accepted_beat_phase_zero (d : t) (now : Z) (fd td : JS.Uint8Array)
    (bass mid treble : R) :
  BeatData.isBeat (snd (analyze d now fd td bass mid treble)) = true ->
  BeatData.beatPhase (snd (analyze d now fd td bass mid treble)) = 0.
Proof.
  destruct (analyze_frame d now fd td bass mid treble)
    as (_&_&_&_&_&_&_&_&_&_&_& Hph & Hb &_& Hout &_).
  cbv zeta in *. rewrite Hb, Hout, Hph. clear Hb Hout Hph.
  set (energy := calculateEnergy fd).
  set (p := pushEnergy _ energy).
  intros Hacc.
  destruct (detectBeat_accept _ _ _ Hacc) as (_ & _ & _ & Hn & _).
  rewrite Hacc.
  set (d3 := fst (detectBeat p energy now)) in *.
  assert (H4 : lastBeatTime (fst (calculateTempo d3 now true)) = now).
  { unfold calculateTempo. destruct (_ || _); [exact Hn|]. cbv zeta.
    destruct (_ =? 0)%nat; exact Hn. }
  unfold updateBeatPhase. rewrite H4.
  destruct (now =? 0)%Z; [reflexivity|]. cbv zeta.
  cbn [setBeatPhase beatPhase].
  rewrite Z.sub_diag, rem_zero. unfold Rdiv. apply Rmult_0_l.
Qed.

Lemma accepted_beat_phase_zero_witness :
  BeatData.isBeat (snd (step afterWarmup (loudTick 1000))) = true /\
  BeatData.beatPhase (snd (step afterWarmup (loudTick 1000))) = 0.
Proof.
  split; [exact beat1_accepted|].
  rewrite step_analyze.
  apply (accepted_beat_phase_zero afterWarmup (AdvancedBeatDetector.now (loudTick 1000))
           (frequencyData (loudTick 1000)) (timeData (loudTick 1000))
           (AdvancedBeatDetector.bass (loudTick 1000))
           (AdvancedBeatDetector.mid (loudTick 1000))
           (AdvancedBeatDetector.treble (loudTick 1000))).
  rewrite <- step_analyze. exact beat1_accepted.
Defined.

(** X10: a fresh detector reports the default tempo 120 on every call
    until a second beat has been accepted: with fewer than two stamped beats
    [calculateTempo] has no interval and the tempo history is still empty. *)
Theorem default_tempo_before_second_beat (sr bs : R) (ticks : list Tick) :
  (length (acceptedBeats (snd (run (new sr bs) ticks))) < 2)%nat ->
  Forall (fun o => BeatData.tempo (snd o) = 120) (snd (run (new sr bs) ticks)).
Proof.
  intros H. apply run_default_tempo; [reflexivity|].
  cbn [new beatHistory length]. lia.
Qed.

Lemma default_tempo_before_second_beat_witness :
  acceptedBeats (snd (run (new 44100 1024) (warmup ++ [loudTick 1000]))) = [1000%Z] /\
  Forall (fun o => BeatData.tempo (snd o) = 120)
         (snd (run (new 44100 1024) (warmup ++ [loudTick 1000]))).
Proof.
  assert (Hb : acceptedBeats (snd (run (new 44100 1024) (warmup ++ [loudTick 1000])))
               = [1000%Z]).
  { rewrite acceptedBeats_app. unfold warmup at 1. rewrite acceptedBeats_silent.
    change (new 44100 1024) with newDefault. rewrite <- afterWarmup_eq.
    rewrite acceptedBeats_cons, beat1_accepted. reflexivity. }
  split; [exact Hb|].
  apply (default_tempo_before_second_beat 44100 1024 (warmup ++ [loudTick 1000])).
  rewrite Hb. cbn [length]. lia.
Defined.

End DetectorProperties.

(** ** The spectral frontend *)

Section FrontendExtras.

Import AudioAnalyzer.

Lemma getAnalysisData_beat a now fd td :
  let volume :=
    sqrt (fold_left (fun sum b =>
                       let sample := (JS.byteval b - 128) / 128 in sum + sample * sample)
                    td 0 / INR (length td)) in
  let bass := getFrequencyBandAverage a fd 0 60 in
  fst (getAnalysisData a now fd td) = fst (detectBeat a now bass volume) /\
  AudioAnalysisData.beat (snd (getAnalysisData a now fd td))
  = snd (detectBeat a now bass volume) /\
  AudioAnalysisData.volume (snd (getAnalysisData a now fd td)) = volume /\
  AudioAnalysisData.tempo (snd (getAnalysisData a now fd td))
  = calculateTempo (fst (detectBeat a now bass volume)).
Proof.
  cbv zeta. unfold getAnalysisData. cbv zeta.
  destruct (detectBeat _ _ _ _) as [a1 beat]. cbn. repeat split.
Qed.

Lemma pushCapped_nil {A} (cap : nat) (x : A) :
  (0 < cap)%nat -> JS.pushCapped cap [] x = [x].
Proof.
  intros H. unfold JS.pushCapped, JS.push. cbv zeta. cbn [app length].
  destruct (cap <? 1)%nat eqn:E; [apply Nat.ltb_lt in E; lia|reflexivity].
Qed.

(** What [detectBeat] does to [lastBeatTime] and [tempoHistory]. *)
Lemma detectBeat_effect a now bassLevel volume :
  (snd (detectBeat a now bassLevel volume) = true ->
     (now - lastBeatTime a >= 100)%Z /\
     lastBeatTime (fst (detectBeat a now bassLevel volume)) = now /\
     tempoHistory (fst (detectBeat a now bassLevel volume))
     = JS.pushCapped 8 (tempoHistory a) (IZR (now - lastBeatTime a))) /\
  (snd (detectBeat a now bassLevel volume) = false ->
     lastBeatTime (fst (detectBeat a now bassLevel volume)) = lastBeatTime a /\
     tempoHistory (fst (detectBeat a now bassLevel volume)) = tempoHistory a).
Proof.
  unfold detectBeat. cbv zeta.
  destruct (now - lastBeatTime a <? 100)%Z eqn:E.
  - cbn [fst snd]. split; [discriminate|auto].
  - apply Z.ltb_ge in E.
    destruct (_ && _); cbn [fst snd lastBeatTime tempoHistory];
      (split; [|try discriminate; auto]); try discriminate.
    intros _. split; [lia|]. split; [reflexivity|].
    destruct (tempoHistory a) as [|x h] eqn:Eh; cbn [length Nat.ltb Nat.leb].
    + unfold JS.push. cbn [app]. symmetry. apply pushCapped_nil. lia.
    + reflexivity.
Qed.

Lemma frontendRun_gate (frames : list FrontendFrame) :
  forall a,
    Forall (fun b => (b - lastBeatTime a >= 100)%Z)
           (frontendBeats (snd (frontendRun a frames)))
    /\ StronglySorted (fun earlier later => (later - earlier >= 100)%Z)
                      (frontendBeats (snd (frontendRun a frames))).
Proof.
  induction frames as [|f frames IH]; intros a.
  - cbn. split; constructor.
  - cbn [frontendRun].
    destruct (getAnalysisData_beat a (frontendClock f) (frontendFrequencyData f)
                (frontendTimeData f)) as (Hst & Hbeat & _).
    cbv zeta in Hst, Hbeat.
    destruct (detectBeat_effect a (frontendClock f)
                (getFrequencyBandAverage a (frontendFrequencyData f) 0 60)
                (sqrt (fold_left (fun sum b =>
                         let sample := (JS.byteval b - 128) / 128 in sum + sample * sample)
                       (frontendTimeData f) 0 / INR (length (frontendTimeData f)))))
      as [Hacc Hrej].
    cbv zeta in Hacc, Hrej. rewrite <- Hst, <- Hbeat in Hacc, Hrej.
    destruct (getAnalysisData a _ _ _) as [a1 out]. cbn [fst snd] in *.
    destruct (IH a1) as [Hall Hsorted].
    destruct (frontendRun a1 frames) as [a2 outs]. cbn [snd] in *.
    unfold frontendBeats in *. cbn [filter snd].
    destruct (AudioAnalysisData.beat out); cbn [map fst].
    + destruct (Hacc eq_refl) as (Hgap & Hlast & _). rewrite Hlast in Hall.
      split.
      * constructor; [exact Hgap|].
        eapply Forall_impl; [|exact Hall]. cbv beta. intros b Hb. lia.
      * constructor; assumption.
    + destruct (Hrej eq_refl) as [Hlast _]. rewrite Hlast in Hall. now split.
Qed.

Lemma frontendRun_tempoHistory (frames : list FrontendFrame) :
  forall a,
    tempoHistory (fst (frontendRun a frames))
    = fold_left (JS.pushCapped 8)
        (map IZR (Spec.consecutive
                    (lastBeatTime a :: frontendBeats (snd (frontendRun a frames)))))
        (tempoHistory a).
Proof.
  induction frames as [|f frames IH]; intros a.
  - reflexivity.
  - cbn [frontendRun].
    destruct (getAnalysisData_beat a (frontendClock f) (frontendFrequencyData f)
                (frontendTimeData f)) as (Hst & Hbeat & _).
    cbv zeta in Hst, Hbeat.
    destruct (detectBeat_effect a (frontendClock f)
                (getFrequencyBandAverage a (frontendFrequencyData f) 0 60)
                (sqrt (fold_left (fun sum b =>
                         let sample := (JS.byteval b - 128) / 128 in sum + sample * sample)
                       (frontendTimeData f) 0 / INR (length (frontendTimeData f)))))
      as [Hacc Hrej].
    cbv zeta in Hacc, Hrej. rewrite <- Hst, <- Hbeat in Hacc, Hrej.
    destruct (getAnalysisData a _ _ _) as [a1 out]. cbn [fst snd] in *.
    specialize (IH a1).
    destruct (frontendRun a1 frames) as [a2 outs]. cbn [fst snd] in *.
    rewrite IH. unfold frontendBeats. cbn [filter snd].
    destruct (AudioAnalysisData.beat out); cbn [map fst].
    + destruct (Hacc eq_refl) as (_ & Hlast & Hth). rewrite Hlast, Hth.
      change (Spec.consecutive (lastBeatTime a :: frontendClock f
                                  :: map fst (filter (fun o => AudioAnalysisData.beat (snd o)) outs)))
        with ((frontendClock f - lastBeatTime a)%Z
                :: Spec.consecutive (frontendClock f
                     :: map fst (filter (fun o => AudioAnalysisData.beat (snd o)) outs))).
      reflexivity.
    + destruct (Hrej eq_refl) as [Hlast Hth]. now rewrite Hlast, Hth.
Qed.

Lemma volume_range (td : JS.Uint8Array) :
  td <> [] ->
  0 <= sqrt (fold_left (fun sum b =>
                          let sample := (JS.byteval b - 128) / 128 in sum + sample * sample)
                       td 0 / INR (length td)) <= 1.
Proof.
  intros Hne.
  assert (Hsum : forall (l : list byte) (a : R),
             0 <= a ->
             a <= fold_left (fun sum b =>
                               let sample := (JS.byteval b - 128) / 128 in
                               sum + sample * sample) l a
               <= a + INR (length l)).
  { induction l as [|b l IH]; intros a Ha.
    - cbn [fold_left length INR]. lra.
    - cbn [fold_left length]. rewrite S_INR. cbv zeta.
      pose proof (byteval_nonneg b) as H0. pose proof (byteval_le_255 b) as H1.
      assert (Hs : -1 <= (JS.byteval b - 128) / 128 <= 1) by lra.
      assert (Hsq : 0 <= (JS.byteval b - 128) / 128 * ((JS.byteval b - 128) / 128) <= 1).
      { set (x := (JS.byteval b - 128) / 128) in *.
        pose proof (Rmult_le_pos (1 - x) (1 + x)) as Hp.
        pose proof (Rle_0_sqr x) as Hq. unfold Rsqr in Hq. lra. }
      assert (Ha' : 0 <= a + (JS.byteval b - 128) / 128 * ((JS.byteval b - 128) / 128))
        by lra.
      specialize (IH _ Ha'). cbv zeta in IH. lra. }
  specialize (Hsum td 0 (Rle_refl 0)).
  set (s := fold_left _ td 0) in *.
  assert (Hn : 0 < INR (length td)).
  { apply lt_0_INR. destruct td; [contradiction|cbn [length]; lia]. }
  split; [apply sqrt_pos|].
  apply sqrt_le_one.
  apply Rmult_le_reg_r with (INR (length td)); [exact Hn|].
  unfold Rdiv. rewrite Rmult_assoc, Rinv_l by lra. lra.
Qed.

End FrontendExtras.

Section FrontendProperties.

Import AudioAnalyzer.

(** X11: for a non-empty wave form the frontend reports a volume in
    [0, 1], and its three band levels lie in [0, 1] whatever the spectrum. *)
Theorem frontend_levels_in_range (a : t) (now : Z) (fd td : JS.Uint8Array) :
  td <> [] ->
  let out := snd (getAnalysisData a now fd td) in
  0 <= AudioAnalysisData.volume out <= 1 /\
  0 <= AudioAnalysisData.bass out <= 1 /\
  0 <= AudioAnalysisData.mid out <= 1 /\
  0 <= AudioAnalysisData.treble out <= 1.
Proof.
  intros Hne. cbv zeta.
  destruct (getAnalysisData_beat a now fd td) as (_ & _ & Hv & _).
  destruct (getAnalysisData_arrays a now fd td) as (_ & _ & Hb & Hm & Ht).
  cbv zeta in Hv. rewrite Hv, Hb, Hm, Ht.
  split; [apply volume_range, Hne|].
  repeat split; apply band_range.
Qed.

Lemma frontend_levels_in_range_witness :
  0 <= AudioAnalysisData.volume
         (snd (getAnalysisData (new 44100) 1000 [xff; x00] [x80; xc0])) <= 1.
Proof.
  assert (Hne : [x80; xc0] <> []) by discriminate.
  exact (proj1 (frontend_levels_in_range (new 44100) 1000 [xff; x00] [x80; xc0] Hne)).
Defined.

(** X12: the frames the frontend flags as beats lie at least 100 ms apart,
    pairwise and in order, over any sequence of [getAnalysisData] calls. *)
Theorem frontend_beats_debounced (a : t) (frames : list FrontendFrame) :
  StronglySorted (fun earlier later => (later - earlier >= 100)%Z)
                 (frontendBeats (snd (frontendRun a frames))).
Proof. exact (proj2 (frontendRun_gate frames a)). Qed.

(** X13: the interval history of a fresh frontend holds the last eight
    of: the clock reading of the first flagged beat, then the
    differences between consecutive flagged beats.  The first entry is no
    inter-beat interval: [lastBeatTime] starts at 0 and the first beat pushes
    [Date.now() - 0]. *)
Theorem frontend_interval_history (sr : R) (frames : list FrontendFrame) :
  tempoHistory (fst (frontendRun (new sr) frames))
  = Spec.lastn 8
      (map IZR (Spec.consecutive
                  (0%Z :: frontendBeats (snd (frontendRun (new sr) frames))))).
Proof.
  rewrite frontendRun_tempoHistory. cbn [new lastBeatTime tempoHistory].
  apply fold_pushCapped_lastn. cbn [length]. lia.
Qed.

(** X14: a frontend whose bass history is empty never flags its first
    frame: the level is compared with an average that already contains it. *)
Theorem first_frame_is_no_beat (a : t) (now : Z) (fd td : JS.Uint8Array) :
  beatHistory a = [] ->
  AudioAnalysisData.beat (snd (getAnalysisData a now fd td)) = false.
Proof.
  intros He.
  destruct (getAnalysisData_beat a now fd td) as (_ & Hb & _).
  cbv zeta in Hb. rewrite Hb. clear Hb.
  unfold detectBeat. cbv zeta.
  destruct (_ <? 100)%Z; [reflexivity|].
  rewrite He. rewrite pushCapped_nil by lia.
  set (bassLevel := getFrequencyBandAverage a fd 0 60).
  assert (Hcmp : JS.gtb bassLevel (JS.sum [bassLevel] / INR (length [bassLevel])
                                   + beatThreshold) = false).
  { apply not_true_is_false. intros H. apply gtb_true_iff in H.
    unfold JS.sum, beatThreshold in H. cbn [fold_left length INR] in H.
    lra. }
  rewrite Hcmp. reflexivity.
Qed.

Lemma first_frame_is_no_beat_witness :
  beatHistory (new 44100) = [] /\
  AudioAnalysisData.beat (snd (getAnalysisData (new 44100) 1000 [xff; x00] [x80; xc0]))
  = false.
Proof.
  split; [reflexivity|].
  apply (first_frame_is_no_beat (new 44100) 1000 [xff; x00] [x80; xc0]). reflexivity.
Defined.

End FrontendProperties.

(** ** The spectral features *)

Section AnalyzerExtras.

Import AdvancedAudioAnalyzer.

Lemma binFrequency_range fd i :
  (i < length fd)%nat -> 0 <= binFrequency fd i < sampleRate / 2.
Proof.
  intros Hi. unfold binFrequency, sampleRate.
  assert (Hn : 0 < INR (length fd)) by (apply lt_0_INR; lia).
  assert (Hlt : INR i < INR (length fd)) by (apply lt_INR; exact Hi).
  pose proof (pos_INR i) as H0.
  assert (Hinv : 0 < / (2 * INR (length fd)))
    by (apply Rinv_0_lt_compat; lra).
  split.
  - apply Rmult_le_pos; [|lra]. apply Rmult_le_pos; lra.
  - apply Rmult_lt_reg_r with (2 * INR (length fd)); [lra|].
    unfold Rdiv. rewrite Rmult_assoc, Rinv_l by lra. lra.
Qed.

Lemma centroid_fold_bound fd (l : list nat) (w m : R) :
  Forall (fun i => (i < length fd)%nat) l ->
  0 <= m -> 0 <= w <= sampleRate / 2 * m ->
  let r := fold_left
             (fun '(weightedSum, magnitudeSum) i =>
                let magnitude := bin fd i / 255 in
                let frequency := binFrequency fd i in
                (weightedSum + frequency * magnitude, magnitudeSum + magnitude))
             l (w, m) in
  0 <= snd r /\ 0 <= fst r <= sampleRate / 2 * snd r.
Proof.
  revert w m. induction l as [|i l IH]; intros w m Hl Hm Hw; [now split|].
  inversion Hl as [|? ? Hi Hl']; subst.
  cbn [fold_left]. cbv zeta.
  pose proof (bin_range fd i) as Hb.
  pose proof (binFrequency_range fd i Hi) as Hf.
  apply IH; [exact Hl'|lra|].
  assert (H1 : 0 <= binFrequency fd i * (bin fd i / 255))
    by (apply Rmult_le_pos; lra).
  assert (H2 : binFrequency fd i * (bin fd i / 255) <= sampleRate / 2 * (bin fd i / 255))
    by (apply Rmult_le_compat_r; lra).
  lra.
Qed.

Lemma seq_below n : Forall (fun i => (i < n)%nat) (seq 0 n).
Proof. apply Forall_forall. intros i Hi. apply in_seq in Hi. lia. Qed.

(** X15: the spectral centroid lies between 0 and the Nyquist frequency
    (22050 Hz), being a weighted mean of bin frequencies. *)
Theorem spectral_centroid_range (fd : JS.Uint8Array) :
  0 <= calculateSpectralCentroid fd <= sampleRate / 2.
Proof.
  unfold calculateSpectralCentroid.
  pose proof (centroid_fold_bound fd (seq 0 (length fd)) 0 0 (seq_below _)
                (Rle_refl 0)) as H.
  assert (H0 : 0 <= 0 <= sampleRate / 2 * 0) by lra.
  specialize (H H0). cbv zeta in H.
  destruct (fold_left _ _ (0, 0)) as [w m]. cbn [fst snd] in H.
  destruct (JS.gtb m 0) eqn:E; [|unfold sampleRate; lra].
  apply gtb_true_iff in E.
  assert (Hi : 0 < / m) by (apply Rinv_0_lt_compat; lra).
  split.
  - apply Rmult_le_pos; lra.
  - apply Rmult_le_reg_r with m; [lra|].
    unfold Rdiv at 1. rewrite Rmult_assoc, Rinv_l by lra. lra.
Qed.

(** *** Roll-off *)

Lemma fold_bytes_indices (g : R -> R) (fd : JS.Uint8Array) (a : R) :
  fold_left (fun sum val => sum + g (JS.byteval val)) fd a
  = fold_left (fun sum i => sum + g (bin fd i)) (seq 0 (length fd)) a.
Proof.
  revert a. induction fd as [|b fd IH]; intros a; [reflexivity|].
  cbn [fold_left length]. rewrite IH.
  change (seq 0 (S (length fd))) with (0%nat :: seq 1 (length fd)).
  cbn [fold_left]. change (bin (b :: fd) 0) with (JS.byteval b).
  rewrite <- seq_shift.
  generalize (seq 0 (length fd)) (a + g (JS.byteval b)).
  induction l as [|i l IHl]; intros r; [reflexivity|].
  cbn [map fold_left]. rewrite <- IHl. reflexivity.
Qed.

Lemma rolloffFrom_hits fd target :
  forall (m k : nat) (cum : R),
    (0 < m)%nat ->
    target <= fold_left (fun sum i => sum + (bin fd i / 255) ^ 2) (seq k m) cum ->
    exists i, (k <= i < k + m)%nat /\
              rolloffFrom fd target (seq k m) cum = binFrequency fd i.
Proof.
  induction m as [|m IH]; intros k cum Hm Ht; [lia|].
  cbn [seq rolloffFrom fold_left] in *. cbv zeta.
  destruct (JS.leb target (cum + (bin fd k / 255) ^ 2)) eqn:E.
  - exists k. split; [lia|reflexivity].
  - destruct m as [|m].
    + cbn [seq fold_left] in Ht. apply leb_true_iff in Ht. congruence.
    + destruct (IH (S k) (cum + (bin fd k / 255) ^ 2) ltac:(lia) Ht) as (i & Hi & Hr).
      exists i. split; [lia|exact Hr].
Qed.

Lemma fold_squares_nonneg fd (l : list nat) (a : R) :
  0 <= a -> 0 <= fold_left (fun sum i => sum + (bin fd i / 255) ^ 2) l a.
Proof.
  revert a. induction l as [|i l IH]; intros a Ha; [exact Ha|].
  cbn [fold_left]. apply IH. pose proof (pow2_ge_0 (bin fd i / 255)). lra.
Qed.

(** X16: for a non-empty spectrum and a threshold of at most 1 the
    roll-off is the frequency of one of the bins, hence below the Nyquist
    frequency: the running energy reaches the target at the last bin at the
    latest, and the fallback [sampleRate / 2] after the loop is returned for
    the empty spectrum only. *)
Theorem spectral_rolloff_is_a_bin (fd : JS.Uint8Array) (threshold : R) :
  fd <> [] -> threshold <= 1 ->
  exists i, (i < length fd)%nat /\
            calculateSpectralRolloff fd threshold = binFrequency fd i /\
            0 <= calculateSpectralRolloff fd threshold < sampleRate / 2.
Proof.
  intros Hne Hth. unfold calculateSpectralRolloff. cbv zeta.
  rewrite (fold_bytes_indices (fun v => (v / 255) ^ 2) fd 0).
  set (total := fold_left _ (seq 0 (length fd)) 0).
  assert (Htotal : 0 <= total) by (apply fold_squares_nonneg; lra).
  assert (Hlen : (0 < length fd)%nat) by (destruct fd; [contradiction|cbn [length]; lia]).
  assert (Htarget : total * threshold <= total) by nra.
  destruct (rolloffFrom_hits fd (total * threshold) (length fd) 0 0 Hlen Htarget)
    as (i & Hi & Hr).
  exists i. split; [lia|]. split; [exact Hr|].
  rewrite Hr. apply binFrequency_range. lia.
Qed.

Lemma spectral_rolloff_is_a_bin_witness :
  exists i, (i < length [x10; xff; x20])%nat /\
            calculateSpectralRolloff [x10; xff; x20] 0.85
            = binFrequency [x10; xff; x20] i.
Proof.
  assert (Hne : [x10; xff; x20] <> []) by discriminate.
  assert (Hth : 0.85 <= 1) by lra.
  destruct (spectral_rolloff_is_a_bin [x10; xff; x20] 0.85 Hne Hth) as (i & Hi & Hr & _).
  exists i. split; assumption.
Defined.

(** *** Flux and zero crossings *)

(** X17: for a non-empty spectrum the spectral flux is never negative;
    each bin contributes [max(0, ...)]. *)
Theorem spectral_flux_nonneg (a : t) (fd : JS.Uint8Array) :
  fd <> [] -> 0 <= calculateSpectralFlux a fd.
Proof.
  intros Hne. unfold calculateSpectralFlux.
  destruct (_ =? 0)%nat; [lra|].
  destruct (nth_error _ _) as [prev|]; [|lra]. cbv zeta.
  assert (Hfold : forall (l : list nat) (acc : R),
             0 <= acc ->
             0 <= fold_left
                    (fun flux i =>
                       let current := bin fd i / 255 in
                       let previous :=
                         if (i <? length (AdvancedAudioFeatures.mfcc prev))%nat
                         then nth i (AdvancedAudioFeatures.mfcc prev) 0 else 0 in
                       flux + Rmax 0 (current - previous))
                    l acc).
  { induction l as [|i l IH]; intros acc Hacc; [exact Hacc|].
    cbn [fold_left]. apply IH. cbv zeta.
    pose proof (Rmax_l 0 (bin fd i / 255
                          - (if (i <? length (AdvancedAudioFeatures.mfcc prev))%nat
                             then nth i (AdvancedAudioFeatures.mfcc prev) 0 else 0))).
    lra. }
  apply Rmult_le_pos; [apply Hfold; lra|].
  apply Rlt_le, Rinv_0_lt_compat, lt_0_INR.
  destruct fd; [contradiction|cbn [length]; lia].
Qed.

Lemma spectral_flux_nonneg_witness :
  0 <= calculateSpectralFlux new [x10; xff; x20].
Proof.
  apply (spectral_flux_nonneg new [x10; xff; x20]). discriminate.
Defined.

(** X18: the zero-crossing rate of a non-empty wave form lies in [0, 1):
    a wave form of n samples has at most n - 1 crossings. *)
Theorem zero_crossing_rate_range (td : JS.Uint8Array) :
  td <> [] -> 0 <= calculateZeroCrossingRate td < 1.
Proof.
  intros Hne. unfold calculateZeroCrossingRate. cbv zeta.
  assert (Hfold : forall (l : list nat) (c : nat),
             (fold_left
                (fun crossings i =>
                   if ((0 <=? Z.of_N (Byte.to_N (nth (i - 1) td x00)) - 128)%Z
                       && (Z.of_N (Byte.to_N (nth i td x00)) - 128 <? 0)%Z)
                      || ((Z.of_N (Byte.to_N (nth (i - 1) td x00)) - 128 <? 0)%Z
                          && (0 <=? Z.of_N (Byte.to_N (nth i td x00)) - 128)%Z)
                   then S crossings else crossings)
                l c <= c + length l)%nat).
  { induction l as [|i l IH]; intros c; [cbn [fold_left length]; lia|].
    cbn [fold_left length]. destruct (_ || _).
    - specialize (IH (S c)). lia.
    - specialize (IH c). lia. }
  specialize (Hfold (seq 1 (length td - 1)) 0%nat). rewrite length_seq in Hfold.
  set (crossings := fold_left _ _ 0%nat) in *.
  assert (Hlen : (0 < length td)%nat) by (destruct td; [contradiction|cbn [length]; lia]).
  assert (Hn : 0 < INR (length td)) by (apply lt_0_INR; exact Hlen).
  assert (Hc : INR crossings < INR (length td)) by (apply lt_INR; lia).
  pose proof (pos_INR crossings) as H0.
  assert (Hi : 0 < / INR (length td)) by (apply Rinv_0_lt_compat; exact Hn).
  split.
  - apply Rmult_le_pos; lra.
  - apply Rmult_lt_reg_r with (INR (length td)); [exact Hn|].
    unfold Rdiv. rewrite Rmult_assoc, Rinv_l by lra. lra.
Qed.

Lemma zero_crossing_rate_range_witness :
  0 <= calculateZeroCrossingRate [x70; x90; x70] < 1.
Proof.
  apply (zero_crossing_rate_range [x70; x90; x70]). discriminate.
Defined.

End AnalyzerExtras.

(** ** Chroma, tonal features and the key *)

Section ChromaExtras.

Import AdvancedAudioAnalyzer.










(** X21: [detectKey] answers with one of the twelve key names of its
    table, whatever the chroma vector. *)
Theorem detected_key_is_listed (chroma : list R) : In (detectKey chroma) keys.
Proof.
  unfold detectKey.
  assert (H : forall (l : list nat) (acc : R * string),
             Forall (fun i => (i < 12)%nat) l ->
             In (snd acc) keys ->
             In (snd (fold_left
                        (fun '(maxCorrelation, detectedKey) i =>
                           let correlation := dotProduct chroma (rotatedProfile i) in
                           if JS.gtb correlation maxCorrelation
                           then (correlation, nth i keys ""%string)
                           else (maxCorrelation, detectedKey))
                        l acc)) keys).
  { induction l as [|i l IH]; intros [m k] Hl Hk; [exact Hk|].
    inversion Hl as [|? ? Hi Hl']; subst.
    cbn [fold_left]. apply IH; [exact Hl'|]. cbv zeta.
    destruct (JS.gtb _ _); cbn [snd]; [|exact Hk].
    apply nth_In. exact Hi. }
  specialize (H (seq 0 12) (-1, "C"%string) (seq_below 12)).
  destruct (fold_left _ _ _) as [m k]. apply H. cbn. now left.
Qed.

End ChromaExtras.

(** ** Harmonic test, genre and the pipeline *)

Section Harmonics.

Import AdvancedAudioAnalyzer.

Lemma far_from (frequency target : R) :
  frequency + 10 <= target \/ target + 10 <= frequency ->
  JS.ltb (Rabs (frequency - target)) 10 = false.
Proof.
  intros H. apply ltb_false_iff.
  unfold Rabs. destruct (Rcase_abs _); lra.
Qed.

Lemma no_harmonic_of (frequency fundamental : R) :
  0 <= fundamental ->
  frequency + 10 <= fundamental \/ fundamental * 8 + 10 <= frequency ->
  existsb (fun harmonic => JS.ltb (Rabs (frequency - fundamental * INR harmonic)) 10)
          (seq 1 8) = false.
Proof.
  intros H0 H. cbn [seq existsb INR].
  rewrite !far_from by (destruct H; [left|right]; lra).
  reflexivity.
Qed.

(** X23: no frequency of at most 72 Hz or at least 6282 Hz passes the
    harmonic test: the table of fundamentals spans 82 Hz to 784 Hz and
    eight harmonics with a tolerance of 10 Hz, so energy outside
    (72, 6282) Hz never counts as harmonic. *)
Theorem harmonic_test_band (frequency : R) :
  frequency <= 72 \/ 6282 <= frequency -> isLikelyHarmonic frequency = false.
Proof.
  intros H. unfold isLikelyHarmonic. cbv zeta. cbn [existsb].
  rewrite !no_harmonic_of by first [lra | destruct H; [left|right]; lra].
  reflexivity.
Qed.

Lemma harmonic_test_band_witness : isLikelyHarmonic 10000 = false.
Proof.
  apply (harmonic_test_band 10000). right. lra.
Defined.

End Harmonics.

Section GenreExtras.

Import GenreClassifier.


End GenreExtras.

Section PipelineExtras.

Import AdvancedAudioAnalyzer.

Lemma pipeline_invariants (frames : list Pipeline.Frame) :
  forall p clock,
    AdvancedBeatDetector.reachable (Pipeline.beatDetector p) ->
    wellFormed (Pipeline.beatDetector p) clock ->
    AdvancedBeatDetector.nondecreasing (clock :: map Pipeline.clockDetector frames) ->
    Forall (fun out =>
              MusicCharacteristics.tempo (Pipeline.musicChars out)
              = BeatData.tempo (Pipeline.beatData out) /\
              60 <= MusicCharacteristics.tempo (Pipeline.musicChars out) <= 200 /\
              MusicCharacteristics.timeSignature (Pipeline.musicChars out) = 4%nat)
           (snd (Pipeline.run p frames)).
Proof.
  induction frames as [|f frames IH]; intros p clock Hr Hwf Hmono; [constructor|].
  cbn [map AdvancedBeatDetector.nondecreasing] in Hmono. destruct Hmono as [Hle Hrest].
  cbn [Pipeline.run]. rewrite animate_calls. cbv zeta.
  set (bands := snd (AudioAnalyzer.getAnalysisData _ _ _ _)).
  set (d := Pipeline.beatDetector p) in *.
  pose proof (AdvancedBeatDetector.reach_analyze d
                (AdvancedBeatDetector.mkTick (Pipeline.clockDetector f)
                   (Pipeline.frequencyData f) (Pipeline.timeData f)
                   (AudioAnalysisData.bass bands) (AudioAnalysisData.mid bands)
                   (AudioAnalysisData.treble bands)) Hr) as Hr'.
  unfold AdvancedBeatDetector.step in Hr'.
  cbn [AdvancedBeatDetector.now AdvancedBeatDetector.frequencyData
       AdvancedBeatDetector.timeData AdvancedBeatDetector.bass
       AdvancedBeatDetector.mid AdvancedBeatDetector.treble] in Hr'.
  destruct (analyze_ranges d clock (Pipeline.clockDetector f)
              (Pipeline.frequencyData f) (Pipeline.timeData f)
              (AudioAnalysisData.bass bands) (AudioAnalysisData.mid bands)
              (AudioAnalysisData.treble bands) Hwf Hle) as [(_ & _ & Htempo) Hwf'].
  pose proof (analyze_timeSignature d (Pipeline.clockDetector f)
                (Pipeline.frequencyData f) (Pipeline.timeData f)
                (AudioAnalysisData.bass bands) (AudioAnalysisData.mid bands)
                (AudioAnalysisData.treble bands) Hr) as Hts.
  set (r := AdvancedBeatDetector.analyze d _ _ _ _ _ _) in *.
  set (x := analyzeAdvancedFeatures _ _ _ _ _).
  specialize (IH (Pipeline.mk (fst (AudioAnalyzer.getAnalysisData (Pipeline.analyzer p)
                                      (Pipeline.clockFrontend f)
                                      (Pipeline.frequencyData f) (Pipeline.timeData f)))
                              (fst r) (fst x))
                 (Pipeline.clockDetector f) Hr' Hwf' Hrest).
  destruct (Pipeline.run _ frames) as [p2 outs]. cbn [snd] in *.
  constructor; [|exact IH].
  cbn [Pipeline.musicChars Pipeline.beatData].
  unfold generateMusicCharacteristics. cbv zeta.
  cbn [MusicCharacteristics.tempo MusicCharacteristics.timeSignature].
  assert (Hor : JS.orElse (BeatData.tempo (snd r)) 120 = BeatData.tempo (snd r)).
  { unfold JS.orElse. destruct (Req_dec_T _ 0) as [H0|_]; [lra|reflexivity]. }
  rewrite Hor, Hts. cbn [Nat.eqb].
  repeat split; lra.
Qed.

Lemma pipeline_history (frames : list Pipeline.Frame) :
  forall p,
    analysisHistory (Pipeline.advancedAnalyzer (fst (Pipeline.run p frames)))
    = fold_left (JS.pushCapped 1000)
        (map Pipeline.advancedFeatures (snd (Pipeline.run p frames)))
        (analysisHistory (Pipeline.advancedAnalyzer p)).
Proof.
  induction frames as [|f frames IH]; intros p; [reflexivity|].
  cbn [Pipeline.run]. rewrite animate_calls. cbv zeta.
  set (a1 := fst (AudioAnalyzer.getAnalysisData _ _ _ _)).
  set (bands := snd (AudioAnalyzer.getAnalysisData _ _ _ _)).
  set (r := AdvancedBeatDetector.analyze _ _ _ _ _ _ _).
  set (x := analyzeAdvancedFeatures _ _ _ _ _).
  specialize (IH (Pipeline.mk a1 (fst r) (fst x))).
  destruct (Pipeline.run _ frames) as [p2 outs]. cbn [fst snd] in *.
  rewrite IH. cbn [map fold_left Pipeline.advancedFeatures Pipeline.advancedAnalyzer].
  reflexivity.
Qed.

(** X25: along a pipeline run from a fresh state with a non-decreasing
    detector clock, every frame's music characteristics carry the detector's
    tempo unchanged (it lies in [60, 200], so the fallback [|| 120] never
    applies) and the time signature 4. *)
Theorem pipeline_characteristics_follow_detector (sr : R)
    (frames : list Pipeline.Frame) :
  AdvancedBeatDetector.nondecreasing (map Pipeline.clockDetector frames) ->
  Forall (fun out =>
            MusicCharacteristics.tempo (Pipeline.musicChars out)
            = BeatData.tempo (Pipeline.beatData out) /\
            60 <= MusicCharacteristics.tempo (Pipeline.musicChars out) <= 200 /\
            MusicCharacteristics.timeSignature (Pipeline.musicChars out) = 4%nat)
         (snd (Pipeline.run (Pipeline.new sr) frames)).
Proof.
  intros Hmono.
  destruct frames as [|f frames]; [constructor|].
  apply (pipeline_invariants (f :: frames) (Pipeline.new sr) (Pipeline.clockDetector f)).
  - apply AdvancedBeatDetector.reach_new.
  - apply wellFormed_new.
  - cbn [map AdvancedBeatDetector.nondecreasing] in *. split; [lia|exact Hmono].
Qed.

Lemma pipeline_characteristics_follow_detector_witness :
  Forall (fun out =>
            MusicCharacteristics.tempo (Pipeline.musicChars out)
            = BeatData.tempo (Pipeline.beatData out) /\
            60 <= MusicCharacteristics.tempo (Pipeline.musicChars out) <= 200 /\
            MusicCharacteristics.timeSignature (Pipeline.musicChars out) = 4%nat)
         (snd (Pipeline.run (Pipeline.new 44100)
                 [Pipeline.mkFrame 16 16 [x00; xff] [x80; x90];
                  Pipeline.mkFrame 33 33 [xff; x00] [x90; x80]])).
Proof.
  apply (pipeline_characteristics_follow_detector 44100
           [Pipeline.mkFrame 16 16 [x00; xff] [x80; x90];
            Pipeline.mkFrame 33 33 [xff; x00] [x90; x80]]).
  cbn [map Pipeline.clockDetector AdvancedBeatDetector.nondecreasing].
  repeat split; lia.
Defined.

(** X26: the analysis history of a pipeline run from a fresh state holds
    the features of the last 1000 frames, oldest first. *)
Theorem analysis_history_window (sr : R) (frames : list Pipeline.Frame) :
  analysisHistory (Pipeline.advancedAnalyzer (fst (Pipeline.run (Pipeline.new sr) frames)))
  = Spec.lastn 1000
      (map Pipeline.advancedFeatures (snd (Pipeline.run (Pipeline.new sr) frames))).
Proof.
  rewrite pipeline_history.
  cbn [Pipeline.new Pipeline.advancedAnalyzer new analysisHistory].
  apply fold_pushCapped_lastn. cbn [length]. lia.
Qed.

End PipelineExtras.

(** ** Theme selection and transition progress *)

Section ThemeExtras.

Import StoryThemeEngine.

Lemma distance_term (cap x lo hi k : R) :
  0 <= cap -> 0 <= k ->
  0 <= Rmax 0 (cap - Rmin (Rabs (x - lo)) (Rabs (x - hi)) * k) <= cap.
Proof.
  intros Hcap Hk. split; [apply Rmax_l|].
  apply Rmax_lub; [exact Hcap|].
  assert (Hd : 0 <= Rmin (Rabs (x - lo)) (Rabs (x - hi)))
    by (apply Rmin_glb; apply Rabs_pos).
  pose proof (Rmult_le_pos _ _ Hd Hk). lra.
Qed.

Lemma genre_bonus_once (genre : string) :
  (String.eqb genre "electronic" = true -> String.eqb genre "ambient" = false
                                           /\ String.eqb genre "folk" = false) /\
  (String.eqb genre "ambient" = true -> String.eqb genre "folk" = false).
Proof.
  split; intros H; apply String.eqb_eq in H; subst; split || idtac; reflexivity.
Qed.

Lemma calculateThemeScore_range theme music :
  0 <= calculateThemeScore theme music <= 100.
Proof.
  unfold calculateThemeScore. cbv zeta.
  destruct (StoryTheme.tempoRange theme) as [minTempo maxTempo].
  destruct (StoryTheme.energyRange theme) as [minEnergy maxEnergy].
  pose proof (distance_term 30 (MusicCharacteristics.tempo music) minTempo maxTempo (/ 10))
    as Ht.
  pose proof (distance_term 25 (MusicCharacteristics.energy music) minEnergy maxEnergy 50)
    as He.
  assert (H30 : 0 <= 30) by lra. assert (H25 : 0 <= 25) by lra.
  assert (H10 : 0 <= / 10) by lra. assert (H50 : 0 <= 50) by lra.
  specialize (Ht H30 H10). specialize (He H25 H50).
  unfold Rdiv.
  set (t := Rmax 0 (30 - _)) in *. set (e := Rmax 0 (25 - _)) in *.
  destruct (genre_bonus_once (MusicCharacteristics.genre music)) as [G1 G2].
  destruct (String.eqb (MusicCharacteristics.genre music) "electronic").
  - destruct (G1 eq_refl) as [-> ->]. clear G1 G2. cbn [andb].
    repeat match goal with
           | |- context [if ?b then _ else _] => destruct b
           end; lra.
  - destruct (String.eqb (MusicCharacteristics.genre music) "ambient").
    + rewrite (G2 eq_refl). clear G1 G2. cbn [andb].
      repeat match goal with
             | |- context [if ?b then _ else _] => destruct b
             end; lra.
    + clear G1 G2. cbn [andb].
      repeat match goal with
             | |- context [if ?b then _ else _] => destruct b
             end; lra.
Qed.

(** X27: a theme score lies in [0, 100]: up to 30 for the tempo, 25 for
    the energy, 35 for the mood, and at most one genre bonus of 10. *)
Theorem theme_score_range (theme : StoryTheme.t) (music : MusicCharacteristics.t) :
  0 <= calculateThemeScore theme music <= 100.
Proof. apply calculateThemeScore_range. Qed.

Lemma bestOf_spec music (l : list StoryTheme.t) :
  forall (bestTheme : option StoryTheme.t) (bestScore : R),
    let r := fold_left
               (fun '(bestTheme, bestScore) theme =>
                  let score := calculateThemeScore theme music in
                  if JS.gtb score bestScore then (Some theme, score)
                  else (bestTheme, bestScore))
               l (bestTheme, bestScore) in
    (r = (bestTheme, bestScore) /\
     Forall (fun t => calculateThemeScore t music <= bestScore) l) \/
    (exists before best after,
        l = before ++ best :: after /\
        r = (Some best, calculateThemeScore best music) /\
        bestScore < calculateThemeScore best music /\
        Forall (fun t => calculateThemeScore t music < calculateThemeScore best music)
               before /\
        Forall (fun t => calculateThemeScore t music <= calculateThemeScore best music)
               after).
Proof.
  induction l as [|t l IH]; intros bt bs; cbv zeta.
  - left. split; [reflexivity|constructor].
  - cbn [fold_left]. cbv zeta.
    destruct (JS.gtb (calculateThemeScore t music) bs) eqn:E.
    + apply gtb_true_iff in E. right.
      destruct (IH (Some t) (calculateThemeScore t music))
        as [[Hr Hall]|(before & best & after & Hl & Hr & Hlt & Hb & Ha)].
      * exists [], t, l. cbn [app].
        split; [reflexivity|]. split; [exact Hr|]. split; [lra|].
        split; [constructor|exact Hall].
      * exists (t :: before), best, after. cbn [app].
        split; [now rewrite Hl|]. split; [exact Hr|]. split; [lra|].
        split; [constructor; assumption|exact Ha].
    + apply gtb_false_iff in E.
      destruct (IH bt bs)
        as [[Hr Hall]|(before & best & after & Hl & Hr & Hlt & Hb & Ha)].
      * left. split; [exact Hr|]. constructor; assumption.
      * right. exists (t :: before), best, after. cbn [app].
        split; [now rewrite Hl|]. split; [exact Hr|]. split; [exact Hlt|].
        split; [constructor; [lra|assumption]|exact Ha].
Qed.

(** X28: with a non-empty theme table [selectTheme] returns, and makes
    current, a theme of highest score; among themes of equal score the first
    of the table wins: every theme before the selected one scores strictly
    less, every theme after it at most as much. *)
Theorem selected_theme_is_best (e : t) (music : MusicCharacteristics.t) :
  themes e <> [] ->
  exists before best after,
    themes e = before ++ best :: after /\
    selectTheme e music = (mk (themes e) (Some best), Some best) /\
    Forall (fun t => calculateThemeScore t music < calculateThemeScore best music)
           before /\
    Forall (fun t => calculateThemeScore t music <= calculateThemeScore best music)
           after.
Proof.
  intros Hne. unfold selectTheme, bestOf.
  destruct (bestOf_spec music (themes e) None (-1))
    as [[_ Hall]|(before & best & after & Hl & Hr & _ & Hb & Ha)]; cbv zeta in *.
  - exfalso. destruct (themes e) as [|t l]; [contradiction|].
    inversion Hall as [|? ? Ht _]; subst.
    pose proof (calculateThemeScore_range t music). lra.
  - exists before, best, after. rewrite Hr. repeat split; assumption.
Qed.

Lemma selected_theme_is_best_witness :
  exists best,
    In best (themes new) /\
    snd (selectTheme new
           (MusicCharacteristics.mk 120 0.5 0.5 0.5 0.5 0.5 "unknown" calm 4 "C"))
    = Some best.
Proof.
  assert (Hne : themes new <> []) by discriminate.
  destruct (selected_theme_is_best new
              (MusicCharacteristics.mk 120 0.5 0.5 0.5 0.5 0.5 "unknown" calm 4 "C") Hne)
    as (before & best & after & Hl & Hs & _).
  exists best. split.
  - rewrite Hl. apply in_elt.
  - now rewrite Hs.
Defined.

End ThemeExtras.

Section TransitionExtras.

Import NarrativeTransitionEngine.

(** X29: one update of an active transition whose progress is in [0, 1],
    with a non-negative time step and a positive duration, moves the
    progress forward without passing 1, and switches the transition off
    exactly when the progress has reached 1. *)
Theorem transition_progress_step (a : ActiveTransition) (deltaTime : R) :
  0 <= progress a <= 1 -> 0 <= deltaTime -> 0 < duration a -> isActive a = true ->
  exists a',
    updateActiveTransition (Some a) deltaTime = Some a' /\
    progress a <= progress a' <= 1 /\
    (isActive a' = false <-> progress a' = 1).
Proof.
  intros Hp Hd Hdur Hact. unfold updateActiveTransition. cbv zeta.
  assert (Hstep : 0 <= deltaTime / duration a).
  { apply Rmult_le_pos; [exact Hd|]. apply Rlt_le, Rinv_0_lt_compat, Hdur. }
  destruct (JS.geb (progress a + deltaTime / duration a) 1.0) eqn:E.
  - eexists. split; [reflexivity|]. cbn [progress isActive].
    split; [lra|]. split; intros _; [lra|reflexivity].
  - eexists. split; [reflexivity|]. cbn [progress isActive].
    assert (Hlt : progress a + deltaTime / duration a < 1).
    { unfold JS.geb, JS.leb in E. destruct (Rle_dec _ _); [discriminate|lra]. }
    split; [lra|]. rewrite Hact. split; [discriminate|lra].
Qed.

Lemma transition_progress_step_witness :
  exists a',
    updateActiveTransition (Some (startTransition easeInOut 2)) 0.016 = Some a' /\
    progress a' <= 1.
Proof.
  assert (Hp : 0 <= progress (startTransition easeInOut 2) <= 1)
    by (cbn [startTransition progress]; lra).
  assert (Hd : 0 <= 0.016) by lra.
  assert (Hdur : 0 < duration (startTransition easeInOut 2))
    by (cbn [startTransition duration]; lra).
  destruct (transition_progress_step (startTransition easeInOut 2) 0.016 Hp Hd Hdur eq_refl)
    as (a' & Hu & Hr & _).
  exists a'. split; [exact Hu|lra].
Defined.

Lemma bounceEase_range (t : R) : 0 <= t <= 1 -> 0 <= bounceEase t <= 1.
Proof.
  intros Ht. unfold bounceEase.
  destruct (JS.ltb t (1 / 2.75)) eqn:E1.
  { apply ltb_true_iff in E1. split; [nra|].
    assert (H : t * t <= (1 / 2.75) * (1 / 2.75)) by nra. lra. }
  apply ltb_false_iff in E1.
  destruct (JS.ltb t (2 / 2.75)) eqn:E2.
  { apply ltb_true_iff in E2. cbv zeta.
    set (u := t - 1.5 / 2.75).
    assert (Hu : - (0.5 / 2.75) <= u <= 0.5 / 2.75) by (unfold u; lra).
    assert (Hsq : 0 <= u * u <= (0.5 / 2.75) * (0.5 / 2.75)) by nra.
    lra. }
  apply ltb_false_iff in E2.
  destruct (JS.ltb t (2.5 / 2.75)) eqn:E3.
  { apply ltb_true_iff in E3. cbv zeta.
    set (u := t - 2.25 / 2.75).
    assert (Hu : - (0.25 / 2.75) <= u <= 0.25 / 2.75) by (unfold u; lra).
    assert (Hsq : 0 <= u * u <= (0.25 / 2.75) * (0.25 / 2.75)) by nra.
    lra. }
  apply ltb_false_iff in E3. cbv zeta.
  set (u := t - 2.625 / 2.75).
  assert (Hu : - (0.125 / 2.75) <= u <= 0.125 / 2.75) by (unfold u; lra).
  assert (Hsq : 0 <= u * u <= (0.125 / 2.75) * (0.125 / 2.75)) by nra.
  lra.
Qed.

Lemma elasticEase_range (t : R) : 0 <= t -> 0 <= elasticEase t <= 2.
Proof.
  intros Ht. unfold elasticEase. cbv zeta.
  destruct (JS.eqb t 0); [lra|]. destruct (JS.eqb t 1); [lra|].
  unfold JS.pow, Rpower.
  assert (Hln : 0 < ln 2) by (rewrite <- ln_1; apply ln_increasing; lra).
  assert (Hexp : 0 < exp (-10 * t * ln 2) <= 1).
  { split; [apply exp_pos|]. rewrite <- exp_0.
    destruct (Req_dec (-10 * t * ln 2) 0) as [->|Hne]; [lra|].
    apply Rlt_le, exp_increasing.
    assert (0 <= t * ln 2) by (apply Rmult_le_pos; lra). lra. }
  set (p := exp _) in *.
  pose proof (SIN_bound ((t * 10 - 0.75) * (2 * PI / 3))) as Hs.
  set (s := sin _) in *.
  assert (Hps : - 1 <= p * s <= 1) by nra.
  lra.
Qed.

(** X30: for a progress in [0, 1] the eased progress stays in [0, 1] for
    the easings linear, ease-in, ease-out, ease-in-out and bounce, and in
    [0, 2] for elastic; every easing maps progress 0 to 0 and progress 1
    to 1. *)
Theorem eased_progress_range (a : ActiveTransition) :
  0 <= progress a <= 1 ->
  (easing a <> elastic -> 0 <= getEasedProgress (Some a) <= 1) /\
  0 <= getEasedProgress (Some a) <= 2 /\
  (progress a = 0 -> getEasedProgress (Some a) = 0) /\
  (progress a = 1 -> getEasedProgress (Some a) = 1).
Proof.
  intros Hp. unfold getEasedProgress. cbv zeta.
  pose proof (bounceEase_range (progress a) Hp) as Hb.
  pose proof (elasticEase_range (progress a) (proj1 Hp)) as He.
  assert (Hio : 0 <= (if JS.ltb (progress a) 0.5 then 2 * progress a * progress a
                      else 1 - (-2 * progress a + 2) ^ 2 / 2) <= 1).
  { destruct (JS.ltb (progress a) 0.5) eqn:E.
    - apply ltb_true_iff in E. nra.
    - apply ltb_false_iff in E. nra. }
  assert (Hin : 0 <= progress a * progress a <= 1) by nra.
  assert (Hout : 0 <= 1 - (1 - progress a) ^ 2 <= 1) by nra.
  split; [|split; [|split]].
  - intros Hne. destruct (easing a); try assumption; try lra. contradiction.
  - destruct (easing a); lra.
  - intros H0. rewrite H0 in *.
    destruct (easing a); try lra.
    + assert (Hf : JS.ltb 0 0.5 = true) by (apply ltb_true_iff; lra).
      rewrite Hf. lra.
    + unfold bounceEase.
      assert (Hf : JS.ltb 0 (1 / 2.75) = true) by (apply ltb_true_iff; lra).
      rewrite Hf. lra.
    + unfold elasticEase. cbv zeta. unfold JS.eqb.
      destruct (Req_dec_T 0 0) as [_|Hn]; [reflexivity|contradiction].
  - intros H1. rewrite H1 in *.
    destruct (easing a); try lra.
    + assert (Hf : JS.ltb 1 0.5 = false) by (apply ltb_false_iff; lra).
      rewrite Hf. lra.
    + unfold bounceEase.
      assert (F1 : JS.ltb 1 (1 / 2.75) = false) by (apply ltb_false_iff; lra).
      assert (F2 : JS.ltb 1 (2 / 2.75) = false) by (apply ltb_false_iff; lra).
      assert (F3 : JS.ltb 1 (2.5 / 2.75) = false) by (apply ltb_false_iff; lra).
      rewrite F1, F2, F3. cbv zeta. lra.
    + unfold elasticEase. cbv zeta. unfold JS.eqb.
      destruct (Req_dec_T 1 0) as [Hn|_]; [lra|].
      destruct (Req_dec_T 1 1) as [_|Hn]; [reflexivity|contradiction].
Qed.

Lemma eased_progress_range_witness :
  0 <= getEasedProgress (Some (mkActiveTransition bounce 2 0.5 true)) <= 1.
Proof.
  assert (Hp : 0 <= progress (mkActiveTransition bounce 2 0.5 true) <= 1)
    by (cbn [progress]; lra).
  destruct (eased_progress_range (mkActiveTransition bounce 2 0.5 true) Hp) as [H _].
  apply H. discriminate.
Defined.

End TransitionExtras.
